(** * Behavioural analytics engine: a shallow embedding and its properties

    The development follows the TypeScript sources of the live analytics
    core: the audio worklet ([analyzer.worklet.js]), the face worker
    ([workers/faceWorker.ts]), the emotion classifier ([goemotions.ts]),
    the controller ([analyticsController.ts]), the metrics hook
    ([useMetrics.ts]), the metrics bus ([metricsBus.ts]), the speech
    recognition service ([asr.ts]) and the scores ([scoring.ts]).

    Numbers.  A JavaScript number is an IEEE 754 binary64 value, so the
    audio and face arithmetic is embedded on Rocq's primitive [float], whose
    operations are the same binary64 operations.  Wall-clock readings
    ([Date.now()]) and counts are integers and are kept in [Z] and [nat].
    Classifier scores are finite probabilities on which the code only
    compares and sorts; they are kept as exact rationals ([Q]). *)

From Stdlib Require Import String Ascii.
From Stdlib Require Import ZArith NArith List Bool Lia.
From Stdlib Require Import QArith Qround.
From Stdlib Require Import Sorting.Permutation Sorting.Sorted.
From Stdlib Require Import Floats.
Import ListNotations.

#[local] Set Warnings "-inexact-float".
#[local] Open Scope Z_scope.

(* ================================================================== *)
(** * JavaScript values *)
(* ================================================================== *)

Module JS.

(** ** Completion *)

(** How a call ends: it returns (an awaited promise resolves), or it throws
    (the promise rejects) with an error message. *)
Inductive outcome (A : Type) :=
| Returned (a : A)
| Thrown (message : String.string).
Arguments Returned {A} a.
Arguments Thrown {A} message.

(** ** Numbers *)

(** Integer-valued numbers (array lengths, millisecond differences) as
    binary64 values; exact below 2^53. *)
Definition float_of_Z (z : Z) : float :=
  if z <? 0 then PrimFloat.opp (PrimFloat.of_uint63 (Uint63.of_Z (- z)))
  else PrimFloat.of_uint63 (Uint63.of_Z z).

Definition float_of_nat (n : nat) : float := float_of_Z (Z.of_nat n).

(** [ToBoolean] on a number: [0], [-0] and [NaN] are falsy. *)
Definition truthy (x : float) : bool :=
  negb (PrimFloat.eqb x 0%float) && negb (PrimFloat.is_nan x).

(** [x || 0] for a possibly missing number. *)
Definition or_zero (o : option float) : float :=
  match o with
  | Some x => if truthy x then x else 0%float
  | None => 0%float
  end.

(** The two zeros of binary64; a [Float32Array] may hold either. *)
Definition is_zero (x : float) : Prop := x = PrimFloat.zero \/ x = PrimFloat.neg_zero.


(** ** Strings *)

(** A string is its sequence of UTF-16 code units. *)
Definition code_unit := N.
Definition js_string := list code_unit.

(** A literal, for ASCII text. *)
Definition str (s : String.string) : js_string :=
  map N_of_ascii (list_ascii_of_string s).

Definition string_eqb (a b : js_string) : bool :=
  if list_eq_dec N.eq_dec a b then true else false.

(** ECMAScript [WhiteSpace] and [LineTerminator]: what [trim] strips and
    what the regular-expression class [\s] matches. *)
Definition is_space (c : code_unit) : bool :=
  ((9 <=? c) && (c <=? 13) || (c =? 32) || (c =? 160) || (c =? 0x1680)
   || (0x2000 <=? c) && (c <=? 0x200A) || (c =? 0x2028) || (c =? 0x2029)
   || (c =? 0x202F) || (c =? 0x205F) || (c =? 0x3000) || (c =? 0xFEFF))%N.

Fixpoint drop_spaces (s : js_string) : js_string :=
  match s with
  | c :: rest => if is_space c then drop_spaces rest else s
  | [] => []
  end.

(** [String.prototype.trim]. *)
Definition trim (s : js_string) : js_string :=
  rev (drop_spaces (rev (drop_spaces s))).

(** [!text.trim()]: the empty string is the only falsy string. *)
Definition blank (text : js_string) : bool :=
  match trim text with [] => true | _ => false end.

(** [s.split(/\s+/)]: the pieces between maximal runs of white space; the
    empty string gives one empty piece.  [cur] is the current piece,
    reversed; [in_run] tells that the previous unit was white space. *)
Fixpoint split_spaces (s cur : js_string) (in_run : bool) : list js_string :=
  match s with
  | [] => [rev cur]
  | c :: rest =>
      if is_space c then
        if in_run then split_spaces rest cur true
        else rev cur :: split_spaces rest [] true
      else split_spaces rest (c :: cur) false
  end.

Definition split_ws (s : js_string) : list js_string := split_spaces s [] false.

(** The words of a text: its maximal runs of units that are not white
    space, left to right; [cur] is the run being read, reversed.  A text
    without such a unit has no word. *)
Definition emit (cur : js_string) : list js_string :=
  match cur with [] => [] | _ => [rev cur] end.

Fixpoint runs (s cur : js_string) : list js_string :=
  match s with
  | [] => emit cur
  | c :: rest =>
      if is_space c then emit cur ++ runs rest [] else runs rest (c :: cur)
  end.

(** ** The filler-word pattern: [\b(w1|w2|...)\b] with flags [gi] *)

(** [\w] without the unicode flag. *)
Definition is_word_char (c : code_unit) : bool :=
  ((48 <=? c) && (c <=? 57) || (65 <=? c) && (c <=? 90) || (c =? 95)
   || (97 <=? c) && (c <=? 122))%N.

(** Case folding of the [i] flag; it cannot map a unit at or above 128 to
    one below, so on a pattern of ASCII text only ASCII letters fold. *)
Definition fold_case (c : code_unit) : code_unit :=
  if ((97 <=? c) && (c <=? 122))%N then (c - 32)%N else c.

(** [\b] between two neighbouring units ([None] at either end of the text). *)
Definition boundary (before after : option code_unit) : bool :=
  let word o := match o with Some c => is_word_char c | None => false end in
  xorb (word before) (word after).

(** The text after a case-insensitive occurrence of [pat] at its start,
    with the last unit consumed. *)
Fixpoint match_literal (pat s : js_string) (last : option code_unit)
  : option (option code_unit * js_string) :=
  match pat, s with
  | [], _ => Some (last, s)
  | p :: pat', c :: s' =>
      if (fold_case p =? fold_case c)%N then match_literal pat' s' (Some c)
      else None
  | _ :: _, [] => None
  end.

(** The length of the match starting here, if any: the first alternative,
    in order, that occurs and is followed by a word boundary. *)
Fixpoint match_at (words : list js_string) (before : option code_unit)
         (s : js_string) : option nat :=
  match words with
  | [] => None
  | w :: rest =>
      match match_literal w s before with
      | Some (last, after) =>
          if boundary before (hd_error s) && boundary last (hd_error after)
          then Some (length w)
          else match_at rest before s
      | None => match_at rest before s
      end
  end.

(** [(text.match(regex) || []).length]: the matches, left to right, each
    search resuming where the previous match ended.  [skip] counts the units
    of the current match still to pass. *)
Fixpoint count_matches (words : list js_string) (before : option code_unit)
         (s : js_string) (skip : nat) : nat :=
  match s with
  | [] => 0
  | c :: rest =>
      match skip with
      | S k => count_matches words (Some c) rest k
      | O =>
          match match_at words before s with
          | Some len => S (count_matches words (Some c) rest (len - 1))
          | None => count_matches words (Some c) rest 0
          end
      end
  end.

End JS.

(* ================================================================== *)
(** * The audio worklet ([public/worklets/analyzer.worklet.js]) *)
(* ================================================================== *)

Module Worklet.
Import JS.
#[local] Open Scope float_scope.

Definition SAMPLE_RATE : Z := 48000.
Definition MIN_PITCH_HZ : Z := 75.
Definition MAX_PITCH_HZ : Z := 400.

(** [Math.floor(SAMPLE_RATE * 0.05)]: the 50 ms frame, 2400 samples. *)
Definition bufferSize : nat := 2400.

(** [computeRMS]: the loop accumulates [samples[i] * samples[i]]. *)
Definition computeRMS (samples : list float) : float :=
  let sum := fold_left (fun sum s => sum + s * s) samples 0 in
  PrimFloat.sqrt (sum / float_of_nat (length samples)).

(** The inner loop of [computePitch] for one period:
    [for (i = 0; i < samples.length - period; i++) corr += samples[i] * samples[i + period]].
    The first list walks [samples[i]], the second [samples[i + period]]; the
    loop ends when the second runs out, that is at [i + period = length]. *)
Fixpoint corr_loop (xs ys : list float) (corr : float) : float :=
  match xs, ys with
  | x :: xs', y :: ys' => corr_loop xs' ys' (corr + x * y)
  | _, _ => corr
  end.

Definition autocorr (samples : list float) (period : nat) : float :=
  corr_loop samples (skipn period samples) 0.

(** One iteration of the outer loop, on [(maxCorr, bestPeriod)]. *)
Definition pitch_step (samples : list float) (acc : float * nat) (period : nat)
  : float * nat :=
  let corr := autocorr samples period in
  if fst acc <? corr then (corr, period) else acc.

(** [computePitch]: frequency in Hz, or 0 when there is no clear pitch. *)
Definition computePitch (samples : list float) (sampleRate : Z) : float :=
  let minPeriod := Z.to_nat (sampleRate / MAX_PITCH_HZ) in
  let maxPeriod := Z.to_nat (sampleRate / MIN_PITCH_HZ) in
  let '(maxCorr, bestPeriod) :=
    fold_left (pitch_step samples)
              (seq minPeriod (S maxPeriod - minPeriod)) (0, 0%nat) in
  let energy := fold_left (fun sum s => sum + s * s) samples 0 in
  if (maxCorr <? energy * 0.3) || (bestPeriod =? 0)%nat then 0
  else float_of_Z sampleRate / float_of_nat bestPeriod.

(** The message posted to the main thread. *)
Record AudioAnalysisMessage := { rms : float; pitch : float }.

Definition analyze (frame : list float) (sampleRate : Z) : AudioAnalysisMessage :=
  {| rms := computeRMS frame; pitch := computePitch frame sampleRate |}.

(** The processor: a frame buffer and the write index. *)
Record processor := { buffer : list float; bufferIndex : nat }.

Definition new_processor : processor :=
  {| buffer := repeat 0 bufferSize; bufferIndex := 0 |}.

Fixpoint write (l : list float) (i : nat) (v : float) : list float :=
  match l, i with
  | [], _ => []
  | _ :: t, O => v :: t
  | h :: t, S i' => h :: write t i' v
  end.

(** [process] on the first channel: each sample is stored, and a full buffer
    is analysed and posted.  Returns the processor and the posted messages,
    oldest first. *)
Fixpoint process (samples : list float) (sampleRate : Z) (p : processor)
  : processor * list AudioAnalysisMessage :=
  match samples with
  | [] => (p, [])
  | s :: rest =>
      let buf := write (buffer p) (bufferIndex p) s in
      let idx := S (bufferIndex p) in
      if (bufferSize <=? idx)%nat then
        let '(p', out) :=
          process rest sampleRate {| buffer := buf; bufferIndex := 0 |} in
        (p', analyze buf sampleRate :: out)
      else process rest sampleRate {| buffer := buf; bufferIndex := idx |}
  end.

End Worklet.

(* ================================================================== *)
(** * The face worker ([workers/faceWorker.ts]) *)
(* ================================================================== *)

Module FaceWorker.
Import JS.
#[local] Open Scope float_scope.

(** A landmark; only [x] and [y] are read. *)
Record point := { px : float; py : float }.

(** [landmarks]: the detected face's keypoint array
    ([face.keypoints || face.scaledMesh || []]). *)
Definition landmarks := list point.

Definition LEFT_EYE_INDICES : list nat := [33; 160; 158; 133; 153; 144]%nat.
Definition RIGHT_EYE_INDICES : list nat := [362; 385; 387; 263; 373; 380]%nat.
Definition MOUTH_INDICES : list nat := [61; 291; 0; 17]%nat.
Definition NOSE_TIP : nat := 1.
Definition NOSE_BRIDGE : nat := 6.

(** [indices.map((i) => landmarks[i]).filter(Boolean)]: an index past the
    end reads [undefined], which the filter drops. *)
Definition pick (lm : landmarks) (indices : list nat) : list point :=
  flat_map (fun i => match nth_error lm i with Some p => [p] | None => [] end)
           indices.

Record gaze_sample := { gx : float; gy : float; gt : Z }.

(** The module-level variables of the worker. *)
Record state := {
  faceMesh : bool;              (* the detector is loaded (non-null) *)
  isInitialized : bool;
  blinkTimestamps : list Z;
  gazePositions : list gaze_sample;
  lastEyeAspectRatio : float;
  blinkCount : nat
}.

Definition initial : state :=
  {| faceMesh := false; isInitialized := false; blinkTimestamps := [];
     gazePositions := []; lastEyeAspectRatio := 1.0; blinkCount := 0 |}.

Record FaceAnalysisMessage := {
  yaw : float; pitch : float; blinkPerMin : nat; smile : float; gazeJitter : float
}.

(** The object returned when no face is found or the analysis throws. *)
Definition neutral : FaceAnalysisMessage :=
  {| yaw := 0; pitch := 0; blinkPerMin := 0; smile := 0; gazeJitter := 0 |}.

(** [Math.max] and [Math.min] on two numbers: [NaN] is contagious and [-0]
    is below [+0]. *)
Definition max (a b : float) : float :=
  if PrimFloat.is_nan a || PrimFloat.is_nan b then PrimFloat.nan
  else if a <? b then b else if b <? a then a
  else if PrimFloat.get_sign a then b else a.

Definition min (a b : float) : float :=
  if PrimFloat.is_nan a || PrimFloat.is_nan b then PrimFloat.nan
  else if a <? b then a else if b <? a then b
  else if PrimFloat.get_sign a then a else b.

(** [x ** 2], taken as the product [x * x]. *)
Definition sq (x : float) : float := x * x.

Definition distance (p1 p2 : point) : float :=
  PrimFloat.sqrt (sq (px p1 - px p2) + sq (py p1 - py p2)).

(** [calculateEAR]: (|p2-p6| + |p3-p5|) / (2 |p1-p4|), or 1.0 on fewer than
    six points. *)
Definition calculateEAR (eyePoints : list point) : float :=
  match eyePoints with
  | p0 :: p1 :: p2 :: p3 :: p4 :: p5 :: _ =>
      let vertical1 := distance p1 p5 in
      let vertical2 := distance p2 p4 in
      let horizontal := distance p0 p3 in
      (vertical1 + vertical2) / (2.0 * horizontal)
  | _ => 1.0
  end.

(** [calculateMAR]: mouth width over height, or 0 on fewer than four points. *)
Definition calculateMAR (mouthPoints : list point) : float :=
  match mouthPoints with
  | m0 :: m1 :: m2 :: m3 :: _ =>
      let width := PrimFloat.abs (px m0 - px m1) in
      let height := PrimFloat.abs (py m2 - py m3) in
      width / (height + 0.001)
  | _ => 0
  end.

(** [calculateHeadPose]: approximate yaw and pitch in degrees. *)
Definition calculateHeadPose (lm : landmarks) : float * float :=
  if (length lm <? 10)%nat then (0, 0)
  else
    match nth_error lm NOSE_TIP, nth_error lm NOSE_BRIDGE,
          nth_error lm 33, nth_error lm 362 with
    | Some noseTip, Some noseBridge, Some leftEye, Some rightEye =>
        let eyeCenterX := (px leftEye + px rightEye) / 2 in
        let yawRatio :=
          (px noseTip - eyeCenterX) / PrimFloat.abs (px leftEye - px rightEye) in
        let yaw := yawRatio * 45 in
        let pitchRatio :=
          (py noseTip - py noseBridge) / PrimFloat.abs (py leftEye - py noseTip) in
        let pitch := pitchRatio * 30 in
        (max (-90) (min 90 yaw), max (-45) (min 45 pitch))
    | _, _, _, _ => (0, 0)
    end.

(** [while (a.length > 0 && a[0] < cutoff) a.shift()]. *)
Fixpoint evict {A} (stamp : A -> Z) (cutoff : Z) (a : list A) : list A :=
  match a with
  | [] => []
  | h :: rest => if (stamp h <? cutoff)%Z then evict stamp cutoff rest else a
  end.

Definition BLINK_THRESHOLD : float := 0.25.
Definition BLINK_WINDOW_MS : Z := 60000.

(** The blink test of [updateBlinkRate]:
    [lastEyeAspectRatio > BLINK_THRESHOLD && ear <= BLINK_THRESHOLD]. *)
Definition down_crossing (last ear : float) : bool :=
  (BLINK_THRESHOLD <? last) && (ear <=? BLINK_THRESHOLD).

(** [updateBlinkRate]: returns the number of blinks in the last minute. *)
Definition updateBlinkRate (ear : float) (currentTime : Z) (s : state)
  : nat * state :=
  let blink := down_crossing (lastEyeAspectRatio s) ear in
  let count := if blink then S (blinkCount s) else blinkCount s in
  let stamps :=
    if blink then blinkTimestamps s ++ [currentTime] else blinkTimestamps s in
  let cutoff := (currentTime - BLINK_WINDOW_MS)%Z in
  let stamps := evict (fun t => t) cutoff stamps in
  (length stamps,
   {| faceMesh := faceMesh s; isInitialized := isInitialized s;
      blinkTimestamps := stamps; gazePositions := gazePositions s;
      lastEyeAspectRatio := ear; blinkCount := count |}).

Definition GAZE_WINDOW_MS : Z := 5000.

(** [calculateGazeJitter]: scaled standard deviation of the eye-centre
    positions of the last five seconds; pushes the current position. *)
Definition calculateGazeJitter (lm : landmarks) (currentTime : Z) (s : state)
  : float * state :=
  if (length lm <? 400)%nat then (0, s)
  else
    match nth_error lm 33, nth_error lm 362 with
    | Some leftEye, Some rightEye =>
        let eyeCenter :=
          {| gx := (px leftEye + px rightEye) / 2;
             gy := (py leftEye + py rightEye) / 2;
             gt := currentTime |} in
        let cutoff := (currentTime - GAZE_WINDOW_MS)%Z in
        let positions := evict gt cutoff (gazePositions s ++ [eyeCenter]) in
        let s' :=
          {| faceMesh := faceMesh s; isInitialized := isInitialized s;
             blinkTimestamps := blinkTimestamps s; gazePositions := positions;
             lastEyeAspectRatio := lastEyeAspectRatio s;
             blinkCount := blinkCount s |} in
        if (length positions <? 2)%nat then (0, s')
        else
          let n := float_of_nat (length positions) in
          let meanX := fold_left (fun sum p => sum + gx p) positions 0 / n in
          let meanY := fold_left (fun sum p => sum + gy p) positions 0 / n in
          let variance :=
            fold_left (fun sum p => sum + sq (gx p - meanX) + sq (gy p - meanY))
                      positions 0 / n in
          (PrimFloat.sqrt variance * 1000, s')
    | _, _ => (0, s)
    end.

(** What [faceMesh.estimateFaces] did for the frame. *)
Inductive detection :=
| DetectThrows                          (* the call rejects *)
| DetectNothing                         (* a null or undefined result *)
| DetectFaces (faces : list landmarks). (* the array of faces *)

(** The cycles in which no face is detected: [!faces || faces.length === 0]. *)
Definition no_face (d : detection) : bool :=
  match d with
  | DetectNothing | DetectFaces [] => true
  | _ => false
  end.

(** [analyzeFrame], with [Date.now()] and the detector's answer as inputs. *)
Definition analyzeFrame (d : detection) (currentTime : Z) (s : state)
  : outcome FaceAnalysisMessage * state :=
  if negb (isInitialized s) || negb (faceMesh s) then
    (Thrown "Face mesh not initialized", s)
  else
    match d with
    | DetectThrows => (Returned neutral, s)          (* the catch block *)
    | DetectNothing => (Returned neutral, s)
    | DetectFaces [] => (Returned neutral, s)
    | DetectFaces (lm :: _) =>
        let '(yaw, pitch) := calculateHeadPose lm in
        let leftEAR := calculateEAR (pick lm LEFT_EYE_INDICES) in
        let rightEAR := calculateEAR (pick lm RIGHT_EYE_INDICES) in
        let avgEAR := (leftEAR + rightEAR) / 2 in
        let '(blinkPerMin, s1) := updateBlinkRate avgEAR currentTime s in
        let mar := calculateMAR (pick lm MOUTH_INDICES) in
        let smile := min 1 (max 0 ((mar - 3) / 2)) in
        let '(gazeJitter, s2) := calculateGazeJitter lm currentTime s1 in
        (Returned {| yaw := yaw; pitch := pitch; blinkPerMin := blinkPerMin;
                     smile := smile; gazeJitter := gazeJitter |}, s2)
    end.

(** The worker after a successful ['init'] message. *)
Definition initialized : state :=
  {| faceMesh := true; isInitialized := true; blinkTimestamps := [];
     gazePositions := []; lastEyeAspectRatio := 1.0; blinkCount := 0 |}.

(** A run of analysis cycles; the posted results, oldest first. *)
Fixpoint cycles (frames : list (detection * Z)) (s : state)
  : list (outcome FaceAnalysisMessage) * state :=
  match frames with
  | [] => ([], s)
  | (d, t) :: rest =>
      let '(r, s1) := analyzeFrame d t s in
      let '(rs, s2) := cycles rest s1 in
      (r :: rs, s2)
  end.

(** *** Vocabulary for the blink properties *)

(** Consecutive calls of [updateBlinkRate], one per analysed frame, each
    with its average eye-aspect-ratio and clock reading. *)
Fixpoint blink_run (frames : list (float * Z)) (s : state) : state :=
  match frames with
  | [] => s
  | (ear, t) :: rest => blink_run rest (snd (updateBlinkRate ear t s))
  end.

(** Strictly above the threshold, and at or below it, in binary64 order. *)
Definition above (ear : float) : bool := 0.25 <? ear.
Definition at_or_below (ear : float) : bool := ear <=? 0.25.


(** *** Vocabulary for the no-face properties *)

(** A face of 468 landmarks looking at the camera, the eyes open or shut:
    eye corners 0.1 apart; the lids 0.06 apart when open, touching when
    shut. *)
Definition example_point (eyes_open : bool) (i : nat) : point :=
  let upper := if eyes_open then 0.37 else 0.4 in
  let lower := if eyes_open then 0.43 else 0.4 in
  let at_ (l : list nat) := existsb (Nat.eqb i) l in
  if at_ [33]%nat then {| px := 0.3; py := 0.4 |}
  else if at_ [133]%nat then {| px := 0.4; py := 0.4 |}
  else if at_ [362]%nat then {| px := 0.6; py := 0.4 |}
  else if at_ [263]%nat then {| px := 0.7; py := 0.4 |}
  else if at_ [160; 158; 385; 387]%nat then {| px := 0.5; py := upper |}
  else if at_ [153; 144; 373; 380]%nat then {| px := 0.5; py := lower |}
  else if at_ [1]%nat then {| px := 0.5; py := 0.6 |}
  else if at_ [6]%nat then {| px := 0.5; py := 0.45 |}
  else if at_ [61]%nat then {| px := 0.4; py := 0.8 |}
  else if at_ [291]%nat then {| px := 0.6; py := 0.8 |}
  else if at_ [0]%nat then {| px := 0.5; py := 0.78 |}
  else if at_ [17]%nat then {| px := 0.5; py := 0.82 |}
  else {| px := 0.5; py := 0.4 |}.

Definition example_face (eyes_open : bool) : landmarks :=
  map (example_point eyes_open) (seq 0 468).

(** The blinks-per-minute value that a cycle posts, if it posts a result. *)
Definition reported_blink_rate (r : outcome FaceAnalysisMessage) : option nat :=
  match r with
  | Returned m => Some (blinkPerMin m)
  | Thrown _ => None
  end.

End FaceWorker.

(* ================================================================== *)
(** * Configuration ([lib/analytics/config.ts]) *)
(* ================================================================== *)

Module CONFIG.
Import JS.

Definition METRICS_HZ : Z := 10.
Definition RMS_NOISE_FLOOR : float := 0.03%float.
Definition WPM_WINDOW_SEC : Z := 30.
Definition PAUSE_WINDOW_SEC : Z := 10.
Definition MAX_METRICS_BUFFER : Z := 18000.

Definition FILLER_WORDS : list js_string :=
  map str
    ["um"; "uh"; "er"; "ah"; "hmm";
     "like"; "kind of"; "sort of"; "you know"; "I mean";
     "actually"; "literally"; "basically"; "honestly"; "really";
     "you see"; "right"; "okay"; "so"; "well";
     "let me think"; "how do I say"; "the thing is"]%string.

(** [(text.match(FILLER_REGEX) || []).length]. *)
Definition count_fillers (text : js_string) : nat :=
  count_matches FILLER_WORDS None text 0.

End CONFIG.

(* ================================================================== *)
(** * The emotion classifier ([lib/analytics/goemotions.ts]) *)
(* ================================================================== *)

Module GoEmotions.
Import JS.

Record Emotion := { label : js_string; score : Q }.

(** The loaded text-classification pipeline: called on a text, it resolves
    with one entry per label or rejects. *)
Definition pipeline := js_string -> outcome (list Emotion).

(** What lies outside the module: whether a [window] exists, and what
    importing the library and building the pipeline yields. *)
Record world := { has_window : bool; load : outcome pipeline }.

(** What the module does to the model: a load, or a call of the pipeline;
    and what it writes to the console. *)
Inductive effect :=
| Load
| Invoke (text : js_string)
| ConsoleError (message : String.string).

(** The module-level variables [_pipePromise] and [_pipeReady]. *)
Record state := { pipePromise : option pipeline; pipeReady : bool }.

Definition uninitialized : state := {| pipePromise := None; pipeReady := false |}.

(** A call: its outcome, the new module state, and its effects in order. *)
Definition call (A : Type) : Type := outcome A * state * list effect.

(** [initGoEmotions]: the cached pipeline, or a load followed by the warm-up
    call [pipe('ok')]; a failed load clears the cache and rethrows. *)
Definition initGoEmotions (w : world) (s : state) : call pipeline :=
  match pipePromise s with
  | Some pipe => (Returned pipe, s, [])
  | None =>
      if negb (has_window w) then
        (Thrown "GoEmotions pipeline is browser-only", s, [])
      else
        match load w with
        | Thrown e => (Thrown e, uninitialized, [Load])
        | Returned pipe =>
            match pipe (str "ok") with
            | Thrown e => (Thrown e, uninitialized, [Load; Invoke (str "ok")])
            | Returned _ =>
                (Returned pipe, {| pipePromise := Some pipe; pipeReady := true |},
                 [Load; Invoke (str "ok")])
            end
        end
  end.

(** [a.score < b.score] on exact scores. *)
Definition Qltb (x y : Q) : bool := negb (Qle_bool y x).

(** [[...raw].sort((a, b) => b.score - a.score)]: the sort is stable, so
    entries come by decreasing score and, among equal scores, in their
    order in [raw]. *)
Fixpoint insert (x : Emotion) (l : list Emotion) : list Emotion :=
  match l with
  | [] => [x]
  | y :: rest => if Qltb (score x) (score y) then y :: insert x rest else x :: l
  end.

Definition sort_desc (raw : list Emotion) : list Emotion :=
  fold_right insert [] raw.

(** [picked.find((p) => p.label === emotion.label)], as a test. *)
Definition has_label (picked : list Emotion) (l : js_string) : bool :=
  existsb (fun p => string_eqb (label p) l) picked.

(** The two loops of [classifyGoEmotions] over the sorted scores. *)
Definition pick (raw : list Emotion) (threshold : Q) (topK : nat)
  : list Emotion :=
  let sorted := sort_desc raw in
  let picked := filter (fun e => Qle_bool threshold (score e)) sorted in
  fold_left
    (fun picked emotion =>
       if has_label picked (label emotion) then picked
       else picked ++ [emotion])
    (firstn (Nat.min topK (length sorted)) sorted)
    picked.

(** [classifyGoEmotions(text, threshold, topK)]. *)
Definition classifyGoEmotions (w : world) (text : js_string) (threshold : Q)
           (topK : nat) (s : state) : call (list Emotion) :=
  if blank text then (Returned [], s, [])
  else
    match initGoEmotions w s with
    | (Thrown e, s1, fx) => (Thrown e, s1, fx)
    | (Returned pipe, s1, fx) =>
        match pipe text with
        | Thrown e => (Thrown e, s1, fx ++ [Invoke text])
        | Returned raw =>
            (Returned (pick raw threshold topK), s1, fx ++ [Invoke text])
        end
    end.

(** The default threshold of [classifyEmotions]: the binary64 value that
    the literal [0.30] denotes. *)
Definition threshold_030 : Q := 5404319552844595 # 18014398509481984.

(** [classifyEmotions(text, threshold = 0.30)] of the controller module:
    a failure is logged and rethrown. *)
Definition classifyEmotions (w : world) (text : js_string) (threshold : Q)
           (s : state) : call (list Emotion) :=
  if blank text then (Returned [], s, [])
  else
    match classifyGoEmotions w text threshold 3 s with
    | (Thrown e, s1, fx) =>
        (Thrown e, s1, fx ++ [ConsoleError "[Emotion] Classification failed:"])
    | r => r
    end.

(** *** Vocabulary for the selection properties *)

(** [a] comes no later than [b] in decreasing order of score. *)
Definition no_lower (a b : Emotion) : Prop := (score b <= score a)%Q.

(** Scores for a sentence of praise: three labels clear the threshold. *)
Definition example_scores : list Emotion :=
  [{| label := str "neutral"; score := 0.05 |};
   {| label := str "love"; score := 0.62 |};
   {| label := str "joy"; score := 0.91 |};
   {| label := str "anger"; score := 0.01 |};
   {| label := str "pride"; score := 0.44 |}].

End GoEmotions.

(* ================================================================== *)
(** * The controller ([lib/analytics/analyticsController.ts]) *)
(* ================================================================== *)

(** The closure variables of [createAnalyticsController] are grouped by the
    operations that use them: the session data that the producer callbacks
    and the metrics tick work on ([Session]), and the lifecycle flag with
    the device handles that [stop] releases ([Teardown]). *)

Module Session.
Import JS.
Export GoEmotions (Emotion, label, score).

Definition TONE_HISTORY_SIZE : nat := 30.     (* "3 seconds at 10Hz" *)

Record MetricsEvent := {
  t : Z;
  wpm : option Z;
  pitch_hz : option float;
  rms : option float;
  pause_ratio : option float;
  fillers_per_min : float;
  head : option (float * float);               (* yaw, pitch *)
  gaze_jitter : option float;
  smile : option float;
  blink_per_min : option nat;
  transcript_partial : js_string;
  transcript_final : js_string;
  emotions : option (list Emotion)
}.

Record state := {
  startTime : Z;
  latestAudioData : option Worklet.AudioAnalysisMessage;   (* [{}] is [None] *)
  latestFaceData : option FaceWorker.FaceAnalysisMessage;
  transcriptFinal : js_string;
  transcriptInterim : js_string;
  wordTimestamps : list (js_string * Z);
  fillerCount : nat;
  pitchHistory : list float;
  rmsHistory : list float;
  wpmHistory : list Z;
  lastEmotions : list Emotion;
  allMetrics : list MetricsEvent
}.

(** The state that [start] leaves: everything reset, the clock read. *)
Definition started (now : Z) : state :=
  {| startTime := now; latestAudioData := None; latestFaceData := None;
     transcriptFinal := []; transcriptInterim := []; wordTimestamps := [];
     fillerCount := 0; pitchHistory := []; rmsHistory := []; wpmHistory := [];
     lastEmotions := []; allMetrics := [] |}.

(** [audioWorkletNode.port.onmessage]. *)
Definition onAudioMessage (m : Worklet.AudioAnalysisMessage) (s : state) : state :=
  {| startTime := startTime s; latestAudioData := Some m;
     latestFaceData := latestFaceData s; transcriptFinal := transcriptFinal s;
     transcriptInterim := transcriptInterim s;
     wordTimestamps := wordTimestamps s; fillerCount := fillerCount s;
     pitchHistory := pitchHistory s; rmsHistory := rmsHistory s;
     wpmHistory := wpmHistory s; lastEmotions := lastEmotions s;
     allMetrics := allMetrics s |}.

(** [faceWorker.onmessage], for an analysis result. *)
Definition onFaceMessage (m : FaceWorker.FaceAnalysisMessage) (s : state) : state :=
  {| startTime := startTime s; latestAudioData := latestAudioData s;
     latestFaceData := Some m; transcriptFinal := transcriptFinal s;
     transcriptInterim := transcriptInterim s;
     wordTimestamps := wordTimestamps s; fillerCount := fillerCount s;
     pitchHistory := pitchHistory s; rmsHistory := rmsHistory s;
     wpmHistory := wpmHistory s; lastEmotions := lastEmotions s;
     allMetrics := allMetrics s |}.

(** The [onInterim] callback. *)
Definition onInterim (text : js_string) (s : state) : state :=
  {| startTime := startTime s; latestAudioData := latestAudioData s;
     latestFaceData := latestFaceData s; transcriptFinal := transcriptFinal s;
     transcriptInterim := text;
     wordTimestamps := wordTimestamps s; fillerCount := fillerCount s;
     pitchHistory := pitchHistory s; rmsHistory := rmsHistory s;
     wpmHistory := wpmHistory s; lastEmotions := lastEmotions s;
     allMetrics := allMetrics s |}.

(** The words that [onFinal] records for a text: [text.trim().split(/\s+/)]. *)
Definition words_of (text : js_string) : list js_string := split_ws (trim text).

(** The [onFinal] callback at clock reading [now]; the classification it
    launches completes later, as [onEmotions]. *)
Definition onFinal (text : js_string) (now : Z) (s : state) : state :=
  {| startTime := startTime s; latestAudioData := latestAudioData s;
     latestFaceData := latestFaceData s;
     transcriptFinal :=
       transcriptFinal s
       ++ (match transcriptFinal s with [] => [] | _ => str " " end) ++ text;
     transcriptInterim := [];
     wordTimestamps :=
       wordTimestamps s ++ map (fun word => (word, now)) (words_of text);
     fillerCount := fillerCount s + CONFIG.count_fillers text;
     pitchHistory := pitchHistory s; rmsHistory := rmsHistory s;
     wpmHistory := wpmHistory s; lastEmotions := lastEmotions s;
     allMetrics := allMetrics s |}.

(** [classifyEmotions(text).then((emotions) => { lastEmotions = emotions })]. *)
Definition onEmotions (es : list Emotion) (s : state) : state :=
  {| startTime := startTime s; latestAudioData := latestAudioData s;
     latestFaceData := latestFaceData s; transcriptFinal := transcriptFinal s;
     transcriptInterim := transcriptInterim s;
     wordTimestamps := wordTimestamps s; fillerCount := fillerCount s;
     pitchHistory := pitchHistory s; rmsHistory := rmsHistory s;
     wpmHistory := wpmHistory s; lastEmotions := es;
     allMetrics := allMetrics s |}.

(** [Math.round] on an exact value: the nearest integer, halves upwards. *)
Definition round (q : Q) : Z := Qfloor (q + (1 # 2)).

(** [calculateWPM]: drops the words older than the window and scales the
    count of the others to a minute.  The quotient and the product are taken
    exactly; their binary64 roundings stay far inside the half unit that
    [Math.round] absorbs. *)
Definition calculateWPM (now : Z) (words : list (js_string * Z))
  : Z * list (js_string * Z) :=
  let windowMs := CONFIG.WPM_WINDOW_SEC * 1000 in
  let cutoff := now - windowMs in
  let kept := filter (fun w => cutoff <=? snd w) words in
  match kept with
  | [] => (0, kept)
  | _ =>
      (round (inject_Z (Z.of_nat (length kept))
              / inject_Z CONFIG.WPM_WINDOW_SEC * 60), kept)
  end.

(** [calculatePauseRatio]. *)
Definition calculatePauseRatio (rmsHistory : list float) : float :=
  match rmsHistory with
  | [] => 0%float
  | _ =>
      let threshold := (CONFIG.RMS_NOISE_FLOOR * 2)%float in
      let pauses :=
        length (filter (fun rms => (rms <? threshold)%float) rmsHistory) in
      (float_of_nat pauses / float_of_nat (length rmsHistory))%float
  end.

(** [calculateFillersPerMin]. *)
Definition calculateFillersPerMin (now : Z) (s : state) : float :=
  let elapsedMin := (float_of_Z (now - startTime s) / 60000)%float in
  if (elapsedMin =? 0)%float then 0%float
  else (float_of_nat (fillerCount s) / elapsedMin)%float.

(** [if (h.length > TONE_HISTORY_SIZE) h.shift()]. *)
Definition shift_over {A} (cap : nat) (h : list A) : list A :=
  if (cap <? length h)%nat then tl h else h.

(** [publishMetrics] at clock reading [now]; [asr] is [asrService.available].
    Returns the event handed to [metricsBus.publish]. *)
Definition publishMetrics (asr : bool) (now : Z) (s : state)
  : MetricsEvent * state :=
  let t := now - startTime s in
  let '(currentWpm, words) :=
    if asr then calculateWPM now (wordTimestamps s)
    else (0, wordTimestamps s) in
  let currentPitch := or_zero (option_map Worklet.pitch (latestAudioData s)) in
  let currentRms := or_zero (option_map Worklet.rms (latestAudioData s)) in
  let pitchHistory := shift_over TONE_HISTORY_SIZE (pitchHistory s ++ [currentPitch]) in
  let rmsHistory := shift_over TONE_HISTORY_SIZE (rmsHistory s ++ [currentRms]) in
  let wpmHistory := shift_over TONE_HISTORY_SIZE (wpmHistory s ++ [currentWpm]) in
  let event :=
    {| t := t;
       wpm := if asr then Some currentWpm else None;
       pitch_hz :=
         match option_map Worklet.pitch (latestAudioData s) with
         | Some p => if truthy p && (0 <? p)%float then Some p else None
         | None => None
         end;
       rms := option_map Worklet.rms (latestAudioData s);
       pause_ratio :=
         if (0 <? length rmsHistory)%nat
         then Some (calculatePauseRatio rmsHistory) else None;
       fillers_per_min := calculateFillersPerMin now s;
       head :=
         match latestFaceData s with
         | Some f =>
             Some (FaceWorker.yaw f, or_zero (Some (FaceWorker.pitch f)))
         | None => None
         end;
       gaze_jitter := option_map FaceWorker.gazeJitter (latestFaceData s);
       smile := option_map FaceWorker.smile (latestFaceData s);
       blink_per_min := option_map FaceWorker.blinkPerMin (latestFaceData s);
       transcript_partial := transcriptInterim s;
       transcript_final := transcriptFinal s;
       emotions :=
         match lastEmotions s with [] => None | es => Some es end |} in
  let all := allMetrics s ++ [event] in
  let all :=
    if CONFIG.MAX_METRICS_BUFFER <? Z.of_nat (length all) then tl all else all in
  (event,
   {| startTime := startTime s; latestAudioData := latestAudioData s;
      latestFaceData := latestFaceData s; transcriptFinal := transcriptFinal s;
      transcriptInterim := transcriptInterim s;
      wordTimestamps := words; fillerCount := fillerCount s;
      pitchHistory := pitchHistory; rmsHistory := rmsHistory;
      wpmHistory := wpmHistory; lastEmotions := lastEmotions s;
      allMetrics := all |}).

(** What happens to a running session: the producers' callbacks and the
    metrics timer, each with the clock reading it takes. *)
Inductive input :=
| AudioMessage (m : Worklet.AudioAnalysisMessage)
| FaceMessage (m : FaceWorker.FaceAnalysisMessage)
| Interim (text : js_string)
| Final (text : js_string) (now : Z)
| Emotions (es : list Emotion)
| Tick (now : Z).

Definition step (asr : bool) (i : input) (s : state)
  : list MetricsEvent * state :=
  match i with
  | AudioMessage m => ([], onAudioMessage m s)
  | FaceMessage m => ([], onFaceMessage m s)
  | Interim text => ([], onInterim text s)
  | Final text now => ([], onFinal text now s)
  | Emotions es => ([], onEmotions es s)
  | Tick now => let '(e, s') := publishMetrics asr now s in ([e], s')
  end.

(** A session: the published events, oldest first, and the final state. *)
Fixpoint run (asr : bool) (inputs : list input) (s : state)
  : list MetricsEvent * state :=
  match inputs with
  | [] => ([], s)
  | i :: rest =>
      let '(es, s1) := step asr i s in
      let '(es', s2) := run asr rest s1 in
      (es ++ es', s2)
  end.

(** *** Vocabulary for the session properties *)

(** The last [n] entries of a list, in order. *)
Definition keep_last {A} (n : nat) (l : list A) : list A :=
  skipn (length l - n) l.

(** The loudness samples of a session: at each tick, the clock reading and
    the value [latestAudioData.rms || 0] that the tick takes. *)
Fixpoint tick_samples (asr : bool) (inputs : list input) (s : state)
  : list (Z * float) :=
  match inputs with
  | [] => []
  | Tick now :: rest =>
      (now, or_zero (option_map Worklet.rms (latestAudioData s)))
      :: tick_samples asr rest (snd (step asr (Tick now) s))
  | i :: rest => tick_samples asr rest (snd (step asr i s))
  end.

(** The fraction of a list of loudness values that lies below twice the
    noise floor; no value for an empty list. *)
Definition fraction_below_threshold (values : list float) : option float :=
  match values with
  | [] => None
  | _ =>
      Some (float_of_nat
              (length (filter (fun v => (v <? CONFIG.RMS_NOISE_FLOOR * 2)%float)
                              values))
            / float_of_nat (length values))%float
  end.

(** The pause ratio as the specification words it: over the samples of the
    trailing window of [CONFIG.PAUSE_WINDOW_SEC] seconds. *)
Definition pause_ratio_trailing_window (samples : list (Z * float)) (now : Z)
  : option float :=
  fraction_below_threshold
    (map snd
         (filter (fun s => now - CONFIG.PAUSE_WINDOW_SEC * 1000 <=? fst s)
                 samples)).

(** The entries that the [onFinal] callbacks of a session push on
    [wordTimestamps], in order: for each final text the pieces of
    [text.trim().split(/\s+/)], each with the clock reading of the callback.
    This is the code's record, not the words finalised: a final text that is
    empty or all white space contributes one entry, for the empty string. *)
Fixpoint recorded_words (inputs : list input) : list (js_string * Z) :=
  match inputs with
  | [] => []
  | Final text now :: rest =>
      map (fun word => (word, now)) (words_of text) ++ recorded_words rest
  | _ :: rest => recorded_words rest
  end.

(** The finalised words of a session as the specification words them:
    every word of every final transcript, with the time of its arrival.  A
    final transcript without a word finalises none. *)
Fixpoint finalized_words (inputs : list input) : list (js_string * Z) :=
  match inputs with
  | [] => []
  | Final text now :: rest =>
      map (fun word => (word, now)) (runs text []) ++ finalized_words rest
  | _ :: rest => finalized_words rest
  end.

(** The clock readings of a session, in the order they are taken. *)
Fixpoint clock_readings (inputs : list input) : list Z :=
  match inputs with
  | [] => []
  | Final _ now :: rest | Tick now :: rest => now :: clock_readings rest
  | _ :: rest => clock_readings rest
  end.

(** Whether a time stamp lies in the trailing window of
    [CONFIG.WPM_WINDOW_SEC] seconds that ends at [now]. *)
Definition in_wpm_window (now : Z) (w : js_string * Z) : bool :=
  (now - CONFIG.WPM_WINDOW_SEC * 1000 <=? snd w) && (snd w <=? now).

(** The speaking rate as the specification words it: the count of the
    finalised words whose time stamp lies in the trailing window, times
    60 over the window's seconds. *)
Definition speaking_rate_trailing_window (inputs : list input) (now : Z) : Z :=
  Z.of_nat (length (filter (in_wpm_window now) (finalized_words inputs)))
  * (60 / CONFIG.WPM_WINDOW_SEC).

(** The final transcripts of a session that hold no word, as the entries
    that [onFinal] records for them. *)
Fixpoint blank_finals (inputs : list input) : list (js_string * Z) :=
  match inputs with
  | [] => []
  | Final text now :: rest =>
      (if blank text then [([], now)] else []) ++ blank_finals rest
  | _ :: rest => blank_finals rest
  end.

(** Two words are finalised; one second later the recognizer delivers a
    final result whose transcript is empty. *)
Definition words_then_empty_final : list input :=
  [Final (str "hello world") 1000; Final (str "") 2000].

(** Ten ticks per second with one audio message before each: a silent
    message, then thirty loud ones. *)
Definition silence_then_speech : list input :=
  AudioMessage {| Worklet.rms := 0; Worklet.pitch := 0 |} :: Tick 100
  :: flat_map
       (fun k => [AudioMessage {| Worklet.rms := 0.5; Worklet.pitch := 220 |};
                  Tick (100 * Z.of_nat k)])
       (seq 2 30).

End Session.

Module Teardown.
Import JS.

Inductive recorder_state := Inactive | Recording | Paused.

(** [asrService]: the lazy singleton and the flag of its [ASRService]. *)
Record asr_service := {
  asrInstance : bool;           (* [asrServiceInstance] is non-null *)
  recognition : bool;           (* its [recognition] is non-null *)
  asrRunning : bool             (* its [isRunning] *)
}.

(** The lifecycle variables and the handles that [stop] releases.  A handle
    is [true] or [Some _] while the variable holds an object. *)
Record handles := {
  isRunning : bool;
  endTime : Z;
  metricsIntervalId : option Z;
  asr : asr_service;
  faceLoopId : option Z;
  faceWorker : bool;
  audioWorkletNode : bool;
  audioContext : bool;
  mediaRecorder : option recorder_state;
  stream : option nat;          (* the stream, with its number of tracks *)
  videoElement : option bool    (* the element; whether [srcObject] is set *)
}.

(** The calls that [stop] makes on objects outside the controller. *)
Inductive call :=
| ClearInterval          (* clearInterval(metricsIntervalId) *)
| RecognitionStop        (* recognition.stop(), inside asrService.stop() *)
| CancelAnimationFrame   (* cancelAnimationFrame(faceLoopId) *)
| WorkerTerminate        (* faceWorker.terminate() *)
| NodeDisconnect         (* audioWorkletNode.disconnect() *)
| ContextClose           (* await audioContext.close() *)
| RecorderStop           (* mediaRecorder.stop() *)
| TrackStop (i : nat)    (* track.stop() on the i-th track *)
| VideoDetach            (* videoElement.srcObject = null *)
| DispatchStopped.       (* window.dispatchEvent(new Event('creao:stopped')) *)

Definition call_eqb (a b : call) : bool :=
  match a, b with
  | ClearInterval, ClearInterval | RecognitionStop, RecognitionStop
  | CancelAnimationFrame, CancelAnimationFrame
  | WorkerTerminate, WorkerTerminate | NodeDisconnect, NodeDisconnect
  | ContextClose, ContextClose | RecorderStop, RecorderStop
  | VideoDetach, VideoDetach | DispatchStopped, DispatchStopped => true
  | TrackStop i, TrackStop j => Nat.eqb i j
  | _, _ => false
  end.

(** The environment: which of these calls raise an error. *)
Definition environment := call -> bool.

Inductive console_line :=
| ConsoleWarn (message : String.string)
| ConsoleLog (message : String.string).

(** The controller's variables, the calls completed so far and the console. *)
Record machine := {
  vars : handles;
  performed : list call;
  console : list console_line
}.

(** Code that may throw, over the machine. *)
Definition M (A : Type) : Type := machine -> outcome A * machine.

Definition ret {A} (a : A) : M A := fun m => (Returned a, m).

Definition bind {A B} (c : M A) (k : A -> M B) : M B :=
  fun m =>
    match c m with
    | (Returned a, m') => k a m'
    | (Thrown e, m') => (Thrown e, m')
    end.

Notation "c1 ;; c2" := (bind c1 (fun _ => c2))
  (at level 61, right associativity).

(** [try { c } catch (e) { handler }]. *)
Definition try_catch (c : M unit) (handler : M unit) : M unit :=
  fun m =>
    match c m with
    | (Returned a, m') => (Returned a, m')
    | (Thrown _, m') => handler m'
    end.

Definition external (env : environment) (c : call) : M unit :=
  fun m =>
    if env c then (Thrown "error raised by the call", m)
    else (Returned tt,
          {| vars := vars m; performed := performed m ++ [c];
             console := console m |}).

Definition write_console (l : console_line) : M unit :=
  fun m =>
    (Returned tt,
     {| vars := vars m; performed := performed m; console := console m ++ [l] |}).

Definition assign (f : handles -> handles) : M unit :=
  fun m =>
    (Returned tt,
     {| vars := f (vars m); performed := performed m; console := console m |}).

(** [if (test) { body }], the test read from the current variables. *)
Definition when (test : handles -> bool) (body : M unit) : M unit :=
  fun m => if test (vars m) then body m else (Returned tt, m).

Fixpoint for_each {A} (l : list A) (body : A -> M unit) : M unit :=
  match l with
  | [] => ret tt
  | a :: rest => body a ;; for_each rest body
  end.

Definition is_some {A} (o : option A) : bool :=
  match o with Some _ => true | None => false end.

(** Assignments to the variables. *)
Definition set_isRunning (b : bool) (h : handles) : handles :=
  {| isRunning := b; endTime := endTime h;
     metricsIntervalId := metricsIntervalId h; asr := asr h;
     faceLoopId := faceLoopId h; faceWorker := faceWorker h;
     audioWorkletNode := audioWorkletNode h; audioContext := audioContext h;
     mediaRecorder := mediaRecorder h; stream := stream h;
     videoElement := videoElement h |}.

Definition set_endTime (now : Z) (h : handles) : handles :=
  {| isRunning := isRunning h; endTime := now;
     metricsIntervalId := metricsIntervalId h; asr := asr h;
     faceLoopId := faceLoopId h; faceWorker := faceWorker h;
     audioWorkletNode := audioWorkletNode h; audioContext := audioContext h;
     mediaRecorder := mediaRecorder h; stream := stream h;
     videoElement := videoElement h |}.

Definition clear_metricsIntervalId (h : handles) : handles :=
  {| isRunning := isRunning h; endTime := endTime h;
     metricsIntervalId := None; asr := asr h;
     faceLoopId := faceLoopId h; faceWorker := faceWorker h;
     audioWorkletNode := audioWorkletNode h; audioContext := audioContext h;
     mediaRecorder := mediaRecorder h; stream := stream h;
     videoElement := videoElement h |}.

Definition clear_asrRunning (h : handles) : handles :=
  {| isRunning := isRunning h; endTime := endTime h;
     metricsIntervalId := metricsIntervalId h;
     asr := {| asrInstance := asrInstance (asr h);
               recognition := recognition (asr h); asrRunning := false |};
     faceLoopId := faceLoopId h; faceWorker := faceWorker h;
     audioWorkletNode := audioWorkletNode h; audioContext := audioContext h;
     mediaRecorder := mediaRecorder h; stream := stream h;
     videoElement := videoElement h |}.

Definition clear_faceLoopId (h : handles) : handles :=
  {| isRunning := isRunning h; endTime := endTime h;
     metricsIntervalId := metricsIntervalId h; asr := asr h;
     faceLoopId := None; faceWorker := faceWorker h;
     audioWorkletNode := audioWorkletNode h; audioContext := audioContext h;
     mediaRecorder := mediaRecorder h; stream := stream h;
     videoElement := videoElement h |}.

Definition clear_faceWorker (h : handles) : handles :=
  {| isRunning := isRunning h; endTime := endTime h;
     metricsIntervalId := metricsIntervalId h; asr := asr h;
     faceLoopId := faceLoopId h; faceWorker := false;
     audioWorkletNode := audioWorkletNode h; audioContext := audioContext h;
     mediaRecorder := mediaRecorder h; stream := stream h;
     videoElement := videoElement h |}.

Definition clear_audioWorkletNode (h : handles) : handles :=
  {| isRunning := isRunning h; endTime := endTime h;
     metricsIntervalId := metricsIntervalId h; asr := asr h;
     faceLoopId := faceLoopId h; faceWorker := faceWorker h;
     audioWorkletNode := false; audioContext := audioContext h;
     mediaRecorder := mediaRecorder h; stream := stream h;
     videoElement := videoElement h |}.

Definition clear_audioContext (h : handles) : handles :=
  {| isRunning := isRunning h; endTime := endTime h;
     metricsIntervalId := metricsIntervalId h; asr := asr h;
     faceLoopId := faceLoopId h; faceWorker := faceWorker h;
     audioWorkletNode := audioWorkletNode h; audioContext := false;
     mediaRecorder := mediaRecorder h; stream := stream h;
     videoElement := videoElement h |}.

(** The recorder's own transition on [stop()]. *)
Definition recorder_inactive (h : handles) : handles :=
  {| isRunning := isRunning h; endTime := endTime h;
     metricsIntervalId := metricsIntervalId h; asr := asr h;
     faceLoopId := faceLoopId h; faceWorker := faceWorker h;
     audioWorkletNode := audioWorkletNode h; audioContext := audioContext h;
     mediaRecorder := option_map (fun _ => Inactive) (mediaRecorder h);
     stream := stream h; videoElement := videoElement h |}.

Definition clear_stream (h : handles) : handles :=
  {| isRunning := isRunning h; endTime := endTime h;
     metricsIntervalId := metricsIntervalId h; asr := asr h;
     faceLoopId := faceLoopId h; faceWorker := faceWorker h;
     audioWorkletNode := audioWorkletNode h; audioContext := audioContext h;
     mediaRecorder := mediaRecorder h; stream := None;
     videoElement := videoElement h |}.

Definition detach_video (h : handles) : handles :=
  {| isRunning := isRunning h; endTime := endTime h;
     metricsIntervalId := metricsIntervalId h; asr := asr h;
     faceLoopId := faceLoopId h; faceWorker := faceWorker h;
     audioWorkletNode := audioWorkletNode h; audioContext := audioContext h;
     mediaRecorder := mediaRecorder h; stream := stream h;
     videoElement := option_map (fun _ => false) (videoElement h) |}.

(** [asrService.stop()]: the only teardown call wrapped in [try]/[catch]. *)
Definition asrService_stop (env : environment) : M unit :=
  when (fun h => asrInstance (asr h))
    (when (fun h => recognition (asr h) && asrRunning (asr h))
       (assign clear_asrRunning ;;
        try_catch (external env RecognitionStop)
                  (write_console (ConsoleWarn "ASR stop error:")))).

Definition recording (h : handles) : bool :=
  match mediaRecorder h with
  | Some Inactive | None => false
  | Some _ => true
  end.

Definition tracks (h : handles) : list nat :=
  match stream h with Some n => seq 0 n | None => [] end.

(** The steps of [stop()] after its guard, with [Date.now()] as input.  The
    code runs in the browser, where [window] is defined. *)
Definition teardown (env : environment) (now : Z) : M unit :=
  assign (set_isRunning false) ;;
  assign (set_endTime now) ;;
  when (fun h => is_some (metricsIntervalId h))
    (external env ClearInterval ;; assign clear_metricsIntervalId) ;;
  asrService_stop env ;;
  when (fun h => is_some (faceLoopId h))
    (external env CancelAnimationFrame ;; assign clear_faceLoopId) ;;
  when faceWorker
    (external env WorkerTerminate ;; assign clear_faceWorker) ;;
  when audioWorkletNode
    (external env NodeDisconnect ;; assign clear_audioWorkletNode) ;;
  when audioContext
    (external env ContextClose ;; assign clear_audioContext) ;;
  when recording
    (external env RecorderStop ;; assign recorder_inactive) ;;
  when (fun h => is_some (stream h))
    (fun m =>
       (for_each (tracks (vars m)) (fun i => external env (TrackStop i)) ;;
        assign clear_stream) m) ;;
  when (fun h => is_some (videoElement h))
    (external env VideoDetach ;; assign detach_video) ;;
  external env DispatchStopped ;;
  write_console (ConsoleLog "Analytics controller stopped").

(** [stop()]: nothing to do when the controller neither runs nor holds a
    stream ([if (!isRunning && !stream) return]). *)
Definition stop (env : environment) (now : Z) : M unit :=
  fun m =>
    if negb (isRunning (vars m)) && negb (is_some (stream (vars m)))
    then (Returned tt, m)
    else teardown env now m.

(** *** Vocabulary for the teardown properties *)

(** The environment in which no call raises. *)
Definition no_errors : environment := fun _ => false.


(** Every handle is released: the timer and the face loop are cancelled,
    the worker, the audio node and context and the stream are dropped, the
    recognizer and the recorder no longer run, the video sink is detached. *)
Definition released (h : handles) : Prop :=
  isRunning h = false
  /\ metricsIntervalId h = None
  /\ asrInstance (asr h) && recognition (asr h) && asrRunning (asr h) = false
  /\ faceLoopId h = None
  /\ faceWorker h = false
  /\ audioWorkletNode h = false
  /\ audioContext h = false
  /\ recording h = false
  /\ stream h = None
  /\ videoElement h <> Some true.

(** A running session that holds every handle, with two media tracks. *)
Definition running_session : machine :=
  {| vars :=
       {| isRunning := true; endTime := 0; metricsIntervalId := Some 7;
          asr := {| asrInstance := true; recognition := true;
                    asrRunning := true |};
          faceLoopId := Some 3; faceWorker := true; audioWorkletNode := true;
          audioContext := true; mediaRecorder := Some Recording;
          stream := Some 2%nat; videoElement := Some true |};
     performed := []; console := [] |}.



(** Partial correctness of a step: from a machine where [P] holds, if the
    step returns then [Q] holds. *)
Definition triple (P : machine -> Prop) (c : M unit) (Q : machine -> Prop) : Prop :=
  forall m, P m ->
    match c m with
    | (Returned _, m') => Q m'
    | (Thrown _, _) => True
    end.

End Teardown.

(* ================================================================== *)
(** * Further vocabulary *)
(* ================================================================== *)

Module Ranges.
#[local] Open Scope float_scope.

(** A number is [NaN] or lies between two bounds, in binary64 order. *)
Definition in_range (lo hi x : float) : Prop :=
  PrimFloat.is_nan x = true \/ (lo <=? x) && (x <=? hi) = true.

End Ranges.

Module BlinkWindow.
Import JS FaceWorker.

(** The clock readings of the frames at which [updateBlinkRate] sees a
    transition from strictly above the threshold to at or below it, the
    first frame being compared with [previous]. *)
Fixpoint blink_times (previous : float) (frames : list (float * Z)) : list Z :=
  match frames with
  | [] => []
  | (ear, t) :: rest =>
      (if above previous && at_or_below ear then [t] else [])
      ++ blink_times ear rest
  end.

End BlinkWindow.

Module ClassifierSessions.
Import JS GoEmotions.

(** Successive calls of [classifyEmotions], each awaited before the next,
    each in the world it meets: the final module state and all effects. *)
Fixpoint classify_all (calls : list (world * js_string)) (threshold : Q)
         (s : state) : state * list effect :=
  match calls with
  | [] => (s, [])
  | (w, text) :: rest =>
      let '(_, s1, fx) := classifyEmotions w text threshold s in
      let '(s2, fx') := classify_all rest threshold s1 in
      (s2, fx ++ fx')
  end.

Definition is_load (e : effect) : bool :=
  match e with Load => true | _ => false end.

(** The number of times the model was loaded. *)
Definition loads (fx : list effect) : nat := length (filter is_load fx).

(** Whether a pipeline is cached ([_pipePromise] is set). *)
Definition cached (s : state) : bool :=
  match pipePromise s with Some _ => true | None => false end.

End ClassifierSessions.

(** *** Vocabulary for repeated stops *)

Module StopInvariants.
Import JS Teardown.

(** A property of the variables that a step keeps whether it returns or
    throws. *)
Definition always (P : handles -> Prop) (c : M unit) : Prop :=
  forall m, P (vars m) -> P (vars (snd (c m))).

End StopInvariants.

(** *** The transcript section of [getMetricsSummary], and words *)

Module Words.
Import JS Session.

(** [w.length > 0]. *)
Definition nonempty (w : js_string) : bool := (0 <? length w)%nat.

Record transcript_summary := { full_text : js_string; word_count : nat }.

(** The [transcript] field of [getMetricsSummary()]:
    [{ full_text: transcriptFinal,
       word_count: transcriptFinal.split(/\s+/).filter(w => w.length > 0).length }]. *)
Definition summary_transcript (s : state) : transcript_summary :=
  {| full_text := transcriptFinal s;
     word_count := length (filter nonempty (split_ws (transcriptFinal s))) |}.

(** No unit of the word is white space. *)
Definition space_free (w : js_string) : bool :=
  forallb (fun c => negb (is_space c)) w.

(** Two optional units, or two texts, that differ in letter case only. *)
Definition same_unit (a b : option code_unit) : Prop :=
  option_map fold_case a = option_map fold_case b.

Definition same_text (a b : js_string) : Prop :=
  map fold_case a = map fold_case b.

End Words.

(* ================================================================== *)
(** * The metrics hook ([hooks/useMetrics.ts]) *)
(* ================================================================== *)

(** The subscriber that [useMetrics] registers on the metrics bus, over the
    hook's refs and state.  Its events are the controller's, so
    [fillers_per_min] is always present. *)

Module Hook.
Import JS.
Export Session (MetricsEvent).

Definition CHART_BUFFER_SEC : Z := 30.          (* [CONFIG.CHART_BUFFER_SEC] *)

Record MetricDataPoint := { pt : Z; pv : float }.

(** The debug line of the pause detection, its numbers unformatted. *)
Record pause_log := {
  currentRMS : float;
  threshold : float;
  pauseCount : nat;
  totalSamples : nat;
  pauseRatio : float
}.

Record state := {
  latest : option MetricsEvent;
  wpmData : list MetricDataPoint;
  pitchData : list MetricDataPoint;
  rmsData : list MetricDataPoint;
  pauseData : list MetricDataPoint;
  fillersData : list MetricDataPoint;
  blinkData : list MetricDataPoint;
  gazeData : list MetricDataPoint;
  smileData : list MetricDataPoint;
  headYawData : list MetricDataPoint;
  headPitchData : list MetricDataPoint;
  rmsHistory : list float;
  updateTrigger : nat;
  console : list pause_log
}.

(** The hook as mounted: no event yet, every buffer empty. *)
Definition mounted : state :=
  {| latest := None; wpmData := []; pitchData := []; rmsData := [];
     pauseData := []; fillersData := []; blinkData := []; gazeData := [];
     smileData := []; headYawData := []; headPitchData := [];
     rmsHistory := []; updateTrigger := 0; console := [] |}.

(** [while (buffer.length > 0 && buffer[0].t < cutoff) buffer.shift()]. *)
Fixpoint trim_old (cutoff : Z) (buffer : list MetricDataPoint)
  : list MetricDataPoint :=
  match buffer with
  | p :: rest => if pt p <? cutoff then trim_old cutoff rest else buffer
  | [] => []
  end.

(** [addPoint], for the event stamp [t] and the cutoff of this call. *)
Definition addPoint (t cutoff : Z) (buffer : list MetricDataPoint)
           (value : option float) : list MetricDataPoint :=
  match value with
  | Some v =>
      if PrimFloat.is_nan v then buffer
      else trim_old cutoff (buffer ++ [{| pt := t; pv := v |}])
  | None => buffer
  end.

(** [a.slice(-n)] for a positive [n]. *)
Definition slice_last {A} (n : nat) (a : list A) : list A :=
  skipn (length a - n) a.

(** The subscriber, on an event; [now] is its [Date.now()] and [random]
    its [Math.random()]. *)
Definition onEvent (now : Z) (random : float) (event : MetricsEvent) (s : state)
  : state :=
  let cutoff := now - CHART_BUFFER_SEC * 1000 in
  let add := addPoint (Session.t event) cutoff in
  let wpmData' := add (wpmData s) (option_map float_of_Z (Session.wpm event)) in
  let pitchData' := add (pitchData s) (Session.pitch_hz event) in
  let rmsData' := add (rmsData s) (Session.rms event) in
  let fillersData' := add (fillersData s) (Some (Session.fillers_per_min event)) in
  let blinkData' :=
    add (blinkData s) (option_map float_of_nat (Session.blink_per_min event)) in
  let gazeData' := add (gazeData s) (Session.gaze_jitter event) in
  let smileData' :=
    add (smileData s)
        (match Session.smile event with
         | Some x => if truthy x then Some (x * 100)%float else None
         | None => None
         end) in
  let '(headYawData', headPitchData') :=
    match Session.head event with
    | Some (yaw, pitch) =>
        (add (headYawData s) (Some yaw), add (headPitchData s) (Some pitch))
    | None => (headYawData s, headPitchData s)
    end in
  let '(rmsHistory', pauseData', console') :=
    match Session.rms event with
    | Some rms =>
        let pushed := rmsHistory s ++ [rms] in
        let maxSamples := CONFIG.PAUSE_WINDOW_SEC * CONFIG.METRICS_HZ in
        let history :=
          if maxSamples <? Z.of_nat (length pushed)
          then slice_last (Z.to_nat maxSamples) pushed else pushed in
        let threshold := (CONFIG.RMS_NOISE_FLOOR * 20)%float in
        let pauses := length (filter (fun r => (r <? threshold)%float) history) in
        let pauseRatio :=
          if (0 <? length history)%nat
          then (float_of_nat pauses / float_of_nat (length history))%float
          else 0%float in
        (history,
         add (pauseData s) (Some pauseRatio),
         if (random <? 0.01)%float
         then console s
              ++ [{| currentRMS := rms; threshold := threshold;
                     pauseCount := pauses; totalSamples := length history;
                     pauseRatio := pauseRatio |}]
         else console s)
    | None => (rmsHistory s, pauseData s, console s)
    end in
  {| latest := Some event;
     wpmData := wpmData'; pitchData := pitchData'; rmsData := rmsData';
     pauseData := pauseData'; fillersData := fillersData';
     blinkData := blinkData'; gazeData := gazeData'; smileData := smileData';
     headYawData := headYawData'; headPitchData := headPitchData';
     rmsHistory := rmsHistory';
     updateTrigger :=
       if (length wpmData' mod 10 =? 0)%nat then S (updateTrigger s)
       else updateTrigger s;
     console := console' |}.

(** An event as it reaches the subscriber. *)
Record delivery := { clock : Z; random : float; event : MetricsEvent }.

(** The subscriber over the events of a session, oldest first. *)
Fixpoint deliver (ds : list delivery) (s : state) : state :=
  match ds with
  | [] => s
  | d :: rest => deliver rest (onEvent (clock d) (random d) (event d) s)
  end.

(** *** Vocabulary for the hook's properties *)

(** The chart buffers that the hook returns. *)
Definition charts (s : state) : list (list MetricDataPoint) :=
  [wpmData s; pitchData s; rmsData s; pauseData s; fillersData s;
   blinkData s; gazeData s; smileData s; headYawData s; headPitchData s].

(** The loudness values that the delivered events carry, oldest first. *)
Definition loudness (ds : list delivery) : list float :=
  flat_map (fun d => match Session.rms (event d) with
                     | Some r => [r]
                     | None => []
                     end) ds.

(** A delivery of the snapshot that the controller publishes at the tick
    reading [tick]: the subscriber reads its clock no earlier. *)
Definition delivered_from (asr : bool) (tick now : Z) (random : float)
           (s : Session.state) : delivery :=
  {| clock := now; random := random;
     event := fst (Session.publishMetrics asr tick s) |}.

End Hook.

(* ================================================================== *)
(** * The metrics bus ([lib/analytics/metricsBus.ts]) *)
(* ================================================================== *)

(** A callback is known to the bus by its identity.  What a callback does
    when it is called is given from outside: the calls it makes on the bus
    itself, and whether it ends by throwing.  (A callback that publishes from
    inside a delivery is not covered.) *)

Module MetricsBus.
Import JS.
Export Session (MetricsEvent).

Definition subscriber := nat.

Inductive action :=
| Subscribe (cb : subscriber)
| Unsubscribe (cb : subscriber)
| Clear.

Record reaction := { actions : list action; throws : bool }.

Definition behaviour := subscriber -> MetricsEvent -> reaction.

(** A [Set] of callbacks: its entries in insertion order; a deleted entry
    leaves an empty slot, which iteration skips. *)
Definition set := list (option subscriber).

Definition holds (cb : subscriber) (o : option subscriber) : bool :=
  match o with Some c => Nat.eqb c cb | None => false end.

Definition has (cb : subscriber) (s : set) : bool := existsb (holds cb) s.

Definition add (cb : subscriber) (s : set) : set :=
  if has cb s then s else s ++ [Some cb].

Definition delete (cb : subscriber) (s : set) : set :=
  map (fun o => if holds cb o then None else o) s.

Definition clear_set (s : set) : set := map (fun _ => None) s.

Definition values (s : set) : list subscriber :=
  flat_map (fun o => match o with Some c => [c] | None => [] end) s.

Definition size (s : set) : nat := length (values s).

(** The bus, the calls received by the callbacks and the console. *)
Record store := {
  subscribers : set;
  received : list (subscriber * MetricsEvent);
  console : list String.string
}.

(** Code that may throw, or run out of the steps allowed to it ([None]). *)
Definition M (A : Type) : Type := store -> option (outcome A * store).

Definition ret {A} (a : A) : M A := fun st => Some (Returned a, st).

Definition bind {A B} (c : M A) (k : A -> M B) : M B :=
  fun st =>
    match c st with
    | Some (Returned a, st') => k a st'
    | Some (Thrown e, st') => Some (Thrown e, st')
    | None => None
    end.

Definition try_catch (c : M unit) (handler : M unit) : M unit :=
  fun st =>
    match c st with
    | Some (Returned a, st') => Some (Returned a, st')
    | Some (Thrown _, st') => handler st'
    | None => None
    end.

Definition update (f : set -> set) : M unit :=
  fun st =>
    Some (Returned tt,
          {| subscribers := f (subscribers st); received := received st;
             console := console st |}).

(** [subscribe(callback)]; the function it returns is [unsubscribe callback]. *)
Definition subscribe (cb : subscriber) : M unit := update (add cb).
Definition unsubscribe (cb : subscriber) : M unit := update (delete cb).

(** [clear()] and [count]. *)
Definition clear : M unit := update clear_set.
Definition count (st : store) : nat := size (subscribers st).

Definition perform (a : action) : M unit :=
  match a with
  | Subscribe cb => subscribe cb
  | Unsubscribe cb => unsubscribe cb
  | Clear => clear
  end.

Fixpoint perform_all (l : list action) : M unit :=
  match l with
  | [] => ret tt
  | a :: rest => bind (perform a) (fun _ => perform_all rest)
  end.

(** The call [subscriber(event)]. *)
Definition call (b : behaviour) (cb : subscriber) (event : MetricsEvent) : M unit :=
  bind (fun st =>
          Some (Returned tt,
                {| subscribers := subscribers st;
                   received := received st ++ [(cb, event)];
                   console := console st |}))
       (fun _ =>
          bind (perform_all (actions (b cb event)))
               (fun _ st =>
                  if throws (b cb event)
                  then Some (Thrown "error raised by the subscriber", st)
                  else Some (Returned tt, st))).

Definition console_error (message : String.string) : M unit :=
  fun st =>
    Some (Returned tt,
          {| subscribers := subscribers st; received := received st;
             console := console st ++ [message] |}).

(** [Set.prototype.forEach]: the entries are visited by position in the
    live set, so an entry added during the iteration is visited and one
    deleted before its turn is not.  [steps] bounds the positions visited. *)
Fixpoint forEach (steps : nat) (position : nat) (body : subscriber -> M unit)
  : M unit :=
  fun st =>
    match nth_error (subscribers st) position with
    | None => Some (Returned tt, st)
    | Some entry =>
        match steps with
        | O => None
        | S steps' =>
            bind (match entry with
                  | Some cb => body cb
                  | None => ret tt
                  end)
                 (fun _ => forEach steps' (S position) body) st
        end
    end.

(** [publish(event)]. *)
Definition publish (steps : nat) (b : behaviour) (event : MetricsEvent) : M unit :=
  forEach steps 0
          (fun cb =>
             try_catch (call b cb event)
                       (console_error "Metrics subscriber error:")).

(** *** Vocabulary for the bus properties *)

(** The callbacks subscribed. *)
Definition subscribed (st : store) : list subscriber := values (subscribers st).

(** A callback that, on this event, makes no call on the bus. *)
Definition passive (b : behaviour) (event : MetricsEvent) (cb : subscriber) : Prop :=
  actions (b cb event) = [].

(** The store after the callbacks [cbs] have received [event] in turn, each
    error caught and logged. *)
Definition delivered (b : behaviour) (event : MetricsEvent)
           (cbs : list subscriber) (st : store) : store :=
  {| subscribers := subscribers st;
     received := received st ++ map (fun cb => (cb, event)) cbs;
     console :=
       console st
       ++ map (fun _ => "Metrics subscriber error:"%string)
              (filter (fun cb => throws (b cb event)) cbs) |}.

End MetricsBus.

(* ================================================================== *)
(** * Speech recognition ([lib/analytics/asr.ts]) *)
(* ================================================================== *)

(** The [ASRService] class over a browser recognizer.  The recognizer is
    outside the program: each call of its [start()] or [stop()] may raise,
    as an oracle tells for the n-th call made. *)

Module ASR.
Import JS.

Inductive request := RecognizerStart | RecognizerStop.

(** The error, if any, that the n-th call on the recognizer raises. *)
Definition oracle := nat -> option String.string.

(** [ASRCallbacks]: which of the optional callbacks are given. *)
Record callbacks := { onInterim : bool; onFinal : bool; onError : bool }.

Inductive callback_call :=
| Interim (text : js_string)
| Final (text : js_string)
| Failure (message : String.string).

Record service := {
  recognition : bool;                 (* [recognition] is non-null *)
  isRunning : bool;
  available : bool;
  handlers : option callbacks         (* [onresult], [onerror], [onend] are set,
                                         over these callbacks *)
}.

(** The service, the calls made on the recognizer (with whether each
    raised), the callbacks called and the console. *)
Record world := {
  self : service;
  requests : list (request * bool);
  called : list callback_call;
  console : list String.string
}.

(** [new ASRService()]; [supported] tells whether the browser has
    [SpeechRecognition] or [webkitSpeechRecognition]. *)
Definition constructed (supported : bool) : service :=
  {| recognition := supported; isRunning := false; available := supported;
     handlers := None |}.

Definition M (A : Type) : Type := world -> outcome A * world.

Definition ret {A} (a : A) : M A := fun w => (Returned a, w).

Definition bind {A B} (c : M A) (k : A -> M B) : M B :=
  fun w =>
    match c w with
    | (Returned a, w') => k a w'
    | (Thrown e, w') => (Thrown e, w')
    end.

Notation "c1 ;; c2" := (bind c1 (fun _ => c2))
  (at level 61, right associativity).

(** [try { c } catch (error) { handler error }]. *)
Definition try_catch (c : M unit) (handler : String.string -> M unit) : M unit :=
  fun w =>
    match c w with
    | (Returned a, w') => (Returned a, w')
    | (Thrown e, w') => handler e w'
    end.

(** A call on the recognizer. *)
Definition request_of (o : oracle) (r : request) : M unit :=
  fun w =>
    match o (length (requests w)) with
    | Some e =>
        (Thrown e,
         {| self := self w; requests := requests w ++ [(r, true)];
            called := called w; console := console w |})
    | None =>
        (Returned tt,
         {| self := self w; requests := requests w ++ [(r, false)];
            called := called w; console := console w |})
    end.

Definition set_self (f : service -> service) : M unit :=
  fun w =>
    (Returned tt,
     {| self := f (self w); requests := requests w; called := called w;
        console := console w |}).

Definition set_isRunning (b : bool) (s : service) : service :=
  {| recognition := recognition s; isRunning := b; available := available s;
     handlers := handlers s |}.

Definition set_handlers (cbs : callbacks) (s : service) : service :=
  {| recognition := recognition s; isRunning := isRunning s;
     available := available s; handlers := Some cbs |}.

(** [callbacks.onX?.(argument)]. *)
Definition invoke (given : bool) (c : callback_call) : M unit :=
  fun w =>
    (Returned tt,
     if given
     then {| self := self w; requests := requests w;
             called := called w ++ [c]; console := console w |}
     else w).

Definition console_warn (message : String.string) : M unit :=
  fun w =>
    (Returned tt,
     {| self := self w; requests := requests w; called := called w;
        console := console w ++ [message] |}).

Definition when (test : service -> bool) (body : M unit) : M unit :=
  fun w => if test (self w) then body w else (Returned tt, w).

(** [stop()]. *)
Definition stop (o : oracle) : M unit :=
  when (fun s => recognition s && isRunning s)
       (set_self (set_isRunning false) ;;
        try_catch (request_of o RecognizerStop)
                  (fun _ => console_warn "ASR stop error:")).

(** [start(callbacks)]. *)
Definition start (o : oracle) (cbs : callbacks) : M unit :=
  fun w =>
    if negb (available (self w)) || negb (recognition (self w))
    then invoke (onError cbs) (Failure "Web Speech API not available") w
    else
      (when isRunning (stop o) ;;
       set_self (set_handlers cbs) ;;
       try_catch (request_of o RecognizerStart ;; set_self (set_isRunning true))
                 (fun error =>
                    invoke (onError cbs)
                           (Failure ("Failed to start ASR: " ++ error)))) w.

(** A result of the recognizer: its first alternative's transcript, and
    whether the result is final. *)
Record result := { transcript : js_string; isFinal : bool }.

Fixpoint for_each {A} (l : list A) (body : A -> M unit) : M unit :=
  match l with
  | [] => ret tt
  | a :: rest => body a ;; for_each rest body
  end.

(** The [onresult] handler set by [start(callbacks)]. *)
Definition onresult (cbs : callbacks) (resultIndex : nat) (results : list result)
  : M unit :=
  for_each (skipn resultIndex results)
           (fun r =>
              if isFinal r then invoke (onFinal cbs) (Final (transcript r))
              else invoke (onInterim cbs) (Interim (transcript r))).

(** The [onerror] handler. *)
Definition onerror (cbs : callbacks) (error : String.string) : M unit :=
  if String.eqb error "no-speech" then ret tt
  else invoke (onError cbs) (Failure error).

(** The [onend] handler. *)
Definition onend (o : oracle) : M unit :=
  when isRunning
       (try_catch (request_of o RecognizerStart)
                  (fun _ => console_warn "ASR restart failed:")).

(** What happens to the service: calls of its methods, and events of the
    recognizer, which reach the handlers once these are set. *)
Inductive op :=
| Start (cbs : callbacks)
| Stop
| ResultEvent (resultIndex : nat) (results : list result)
| ErrorEvent (error : String.string)
| EndEvent.

Definition event (handler : callbacks -> M unit) : M unit :=
  fun w =>
    match handlers (self w) with
    | Some cbs => handler cbs w
    | None => (Returned tt, w)
    end.

Definition step (o : oracle) (x : op) : M unit :=
  match x with
  | Start cbs => start o cbs
  | Stop => stop o
  | ResultEvent i results => event (fun cbs => onresult cbs i results)
  | ErrorEvent error => event (fun cbs => onerror cbs error)
  | EndEvent => event (fun _ => onend o)
  end.

Definition run (o : oracle) (ops : list op) : M unit := for_each ops (step o).

(** *** Vocabulary for the recognition properties *)

Definition is_event (x : op) : bool :=
  match x with Start _ | Stop => false | _ => true end.

Definition is_end (x : op) : bool :=
  match x with EndEvent => true | _ => false end.

Definition new_service (supported : bool) : world :=
  {| self := constructed supported; requests := []; called := [];
     console := [] |}.

End ASR.

(* ================================================================== *)
(** * Scores ([lib/analytics/scoring.ts]) *)
(* ================================================================== *)

Module Scoring.
Import JS.
Export Session (MetricsEvent).
#[local] Open Scope float_scope.

(** [Math.max] on two numbers, as in the face worker. *)
Definition max := FaceWorker.max.

Definition scoreWPM (wpm : float) : float :=
  if wpm <? 80 then max 0 (wpm / 80 * 0.5)
  else if 200 <? wpm then max 0 (1 - (wpm - 200) / 100)
  else 0.5 + ((wpm - 80) / 120) * 0.5.

Definition scorePause (pauseRatio : float) : float :=
  let ideal := 0.2 in
  let deviation := PrimFloat.abs (pauseRatio - ideal) in
  max 0 (1 - deviation / ideal).

Definition scoreFillers (fillersPerMin : float) : float :=
  max 0 (1 - fillersPerMin / 10).

Definition scoreBlink (blinkPerMin : float) : float :=
  let ideal := 17.5 in
  let deviation := PrimFloat.abs (blinkPerMin - ideal) in
  max 0 (1 - deviation / 20).

Definition scoreGaze (gazeJitter : float) : float :=
  max 0 (1 - gazeJitter / 50).

Definition scoreHeadPose (yaw pitch : float) : float :=
  let totalDeviation := PrimFloat.abs yaw + PrimFloat.abs pitch in
  max 0 (1 - totalDeviation / 60).

Definition scoreSmile (smile : float) : float :=
  if smile <? 0.3 then smile / 0.3 * 0.7
  else if 0.7 <? smile then max 0 (1 - (smile - 0.7) / 0.3 * 0.3)
  else 0.7 + (smile - 0.3) / 0.4 * 0.3.

Record scores := {
  wpm : float;
  pause : float;
  fillers : float;
  blink : float;
  gaze : float;
  headPose : float;
  smile : float;
  overall : float
}.

(** [scoreDelivery]: a missing measurement scores 0.5.  The filler rate is
    present in every event of the controller (a missing one would score 1). *)
Definition scoreDelivery (m : MetricsEvent) : scores :=
  let wpm :=
    match Session.wpm m with Some w => scoreWPM (float_of_Z w) | None => 0.5 end in
  let pause :=
    match Session.pause_ratio m with Some r => scorePause r | None => 0.5 end in
  let fillers := scoreFillers (Session.fillers_per_min m) in
  let blink :=
    match Session.blink_per_min m with
    | Some b => scoreBlink (float_of_nat b)
    | None => 0.5
    end in
  let gaze :=
    match Session.gaze_jitter m with Some g => scoreGaze g | None => 0.5 end in
  let headPose :=
    match Session.head m with
    | Some (yaw, pitch) => scoreHeadPose yaw pitch
    | None => 0.5
    end in
  let smile :=
    match Session.smile m with Some s => scoreSmile s | None => 0.5 end in
  {| wpm := wpm; pause := pause; fillers := fillers; blink := blink;
     gaze := gaze; headPose := headPose; smile := smile;
     overall :=
       wpm * 0.25 + pause * 0.15 + fillers * 0.2 + blink * 0.1
       + gaze * 0.15 + headPose * 0.1 + smile * 0.05 |}.

(** *** Vocabulary *)

(** A number is [NaN] or not below zero. *)
Definition not_negative (x : float) : Prop :=
  PrimFloat.is_nan x = true \/ (0 <=? x) = true.

End Scoring.

(* ================================================================== *)
(** * Starting the controller ([analyticsController.ts], [start]) *)
(* ================================================================== *)

(** [start()] with the set-up functions it calls, over the variables that
    [stop()] releases and the session data.  The calls that acquire devices
    and objects are outside the controller; each may raise. *)

Module Startup.
Import JS Teardown.

(** The calls that [start()] makes on objects outside the controller. *)
Inductive acquisition :=
| GetUserMedia           (* await navigator.mediaDevices.getUserMedia(...) *)
| VideoPlay              (* await videoEl.play() *)
| NewMediaStream         (* new MediaStream([audioTrack]) *)
| NewAudioContext        (* new AudioContext(...) *)
| AddModule              (* await audioContext.audioWorklet.addModule(...) *)
| NewWorkletNode         (* new AudioWorkletNode(...) *)
| CreateSource           (* audioContext.createMediaStreamSource(...) *)
| ConnectSource          (* source.connect(audioWorkletNode) *)
| ConnectNode            (* audioWorkletNode.connect(audioContext.destination) *)
| NewWorker              (* new Worker(...) *)
| WorkerInit             (* the awaited promise of the worker's initialisation:
                            rejected on an error message or after 30 seconds *)
| RequestFrame           (* requestAnimationFrame(captureFrame) *)
| RecognitionStart       (* recognition.start(), inside asrService.start() *)
| NewRecorder            (* new MediaRecorder(...) *)
| RecorderStart          (* mediaRecorder.start(1000) *)
| SetInterval            (* window.setInterval(publishMetrics, ...) *)
| DispatchStarted.       (* window.dispatchEvent(new Event('creao:started')) *)

(** The browser as [start()] meets it: the error, if any, that each call
    raises; the tracks of the stream granted and whether one is an audio
    track; whether speech recognition exists; the identifiers handed out. *)
Record world := {
  raises : acquisition -> option String.string;
  granted : nat;
  audio_track : bool;
  speech_supported : bool;
  interval_id : Z;
  frame_id : Z
}.

(** [StartOptions], as far as they steer [start()]. *)
Record options := { videoEl : bool; canvasEl : bool; useASR : bool }.

(** [start()] called without options: [useASR] defaults to true. *)
Definition default_options : options :=
  {| videoEl := false; canvasEl := false; useASR := true |}.

(** The controller: the variables of [Teardown] with the calls and console
    lines of [stop()], the session data, and the calls and console lines of
    [start()]. *)
Record controller := {
  lifecycle : machine;
  session : Session.state;
  canvasElement : bool;
  acquired : list acquisition;
  startup_console : list String.string
}.

Definition M (A : Type) : Type := controller -> outcome A * controller.

Definition ret {A} (a : A) : M A := fun k => (Returned a, k).

Definition throw {A} (e : String.string) : M A := fun k => (Thrown e, k).

Definition bind {A B} (c : M A) (f : A -> M B) : M B :=
  fun k =>
    match c k with
    | (Returned a, k') => f a k'
    | (Thrown e, k') => (Thrown e, k')
    end.

Declare Scope startup_scope.
Delimit Scope startup_scope with startup.
Notation "c1 ;; c2" := (bind c1 (fun _ => c2))
  (at level 61, right associativity) : startup_scope.
#[local] Open Scope startup_scope.

(** [try { c } catch (error) { handler error }]. *)
Definition try_catch (c : M unit) (handler : String.string -> M unit) : M unit :=
  fun k =>
    match c k with
    | (Returned a, k') => (Returned a, k')
    | (Thrown e, k') => handler e k'
    end.

(** Code of [Teardown] run on the controller. *)
Definition lift (c : Teardown.M unit) : M unit :=
  fun k =>
    let '(r, m) := c (lifecycle k) in
    (r, {| lifecycle := m; session := session k;
           canvasElement := canvasElement k; acquired := acquired k;
           startup_console := startup_console k |}).

Definition set (f : handles -> handles) : M unit := lift (assign f).

Definition acquire (w : world) (a : acquisition) : M unit :=
  fun k =>
    match raises w a with
    | Some e => (Thrown e, k)
    | None =>
        (Returned tt,
         {| lifecycle := lifecycle k; session := session k;
            canvasElement := canvasElement k; acquired := acquired k ++ [a];
            startup_console := startup_console k |})
    end.

Definition write (line : String.string) : M unit :=
  fun k =>
    (Returned tt,
     {| lifecycle := lifecycle k; session := session k;
        canvasElement := canvasElement k; acquired := acquired k;
        startup_console := startup_console k ++ [line] |}).

Definition set_session (f : Session.state -> Session.state) : M unit :=
  fun k =>
    (Returned tt,
     {| lifecycle := lifecycle k; session := f (session k);
        canvasElement := canvasElement k; acquired := acquired k;
        startup_console := startup_console k |}).

Definition set_canvas : M unit :=
  fun k =>
    (Returned tt,
     {| lifecycle := lifecycle k; session := session k;
        canvasElement := true; acquired := acquired k;
        startup_console := startup_console k |}).

(** [if (test) { body }], the test read from the current variables. *)
Definition when (test : handles -> bool) (body : M unit) : M unit :=
  fun k => if test (vars (lifecycle k)) then body k else (Returned tt, k).

(** [if (test) { yes } else { no }]. *)
Definition branch (test : handles -> bool) (yes no : M unit) : M unit :=
  fun k => if test (vars (lifecycle k)) then yes k else no k.

(** [if (option) { body }], for an option of the call. *)
Definition if_option (given : bool) (body : M unit) : M unit :=
  if given then body else ret tt.

(** Assignments to the variables. *)
Definition set_stream (n : nat) (h : handles) : handles :=
  {| isRunning := isRunning h; endTime := endTime h;
     metricsIntervalId := metricsIntervalId h; asr := asr h;
     faceLoopId := faceLoopId h; faceWorker := faceWorker h;
     audioWorkletNode := audioWorkletNode h; audioContext := audioContext h;
     mediaRecorder := mediaRecorder h; stream := Some n;
     videoElement := videoElement h |}.

(** [videoElement = videoEl; videoEl.srcObject = stream]. *)
Definition attach_video (h : handles) : handles :=
  {| isRunning := isRunning h; endTime := endTime h;
     metricsIntervalId := metricsIntervalId h; asr := asr h;
     faceLoopId := faceLoopId h; faceWorker := faceWorker h;
     audioWorkletNode := audioWorkletNode h; audioContext := audioContext h;
     mediaRecorder := mediaRecorder h; stream := stream h;
     videoElement := Some true |}.

Definition set_audioContext (h : handles) : handles :=
  {| isRunning := isRunning h; endTime := endTime h;
     metricsIntervalId := metricsIntervalId h; asr := asr h;
     faceLoopId := faceLoopId h; faceWorker := faceWorker h;
     audioWorkletNode := audioWorkletNode h; audioContext := true;
     mediaRecorder := mediaRecorder h; stream := stream h;
     videoElement := videoElement h |}.

Definition set_audioWorkletNode (h : handles) : handles :=
  {| isRunning := isRunning h; endTime := endTime h;
     metricsIntervalId := metricsIntervalId h; asr := asr h;
     faceLoopId := faceLoopId h; faceWorker := faceWorker h;
     audioWorkletNode := true; audioContext := audioContext h;
     mediaRecorder := mediaRecorder h; stream := stream h;
     videoElement := videoElement h |}.

Definition set_faceWorker (h : handles) : handles :=
  {| isRunning := isRunning h; endTime := endTime h;
     metricsIntervalId := metricsIntervalId h; asr := asr h;
     faceLoopId := faceLoopId h; faceWorker := true;
     audioWorkletNode := audioWorkletNode h; audioContext := audioContext h;
     mediaRecorder := mediaRecorder h; stream := stream h;
     videoElement := videoElement h |}.

Definition set_faceLoopId (id : Z) (h : handles) : handles :=
  {| isRunning := isRunning h; endTime := endTime h;
     metricsIntervalId := metricsIntervalId h; asr := asr h;
     faceLoopId := Some id; faceWorker := faceWorker h;
     audioWorkletNode := audioWorkletNode h; audioContext := audioContext h;
     mediaRecorder := mediaRecorder h; stream := stream h;
     videoElement := videoElement h |}.

Definition set_asr (a : asr_service) (h : handles) : handles :=
  {| isRunning := isRunning h; endTime := endTime h;
     metricsIntervalId := metricsIntervalId h; asr := a;
     faceLoopId := faceLoopId h; faceWorker := faceWorker h;
     audioWorkletNode := audioWorkletNode h; audioContext := audioContext h;
     mediaRecorder := mediaRecorder h; stream := stream h;
     videoElement := videoElement h |}.

Definition set_mediaRecorder (r : recorder_state) (h : handles) : handles :=
  {| isRunning := isRunning h; endTime := endTime h;
     metricsIntervalId := metricsIntervalId h; asr := asr h;
     faceLoopId := faceLoopId h; faceWorker := faceWorker h;
     audioWorkletNode := audioWorkletNode h; audioContext := audioContext h;
     mediaRecorder := Some r; stream := stream h;
     videoElement := videoElement h |}.

Definition set_metricsIntervalId (id : Z) (h : handles) : handles :=
  {| isRunning := isRunning h; endTime := endTime h;
     metricsIntervalId := Some id; asr := asr h;
     faceLoopId := faceLoopId h; faceWorker := faceWorker h;
     audioWorkletNode := audioWorkletNode h; audioContext := audioContext h;
     mediaRecorder := mediaRecorder h; stream := stream h;
     videoElement := videoElement h |}.

(** [setupAudioPipeline]. *)
Definition setupAudioPipeline (w : world) : M unit :=
  acquire w NewAudioContext ;;
  set set_audioContext ;;
  try_catch (acquire w AddModule)
            (fun error => write "Failed to load audio worklet:" ;; throw error) ;;
  acquire w NewWorkletNode ;;
  set set_audioWorkletNode ;;
  acquire w CreateSource ;;
  acquire w ConnectSource ;;
  acquire w ConnectNode.

(** [setupFacePipeline]. *)
Definition setupFacePipeline (w : world) : M unit :=
  acquire w NewWorker ;;
  set set_faceWorker ;;
  acquire w WorkerInit ;;
  acquire w RequestFrame ;;
  set (set_faceLoopId (frame_id w)).

(** The getter [asrService.available], which creates the service on its
    first use. *)
Definition asrService_available (w : world) : M unit :=
  when (fun h => negb (asrInstance (asr h)))
       (set (set_asr {| asrInstance := true;
                        recognition := speech_supported w;
                        asrRunning := false |})).

(** [asrService.start(callbacks)] with the service's [start] and [stop],
    the callbacks being the controller's; its [onError] writes a warning. *)
Definition asrService_start (w : world) (env : environment) : M unit :=
  asrService_available w ;;
  when (fun h => negb (recognition (asr h)))
       (write "ASR error: Web Speech API not available") ;;
  when (fun h => recognition (asr h))
       (lift (asrService_stop env) ;;
        try_catch (acquire w RecognitionStart ;;
                   set (fun h => set_asr {| asrInstance := asrInstance (asr h);
                                            recognition := recognition (asr h);
                                            asrRunning := true |} h))
                  (fun error => write ("ASR error: Failed to start ASR: " ++ error))).

(** [setupASR]. *)
Definition setupASR (w : world) (env : environment) : M unit :=
  asrService_available w ;;
  branch (fun h => recognition (asr h))
         (asrService_start w env)
         (write "ASR not available, will use syllable-based WPM fallback").

(** [setupRecorder]. *)
Definition setupRecorder (w : world) : M unit :=
  acquire w NewRecorder ;;
  set (set_mediaRecorder Inactive) ;;
  acquire w RecorderStart ;;
  set (set_mediaRecorder Recording).

(** The statements of [start()] that follow the assignment of the stream. *)
Definition with_stream (w : world) (env : environment) (opts : options)
           (now : Z) : M unit :=
  if_option (videoEl opts) (set attach_video ;; acquire w VideoPlay) ;;
  if_option (canvasEl opts) set_canvas ;;
  if_option (audio_track w) (acquire w NewMediaStream ;; setupAudioPipeline w) ;;
  when (fun h => is_some (videoElement h)) (setupFacePipeline w) ;;
  if_option (useASR opts) (setupASR w env) ;;
  setupRecorder w ;;
  acquire w SetInterval ;;
  set (set_metricsIntervalId (interval_id w)) ;;
  set (set_isRunning true) ;;
  set_session (fun s =>
                 {| Session.startTime := now;
                    Session.latestAudioData := Session.latestAudioData s;
                    Session.latestFaceData := Session.latestFaceData s;
                    Session.transcriptFinal := Session.transcriptFinal s;
                    Session.transcriptInterim := Session.transcriptInterim s;
                    Session.wordTimestamps := Session.wordTimestamps s;
                    Session.fillerCount := Session.fillerCount s;
                    Session.pitchHistory := Session.pitchHistory s;
                    Session.rmsHistory := Session.rmsHistory s;
                    Session.wpmHistory := Session.wpmHistory s;
                    Session.lastEmotions := Session.lastEmotions s;
                    Session.allMetrics := Session.allMetrics s |}) ;;
  acquire w DispatchStarted ;;
  write "Analytics controller started".

(** The statements of [start()] inside its [try]. *)
Definition start_body (w : world) (env : environment) (opts : options)
           (now : Z) : M unit :=
  acquire w GetUserMedia ;;
  set (set_stream (granted w)) ;;
  with_stream w env opts now.

(** [start(opts)]; [now] is the clock reading it takes when it succeeds,
    [stopped] the one that [stop()] takes when it fails.  [env] tells which
    calls of [stop()] raise. *)
Definition start (w : world) (env : environment) (opts : options)
           (now stopped : Z) : M unit :=
  fun k =>
    if isRunning (vars (lifecycle k)) then (Thrown "Already running", k)
    else
      (set_session (fun s => Session.started (Session.startTime s)) ;;
       try_catch (start_body w env opts now)
                 (fun error => lift (stop env stopped) ;; throw error)) k.

(** *** Vocabulary for the start-up properties *)


(** A property of the variables and the session data that a step keeps
    however it ends. *)
Definition inv (I : handles -> Session.state -> Prop) (c : M unit) : Prop :=
  forall k,
    I (vars (lifecycle k)) (session k) ->
    I (vars (lifecycle (snd (c k)))) (session (snd (c k))).

(** Partial correctness of a step: from a controller where [P] holds, if
    the step returns then [Q] holds. *)
Definition triple (P : controller -> Prop) (c : M unit) (Q : controller -> Prop)
  : Prop :=
  forall k, P k ->
    match c k with
    | (Returned _, k') => Q k'
    | (Thrown _, _) => True
    end.


(** A controller that has never been started. *)
Definition fresh : controller :=
  {| lifecycle :=
       {| vars :=
            {| isRunning := false; endTime := 0; metricsIntervalId := None;
               asr := {| asrInstance := false; recognition := false;
                         asrRunning := false |};
               faceLoopId := None; faceWorker := false;
               audioWorkletNode := false; audioContext := false;
               mediaRecorder := None; stream := None; videoElement := None |};
          performed := []; console := [] |};
     session := Session.started 0;
     canvasElement := false; acquired := []; startup_console := [] |}.

Definition code (a : acquisition) : nat :=
  match a with
  | GetUserMedia => 0 | VideoPlay => 1 | NewMediaStream => 2
  | NewAudioContext => 3 | AddModule => 4 | NewWorkletNode => 5
  | CreateSource => 6 | ConnectSource => 7 | ConnectNode => 8
  | NewWorker => 9 | WorkerInit => 10 | RequestFrame => 11
  | RecognitionStart => 12 | NewRecorder => 13 | RecorderStart => 14
  | SetInterval => 15 | DispatchStarted => 16
  end.

(** A browser in which every call works but the one given, with a stream
    of two tracks, one of them audio, and speech recognition. *)
Definition browser (failing : option acquisition) (error : String.string) : world :=
  {| raises :=
       fun a =>
         match failing with
         | Some b => if Nat.eqb (code a) (code b) then Some error else None
         | None => None
         end;
     granted := 2; audio_track := true; speech_supported := true;
     interval_id := 7; frame_id := 3 |}.

End Startup.

(* ================================================================== *)
(** * Properties *)
(* ================================================================== *)

(** ** Silent frames *)

Section SilentFrame.
Import JS Worklet.
#[local] Open Scope float_scope.

Lemma sum_squares_zero (l : list float) :
  Forall is_zero l -> fold_left (fun sum s => sum + s * s) l 0 = 0.
Proof.
  induction 1 as [|x l [-> | ->] _ IH]; simpl; auto.
Qed.

Lemma corr_loop_zero (xs : list float) :
  Forall is_zero xs ->
  forall ys, Forall is_zero ys -> corr_loop xs ys 0 = 0.
Proof.
  induction 1 as [|x xs Hx _ IH]; intros ys Hys; [reflexivity|].
  destruct Hys as [|y ys Hy Hys]; [reflexivity|]. simpl.
  destruct Hx as [-> | ->], Hy as [-> | ->]; apply IH; assumption.
Qed.

Lemma Forall_skipn {A} (P : A -> Prop) (n : nat) (l : list A) :
  Forall P l -> Forall P (skipn n l).
Proof.
  revert l; induction n as [|n IH]; intros l H; [exact H|].
  destruct H; simpl; auto.
Qed.

Lemma pitch_loop_zero (samples : list float) (periods : list nat) :
  Forall is_zero samples ->
  fold_left (pitch_step samples) periods (0, 0%nat) = (0, 0%nat).
Proof.
  intros Hz. induction periods as [|p ps IH]; [reflexivity|].
  simpl. unfold pitch_step at 2, autocorr.
  rewrite corr_loop_zero by auto using Forall_skipn. exact IH.
Qed.

(** C5.  For a 50 ms frame whose samples are all zero (of either sign),
    the worklet reports RMS 0 and pitch 0, at every sample rate. *)
Theorem silent_frame_rms_pitch_zero (samples : list float) (sampleRate : Z) :
  length samples = bufferSize ->
  Forall is_zero samples ->
  analyze samples sampleRate = {| rms := 0; pitch := 0 |}.
Proof.
  intros Hlen Hz. unfold analyze, computeRMS, computePitch.
  rewrite pitch_loop_zero, sum_squares_zero, Hlen by assumption.
  reflexivity.
Qed.

Lemma all_zero_repeat (n : nat) : Forall is_zero (repeat PrimFloat.zero n).
Proof. induction n; simpl; constructor; [left; reflexivity | assumption]. Qed.

Lemma silent_frame_rms_pitch_zero_witness :
  analyze (repeat PrimFloat.zero 2400) 48000 = {| rms := 0; pitch := 0 |}.
Proof.
  apply (silent_frame_rms_pitch_zero (repeat PrimFloat.zero 2400) 48000);
    [reflexivity | apply all_zero_repeat].
Defined.

(** The same through [process]: 50 ms of silence at 48 kHz, fed to a new
    processor, posts exactly one message, RMS 0 and pitch 0. *)
Example silent_frame_posted :
  snd (process (repeat PrimFloat.zero 2400) SAMPLE_RATE new_processor)
  = [{| rms := 0; pitch := 0 |}].
Proof. vm_compute. reflexivity. Qed.

End SilentFrame.

(** ** Blink counting *)

Section Blinks.
Import JS FaceWorker.
#[local] Open Scope float_scope.

Lemma SFcompare_antisym (f1 f2 : spec_float) :
  SFcompare f2 f1 = option_map CompOpp (SFcompare f1 f2).
Proof.
  destruct f1 as [s1| s1| |s1 m1 e1], f2 as [s2| s2| |s2 m2 e2]; simpl;
    try destruct s1; try destruct s2; try reflexivity;
    rewrite (Z.compare_antisym e1 e2); destruct (e1 ?= e2)%Z; simpl;
    try reflexivity; f_equal;
    rewrite (Pos.compare_cont_antisym m1 m2 Eq); reflexivity.
Qed.








End Blinks.

(** ** Cycles without a face *)

Section NoFace.
Import JS FaceWorker.
#[local] Open Scope float_scope.

Lemma analyzeFrame_no_face (d : detection) (t : Z) (s : state) :
  isInitialized s = true -> faceMesh s = true -> no_face d = true ->
  analyzeFrame d t s = (Returned neutral, s).
Proof.
  intros Hi Hm Hd. unfold analyzeFrame. rewrite Hi, Hm. simpl.
  destruct d as [| |[|lm faces]]; try reflexivity; discriminate.
Qed.

(** C2 (as amended).  Over any number of consecutive cycles in which no
    face is detected, every cycle posts zero for head yaw and pitch, smile,
    gaze jitter and also for blinks-per-minute, and the worker's state (blink
    count, blink time stamps, last eye-aspect-ratio, gaze positions) is left
    as it was. *)
Theorem no_face_cycles_neutral (frames : list (detection * Z)) (s : state) :
  isInitialized s = true -> faceMesh s = true ->
  Forall (fun f => no_face (fst f) = true) frames ->
  cycles frames s
  = (map (fun _ => Returned {| yaw := 0; pitch := 0; blinkPerMin := 0;
                               smile := 0; gazeJitter := 0 |}) frames, s).
Proof.
  intros Hi Hm. induction 1 as [|[d t] rest Hd _ IH]; [reflexivity|].
  simpl. rewrite (analyzeFrame_no_face d t s Hi Hm Hd), IH. reflexivity.
Qed.

Lemma no_face_cycles_neutral_witness :
  cycles [(DetectNothing, 1000%Z); (DetectFaces [], 1083%Z)]
         (snd (analyzeFrame (DetectFaces [example_face false]) 917 initialized))
  = ([Returned neutral; Returned neutral],
     snd (analyzeFrame (DetectFaces [example_face false]) 917 initialized)).
Proof.
  apply (no_face_cycles_neutral
           [(DetectNothing, 1000%Z); (DetectFaces [], 1083%Z)]);
    [reflexivity | reflexivity | repeat constructor].
Defined.

(** The claim as stated fails: after a cycle that reported one blink in the
    last minute, a cycle without a face reports zero, not one; the next
    cycle with the face reports one again. *)
Lemma no_face_cycle_reports_zero_blink_rate :
  map reported_blink_rate
      (fst (cycles [(DetectFaces [example_face false], 1000%Z);
                    (DetectNothing, 1083%Z);
                    (DetectFaces [example_face false], 1166%Z)] initialized))
  = [Some 1%nat; Some 0%nat; Some 1%nat].
Proof. vm_compute. reflexivity. Qed.

End NoFace.

(** ** Snapshot fields of the audio modality *)

Section AudioFields.
Import JS Session.
#[local] Open Scope float_scope.

(** C4 (as amended).  Once the audio modality has produced a result, the
    published RMS field is present and equal to the latest RMS, so a silent
    frame gives a present 0; the pitch field is present, and equal to the
    latest pitch, only when that pitch is a positive number, so a no-pitch
    frame (pitch 0) gives an absent pitch field. *)
Theorem published_rms_present_pitch_only_if_positive
        (asr : bool) (now : Z) (s : state) (a : Worklet.AudioAnalysisMessage) :
  let e := fst (publishMetrics asr now (onAudioMessage a s)) in
  rms e = Some (Worklet.rms a)
  /\ pitch_hz e
     = (if truthy (Worklet.pitch a) && (0 <? Worklet.pitch a)
        then Some (Worklet.pitch a) else None)
  /\ (forall r,
         pitch_hz (fst (publishMetrics asr now
                          (onAudioMessage {| Worklet.rms := r; Worklet.pitch := 0 |} s)))
         = None)
  /\ (forall p,
         rms (fst (publishMetrics asr now
                     (onAudioMessage {| Worklet.rms := 0; Worklet.pitch := p |} s)))
         = Some 0).
Proof.
  unfold publishMetrics; simpl.
  repeat split; intros; destruct asr; simpl;
    try destruct (calculateWPM now (wordTimestamps s)); reflexivity.
Qed.

(** The claim as stated fails for the pitch: after the worklet has reported
    a silent, pitch-less frame, the snapshot carries RMS 0 and no pitch field
    at all. *)
Lemma no_pitch_frame_publishes_absent_pitch :
  let e := fst (publishMetrics true 100
                  (onAudioMessage {| Worklet.rms := 0; Worklet.pitch := 0 |}
                                  (started 0))) in
  rms e = Some 0 /\ pitch_hz e = None /\ pitch_hz e <> Some 0.
Proof. vm_compute. repeat split. discriminate. Qed.

End AudioFields.

(** ** Bounded histories *)

Section Histories.
Import JS Session.

Lemma keep_last_length {A} (n : nat) (l : list A) :
  (length (keep_last n l) <= n)%nat.
Proof. unfold keep_last. rewrite length_skipn. lia. Qed.

(** A push followed by the conditional [shift] keeps the last [n] entries. *)
Lemma shift_over_push {A} (n : nat) (h : list A) (e : A) :
  (length h <= n)%nat -> shift_over n (h ++ [e]) = keep_last n (h ++ [e]).
Proof.
  intros H. unfold shift_over, keep_last. rewrite length_app. simpl.
  destruct (Nat.ltb_spec n (length h + 1)).
  - replace (length h + 1 - n)%nat with 1%nat by lia. reflexivity.
  - replace (length h + 1 - n)%nat with 0%nat by lia. reflexivity.
Qed.

Lemma keep_last_push {A} (n : nat) (l : list A) (e : A) :
  keep_last n (keep_last n l ++ [e]) = keep_last n (l ++ [e]).
Proof.
  unfold keep_last. set (k := (length l - n)%nat).
  assert (skipn k l ++ [e] = skipn k (l ++ [e])) as ->.
  { rewrite skipn_app. replace (k - length l)%nat with 0%nat by lia.
    reflexivity. }
  rewrite skipn_skipn, length_skipn, !length_app. simpl. f_equal. lia.
Qed.

(** The same for the snapshot history, whose cap is tested on numbers. *)
Lemma metrics_push (n : nat) (h : list MetricsEvent) (e : MetricsEvent) :
  n = Z.to_nat CONFIG.MAX_METRICS_BUFFER ->
  (if CONFIG.MAX_METRICS_BUFFER <? Z.of_nat (length (keep_last n h ++ [e]))
   then tl (keep_last n h ++ [e]) else keep_last n h ++ [e])
  = keep_last n (h ++ [e]).
Proof.
  intros Hn. rewrite <- keep_last_push.
  rewrite <- (shift_over_push n) by apply keep_last_length.
  unfold shift_over.
  destruct (Z.ltb_spec CONFIG.MAX_METRICS_BUFFER
                       (Z.of_nat (length (keep_last n h ++ [e]))));
    destruct (Nat.ltb_spec n (length (keep_last n h ++ [e])));
    try reflexivity; unfold CONFIG.MAX_METRICS_BUFFER in *; lia.
Qed.

Lemma run_cons (asr : bool) (i : input) (rest : list input) (s : state) :
  run asr (i :: rest) s
  = (fst (step asr i s) ++ fst (run asr rest (snd (step asr i s))),
     snd (run asr rest (snd (step asr i s)))).
Proof.
  simpl. destruct (step asr i s) as [es s1]. cbn [fst snd].
  destruct (run asr rest s1); reflexivity.
Qed.

Lemma step_history (n : nat) (asr : bool) (i : input) (s : state)
      (published : list MetricsEvent) :
  n = Z.to_nat CONFIG.MAX_METRICS_BUFFER ->
  allMetrics s = keep_last n published ->
  allMetrics (snd (step asr i s)) = keep_last n (published ++ fst (step asr i s)).
Proof.
  intros Hn Hs.
  destruct i as [m|m|text|text now|es|now]; simpl;
    try (rewrite app_nil_r; exact Hs).
  unfold publishMetrics.
  destruct (if asr then calculateWPM now (wordTimestamps s)
            else (0, wordTimestamps s)) as [w ws].
  simpl. rewrite Hs. apply metrics_push. exact Hn.
Qed.

Lemma run_history (n : nat) (asr : bool) (inputs : list input) :
  n = Z.to_nat CONFIG.MAX_METRICS_BUFFER ->
  forall (s : state) (published : list MetricsEvent),
    allMetrics s = keep_last n published ->
    allMetrics (snd (run asr inputs s))
    = keep_last n (published ++ fst (run asr inputs s)).
Proof.
  intros Hn. induction inputs as [|i rest IH]; intros s published Hs.
  - simpl. rewrite app_nil_r. exact Hs.
  - rewrite run_cons. cbn [fst snd]. rewrite app_assoc.
    apply IH. apply step_history; assumption.
Qed.

(** C9.  In every session, after any number of ticks, the snapshot history
    holds at most 18,000 entries, and it is exactly the last 18,000 of the
    published snapshots in their order: on overflow the entry at the front,
    the oldest, is the one dropped. *)
Theorem history_capped_oldest_evicted
        (asr : bool) (inputs : list input) (now0 : Z) :
  let published := fst (run asr inputs (started now0)) in
  let history := allMetrics (snd (run asr inputs (started now0))) in
  Z.of_nat (length history) <= 18000
  /\ history = keep_last (Z.to_nat 18000) published.
Proof.
  intros published history.
  assert (H : forall n, n = Z.to_nat CONFIG.MAX_METRICS_BUFFER ->
                        history = keep_last n published).
  { intros n Hn. apply (run_history n asr inputs Hn (started now0) []).
    reflexivity. }
  split.
  - rewrite (H _ eq_refl).
    pose proof (keep_last_length (Z.to_nat CONFIG.MAX_METRICS_BUFFER) published).
    unfold CONFIG.MAX_METRICS_BUFFER in *. lia.
  - apply H. reflexivity.
Qed.

End Histories.

(** ** The pause ratio *)

Section PauseRatio.
Import JS Session.

Lemma run_app (asr : bool) (xs ys : list input) (s : state) :
  run asr (xs ++ ys) s
  = (fst (run asr xs s) ++ fst (run asr ys (snd (run asr xs s))),
     snd (run asr ys (snd (run asr xs s)))).
Proof.
  revert s. induction xs as [|i xs IH]; intros s.
  - simpl. destruct (run asr ys s); reflexivity.
  - rewrite <- app_comm_cons, !run_cons, IH. cbn [fst snd].
    rewrite app_assoc. reflexivity.
Qed.

Lemma step_rmsHistory (asr : bool) (i : input) (s : state) (taken : list float) :
  rmsHistory s = keep_last TONE_HISTORY_SIZE taken ->
  rmsHistory (snd (step asr i s))
  = keep_last TONE_HISTORY_SIZE (taken ++ map snd (tick_samples asr [i] s)).
Proof.
  intros Hs.
  destruct i as [m|m|text|text now|es|now]; simpl;
    try (rewrite app_nil_r; exact Hs).
  unfold publishMetrics.
  destruct (if asr then calculateWPM now (wordTimestamps s)
            else (0, wordTimestamps s)) as [w ws].
  simpl. rewrite Hs, shift_over_push by apply keep_last_length.
  apply keep_last_push.
Qed.

Lemma tick_samples_cons (asr : bool) (i : input) (rest : list input) (s : state) :
  tick_samples asr (i :: rest) s
  = tick_samples asr [i] s ++ tick_samples asr rest (snd (step asr i s)).
Proof. destruct i; reflexivity. Qed.

Lemma run_rmsHistory (asr : bool) (inputs : list input) :
  forall (s : state) (taken : list float),
    rmsHistory s = keep_last TONE_HISTORY_SIZE taken ->
    rmsHistory (snd (run asr inputs s))
    = keep_last TONE_HISTORY_SIZE (taken ++ map snd (tick_samples asr inputs s)).
Proof.
  induction inputs as [|i rest IH]; intros s taken Hs.
  - simpl. rewrite app_nil_r. exact Hs.
  - rewrite run_cons, tick_samples_cons, map_app, app_assoc. cbn [snd].
    apply IH. apply step_rmsHistory. exact Hs.
Qed.

Lemma published_pause_ratio (asr : bool) (now : Z) (s : state) :
  pause_ratio (fst (publishMetrics asr now s))
  = fraction_below_threshold (rmsHistory (snd (publishMetrics asr now s))).
Proof.
  unfold publishMetrics.
  destruct (if asr then calculateWPM now (wordTimestamps s)
            else (0, wordTimestamps s)) as [w ws].
  cbn [fst snd pause_ratio rmsHistory].
  destruct (shift_over TONE_HISTORY_SIZE _) as [|v h]; reflexivity.
Qed.

(** What the controller publishes at every tick: the fraction, among the
    loudness samples of the last 30 ticks (this one included), of those
    below twice the noise floor. *)
Lemma pause_ratio_over_last_30_ticks
      (asr : bool) (before : list input) (now now0 : Z) :
  let s := snd (run asr before (started now0)) in
  pause_ratio (fst (publishMetrics asr now s))
  = fraction_below_threshold
      (keep_last 30 (map snd (tick_samples asr (before ++ [Tick now])
                                           (started now0)))).
Proof.
  intros s. rewrite published_pause_ratio. f_equal.
  assert (H : snd (publishMetrics asr now s)
              = snd (run asr (before ++ [Tick now]) (started now0))).
  { rewrite run_app. fold s. simpl.
    destruct (publishMetrics asr now s); reflexivity. }
  rewrite H.
  apply (run_rmsHistory asr (before ++ [Tick now]) (started now0) []).
  reflexivity.
Qed.

(** C1 (the code departs from the claim).  Ticks at 10 Hz: one on a silent
    audio frame, then thirty on loud frames.  At the last tick, three seconds
    after the first, all 31 samples lie in the trailing 10-second window and
    one of them is below the threshold, so the claimed pause ratio is 1/31;
    the controller publishes 0, because its loudness history holds only the
    last 30 samples. *)
Theorem pause_ratio_drops_samples_inside_10s_window :
  let samples := tick_samples true silence_then_speech (started 0) in
  let published := fst (run true silence_then_speech (started 0)) in
  length samples = 31%nat
  /\ forallb (fun s => (3100 - 10000 <=? fst s) && (fst s <=? 3100)) samples = true
  /\ pause_ratio_trailing_window samples 3100
     = Some (JS.float_of_nat 1 / JS.float_of_nat 31)%float
  /\ map pause_ratio (skipn 30 published) = [Some 0%float].
Proof. vm_compute. repeat split. Qed.

End PauseRatio.

(** ** The speaking rate *)

Section SpeakingRate.
Import JS Session.

Lemma round_twice (n : Z) :
  round (inject_Z n / inject_Z CONFIG.WPM_WINDOW_SEC * 60) = 2 * n.
Proof.
  unfold round.
  assert (H : (inject_Z n / inject_Z CONFIG.WPM_WINDOW_SEC * 60 + (1 # 2)
               == (4 * n + 1) # 2)%Q).
  { unfold CONFIG.WPM_WINDOW_SEC, Qeq, Qdiv, Qmult, Qplus, Qinv, inject_Z.
    cbn [Qnum Qden]. lia. }
  rewrite (Qfloor_comp _ _ H). unfold Qfloor.
  Z.to_euclidean_division_equations. lia.
Qed.

(** [calculateWPM] returns twice the number of words it keeps. *)
Lemma calculateWPM_twice (now : Z) (words : list (js_string * Z)) :
  let kept := filter (fun w => now - 30000 <=? snd w) words in
  calculateWPM now words = (2 * Z.of_nat (length kept), kept).
Proof.
  unfold calculateWPM.
  change (CONFIG.WPM_WINDOW_SEC * 1000) with 30000.
  destruct (filter (fun w => now - 30000 <=? snd w) words) as [|w kept] eqn:E.
  - reflexivity.
  - rewrite round_twice. reflexivity.
Qed.

Lemma filter_filter_weaker {A} (p q : A -> bool) (l : list A) :
  (forall x, p x = true -> q x = true) ->
  filter p (filter q l) = filter p l.
Proof.
  intros H. induction l as [|x l IH]; [reflexivity|]. simpl.
  destruct (q x) eqn:Hq; simpl.
  - rewrite IH. reflexivity.
  - destruct (p x) eqn:Hp; [|exact IH]. rewrite (H x Hp) in Hq. discriminate.
Qed.

(** The entries the controller still holds agree, on every window that ends
    no earlier than the clock readings taken so far, with all the entries
    recorded. *)
Lemma words_in_window_kept (now : Z) (inputs : list input) :
  forall s : state,
    Forall (fun r => r <= now) (clock_readings inputs) ->
    filter (fun w => now - 30000 <=? snd w)
           (wordTimestamps (snd (run true inputs s)))
    = filter (fun w => now - 30000 <=? snd w)
             (wordTimestamps s ++ recorded_words inputs).
Proof.
  induction inputs as [|i rest IH]; intros s Hc.
  - simpl. rewrite app_nil_r. reflexivity.
  - rewrite run_cons. cbn [snd].
    destruct i as [m|m|text|text t0|es|t0]; simpl in Hc |- *;
      try exact (IH _ Hc).
    + inversion Hc; subst. rewrite IH by assumption. simpl.
      rewrite <- app_assoc. reflexivity.
    + inversion Hc as [|? ? Ht0 Hrest]; subst.
      unfold publishMetrics. rewrite calculateWPM_twice. simpl.
      rewrite IH by assumption. simpl.
      rewrite !filter_app. f_equal. apply filter_filter_weaker.
      intros [w t]; simpl. intros H.
      apply Z.leb_le in H. apply Z.leb_le. lia.
Qed.

Lemma recorded_words_stamps (inputs : list input) (w : js_string * Z) :
  In w (recorded_words inputs) -> In (snd w) (clock_readings inputs).
Proof.
  induction inputs as [|i rest IH]; simpl; [tauto|].
  destruct i as [m|m|text|text t0|es|t0]; simpl; auto.
  rewrite in_app_iff, in_map_iff. intros [[word [<- _]]|H]; simpl; auto.
Qed.

(** What the controller publishes at a tick that reads a clock value not
    earlier than the readings before it: twice the number of entries
    recorded by [onFinal] whose time stamp lies within the trailing 30
    seconds. *)
Lemma wpm_twice_recorded_entries_in_window (before : list input) (now now0 : Z) :
  Forall (fun r => r <= now) (clock_readings before) ->
  wpm (fst (publishMetrics true now (snd (run true before (started now0)))))
  = Some (Z.of_nat (length (filter (in_wpm_window now) (recorded_words before)))
          * (60 / 30)).
Proof.
  intros Hc.
  assert (Hw : filter (in_wpm_window now) (recorded_words before)
               = filter (fun w => now - 30000 <=? snd w) (recorded_words before)).
  { apply filter_ext_in. intros w Hw. unfold in_wpm_window.
    change (CONFIG.WPM_WINDOW_SEC * 1000) with 30000.
    apply recorded_words_stamps in Hw.
    rewrite Forall_forall in Hc. specialize (Hc _ Hw).
    destruct (Z.leb_spec (snd w) now); [|lia]. apply andb_true_r. }
  unfold publishMetrics. rewrite calculateWPM_twice. cbn [fst wpm].
  rewrite (words_in_window_kept now before (started now0) Hc), Hw.
  change (wordTimestamps (started now0)) with (@nil (js_string * Z)).
  rewrite app_nil_l. change (60 / 30) with 2. rewrite Z.mul_comm. reflexivity.
Qed.

(** C8 (the code departs from the claim).  Two words are finalised at
    1000 ms and a final result with an empty transcript arrives at 2000 ms.
    At the tick at 2100 ms the finalised words are "hello" and "world", both
    inside the trailing 30 seconds, so the claimed speaking rate is 4; the
    controller publishes 6, because [onFinal] records the one piece that
    [text.trim().split(/\s+/)] gives for the empty transcript, the empty
    string, as a word.  The summary of the same session, which drops empty
    pieces, counts 2 words. *)
Theorem wpm_counts_empty_final_as_a_word :
  let s := snd (run true words_then_empty_final (started 0)) in
  map fst (finalized_words words_then_empty_final) = [str "hello"; str "world"]
  /\ forallb (in_wpm_window 2100) (finalized_words words_then_empty_final) = true
  /\ speaking_rate_trailing_window words_then_empty_final 2100 = 4
  /\ map fst (wordTimestamps s) = [str "hello"; str "world"; []]
  /\ wpm (fst (publishMetrics true 2100 s)) = Some 6
  /\ Words.word_count (Words.summary_transcript s) = 2%nat.
Proof. vm_compute. repeat split. Qed.

End SpeakingRate.

(** ** Classification of blank text *)

Section BlankText.
Import JS GoEmotions.

Lemma drop_spaces_all (s : js_string) :
  forallb is_space s = true -> drop_spaces s = [].
Proof.
  induction s as [|c s IH]; simpl; [reflexivity|].
  destruct (is_space c); simpl; [exact IH | discriminate].
Qed.

(** A text made of white space only, the empty text included, trims to the
    empty string. *)
Lemma blank_whitespace (text : js_string) :
  forallb is_space text = true -> blank text = true.
Proof.
  intros H. unfold blank, trim. rewrite (drop_spaces_all text H). reflexivity.
Qed.

(** C10.  For a text that is empty or made of white space only,
    [classifyEmotions] (and [classifyGoEmotions] under it) returns the empty
    list at once: it does not throw, the pipeline state is untouched, and
    there is no load, no call of the model and no console output. *)
Theorem blank_text_classifies_to_empty_without_model
        (w : world) (text : js_string) (threshold : Q) (topK : nat) (s : state) :
  forallb is_space text = true ->
  classifyEmotions w text threshold s = (Returned [], s, [])
  /\ classifyGoEmotions w text threshold topK s = (Returned [], s, []).
Proof.
  intros H. unfold classifyEmotions, classifyGoEmotions.
  rewrite (blank_whitespace text H). split; reflexivity.
Qed.

Lemma blank_text_classifies_to_empty_without_model_witness :
  classifyEmotions {| has_window := true; load := Thrown "offline" |}
                   (str "  " ++ [9; 10; 160; 0x3000]%N) threshold_030 uninitialized
  = (Returned [], uninitialized, [])
  /\ classifyGoEmotions {| has_window := true; load := Thrown "offline" |}
                        (str "  " ++ [9; 10; 160; 0x3000]%N) threshold_030 3
                        uninitialized
     = (Returned [], uninitialized, []).
Proof.
  apply (blank_text_classifies_to_empty_without_model
           {| has_window := true; load := Thrown "offline" |}
           (str "  " ++ [9; 10; 160; 0x3000]%N) threshold_030 3 uninitialized).
  reflexivity.
Defined.

(** For contrast, a text with a word in it does reach the model: with no
    pipeline cached, the call loads it and warms it up before classifying. *)
Example nonblank_text_loads_model :
  let pipe := fun _ : js_string => Returned [{| label := str "joy"; score := 0.9 |}] in
  snd (classifyEmotions {| has_window := true; load := Returned pipe |}
                        (str " ok then ") threshold_030 uninitialized)
  = [Load; Invoke (str "ok"); Invoke (str " ok then ")].
Proof. reflexivity. Qed.

End BlankText.

(** ** The selection of emotion labels *)

Section Selection.
Import JS GoEmotions.

Lemma Qltb_lt (x y : Q) : Qltb x y = true <-> (x < y)%Q.
Proof.
  unfold Qltb. rewrite negb_true_iff, <- not_true_iff_false, Qle_bool_iff.
  split; [apply Qnot_le_lt | apply Qlt_not_le].
Qed.

Lemma Qltb_ge (x y : Q) : Qltb x y = false <-> (y <= x)%Q.
Proof.
  unfold Qltb. rewrite negb_false_iff. apply Qle_bool_iff.
Qed.

Lemma insert_perm (x : Emotion) (l : list Emotion) :
  Permutation (insert x l) (x :: l).
Proof.
  induction l as [|y l IH]; simpl; [reflexivity|].
  destruct (Qltb (score x) (score y)); [|reflexivity].
  rewrite IH. apply perm_swap.
Qed.

Lemma sort_desc_perm (raw : list Emotion) : Permutation (sort_desc raw) raw.
Proof.
  induction raw as [|x raw IH]; simpl; [reflexivity|].
  rewrite insert_perm. constructor. exact IH.
Qed.

Lemma insert_sorted (x : Emotion) (l : list Emotion) :
  StronglySorted no_lower l -> StronglySorted no_lower (insert x l).
Proof.
  induction 1 as [|y l Hs IH Hy]; simpl.
  - repeat constructor.
  - destruct (Qltb (score x) (score y)) eqn:E.
    + constructor; [exact IH|].
      eapply Permutation_Forall; [apply Permutation_sym, insert_perm|].
      constructor; [|exact Hy].
      apply Qltb_lt in E. apply Qlt_le_weak. exact E.
    + apply Qltb_ge in E.
      constructor; [constructor; assumption|].
      constructor; [exact E|].
      eapply Forall_impl; [|exact Hy]. intros z Hz. unfold no_lower in *.
      eapply Qle_trans; eassumption.
Qed.

Lemma sort_desc_sorted (raw : list Emotion) :
  StronglySorted no_lower (sort_desc raw).
Proof.
  induction raw as [|x raw IH]; simpl; [constructor|].
  apply insert_sorted. exact IH.
Qed.


Lemma string_eqb_eq (a b : js_string) : string_eqb a b = true <-> a = b.
Proof.
  unfold string_eqb. destruct (list_eq_dec N.eq_dec a b); split;
    congruence.
Qed.

Lemma has_label_In (picked : list Emotion) (l : js_string) :
  has_label picked l = true <-> In l (map label picked).
Proof.
  unfold has_label. rewrite existsb_exists, in_map_iff.
  split; intros [p [H1 H2]]; exists p.
  - apply string_eqb_eq in H2. auto.
  - split; [tauto|]. apply string_eqb_eq. tauto.
Qed.

Lemma none_reaches_below (threshold : Q) (x : Emotion) (l : list Emotion) :
  Forall (no_lower x) l ->
  Qle_bool threshold (score x) = false ->
  filter (fun e => Qle_bool threshold (score e)) l = [].
Proof.
  intros Hx E. apply not_true_iff_false in E. rewrite Qle_bool_iff in E.
  induction Hx as [|y l Hy Hl IH]; simpl; [reflexivity|].
  destruct (Qle_bool threshold (score y)) eqn:Ey; [|exact IH].
  exfalso. apply E. apply Qle_bool_iff in Ey. unfold no_lower in Hy.
  eapply Qle_trans; eassumption.
Qed.

(** On a list in decreasing order of score, the entries that reach the
    threshold form a prefix. *)
Lemma reaching_is_prefix (threshold : Q) (l : list Emotion) :
  StronglySorted no_lower l ->
  let reaching := filter (fun e => Qle_bool threshold (score e)) l in
  reaching = firstn (length reaching) l.
Proof.
  induction 1 as [|x l Hs IH Hx]; simpl; [reflexivity|].
  destruct (Qle_bool threshold (score x)) eqn:E; simpl.
  - f_equal. exact IH.
  - rewrite (none_reaches_below threshold x l Hx E). reflexivity.
Qed.

(** The padding loop: started from a prefix of a list with distinct labels
    and run over another prefix, it ends with the longer of the two. *)
Lemma pad_prefix (l : list Emotion) :
  forall (m k : nat) (pre : list Emotion),
    NoDup (map label (pre ++ l)) ->
    fold_left
      (fun picked emotion =>
         if has_label picked (label emotion) then picked
         else picked ++ [emotion])
      (firstn k l) (pre ++ firstn m l)
    = pre ++ firstn (Nat.max m k) l.
Proof.
  induction l as [|x l IH]; intros m k pre Hnd.
  - rewrite !firstn_nil. reflexivity.
  - destruct k as [|k].
    + rewrite Nat.max_0_r. reflexivity.
    + cbn [firstn fold_left].
      assert (Hnd' : NoDup (map label ((pre ++ [x]) ++ l)))
        by (rewrite <- app_assoc; exact Hnd).
      destruct m as [|m]; cbn [firstn Nat.max].
      * rewrite app_nil_r.
        destruct (has_label pre (label x)) eqn:E.
        { exfalso. apply has_label_In in E.
          rewrite map_app in Hnd. cbn [map] in Hnd.
          apply NoDup_remove_2 in Hnd. apply Hnd, in_or_app. left. exact E. }
        specialize (IH 0%nat k (pre ++ [x]) Hnd'). cbn [firstn] in IH.
        rewrite app_nil_r in IH. rewrite IH, <- app_assoc. reflexivity.
      * replace (has_label (pre ++ x :: firstn m l) (label x)) with true.
        { specialize (IH m k (pre ++ [x]) Hnd').
          rewrite <- !app_assoc in IH. exact IH. }
        symmetry. apply has_label_In. rewrite map_app, in_app_iff.
        right. left. reflexivity.
Qed.

(** The output of the two loops is a prefix of the sorted scores: as long
    as the number of entries that reach the threshold, or as [topK] when
    that is more (and there are that many). *)
Lemma pick_is_prefix (raw : list Emotion) (threshold : Q) (topK : nat) :
  NoDup (map label raw) ->
  let sorted := sort_desc raw in
  let m := length (filter (fun e => Qle_bool threshold (score e)) sorted) in
  pick raw threshold topK
  = firstn (Nat.max m (Nat.min topK (length sorted))) sorted.
Proof.
  intros Hnd sorted m. unfold pick. fold sorted.
  rewrite (reaching_is_prefix threshold sorted (sort_desc_sorted raw)).
  fold m. apply (pad_prefix sorted m (Nat.min topK (length sorted)) []).
  simpl. eapply Permutation_NoDup; [|exact Hnd].
  apply Permutation_map, Permutation_sym, sort_desc_perm.
Qed.

Lemma filter_perm_length {A} (p : A -> bool) (l l' : list A) :
  Permutation l l' -> length (filter p l) = length (filter p l').
Proof.
  induction 1 as [|x l l' _ IH|x y l|l l' l'' _ IH1 _ IH2]; simpl.
  - reflexivity.
  - destruct (p x); simpl; congruence.
  - destruct (p x), (p y); reflexivity.
  - congruence.
Qed.

Lemma firstn_incl_le {A} (m n : nat) (l : list A) :
  (m <= n)%nat -> incl (firstn m l) (firstn n l).
Proof.
  intros H e He. rewrite <- (Nat.min_l m n H), <- firstn_firstn in He.
  rewrite <- (firstn_skipn m (firstn n l)). apply in_or_app. left. exact He.
Qed.

Lemma firstn_incl_all {A} (n : nat) (l : list A) : incl (firstn n l) l.
Proof.
  intros e He. rewrite <- (firstn_skipn n l). apply in_or_app. left. exact He.
Qed.

Lemma sorted_prefix_before_rest (l : list Emotion) :
  StronglySorted no_lower l ->
  forall (n : nat) (a b : Emotion),
    In a (firstn n l) -> In b (skipn n l) -> no_lower a b.
Proof.
  induction 1 as [|x l Hs IH Hx]; intros n a b Ha Hb.
  - rewrite firstn_nil in Ha. destruct Ha.
  - destruct n as [|n]; [destruct Ha|]. simpl in Ha, Hb.
    destruct Ha as [<- | Ha].
    + rewrite Forall_forall in Hx. apply Hx.
      rewrite <- (firstn_skipn n l). apply in_or_app. right. exact Hb.
    + eapply IH; eassumption.
Qed.

(** C6 (as amended).  For a score list whose labels are pairwise
    distinct, the output has no label twice and is drawn from the list; it
    contains every entry whose score is at least the threshold; when at
    least [topK] entries reach the threshold it contains nothing else; and
    when fewer do, it is padded to [topK] entries (to the whole list, if that
    is shorter) and no entry left out scores higher than one put in. *)
Theorem pick_threshold_then_top_k (raw : list Emotion) (threshold : Q) (topK : nat) :
  NoDup (map label raw) ->
  let out := pick raw threshold topK in
  let reaching := filter (fun e => Qle_bool threshold (score e)) raw in
  NoDup (map label out)
  /\ incl out raw
  /\ incl reaching out
  /\ ((topK <= length reaching)%nat -> incl out reaching)
  /\ ((length reaching < topK)%nat ->
      length out = Nat.min topK (length raw)
      /\ forall e e', In e out -> In e' raw -> ~ In e' out ->
                      (score e' <= score e)%Q).
Proof.
  intros Hnd out reaching.
  pose proof (sort_desc_perm raw) as Hperm.
  pose proof (sort_desc_sorted raw) as Hsorted.
  pose proof (pick_is_prefix raw threshold topK Hnd) as Hout.
  fold out in Hout. cbv zeta in Hout.
  assert (Hm : length (filter (fun e => Qle_bool threshold (score e)) (sort_desc raw))
               = length reaching) by (apply filter_perm_length, Hperm).
  assert (Hn : length (sort_desc raw) = length raw)
    by (apply Permutation_length, Hperm).
  rewrite Hm, Hn in Hout.
  assert (Hle : (length reaching <= length raw)%nat) by apply filter_length_le.
  assert (Hreach : filter (fun e => Qle_bool threshold (score e)) (sort_desc raw)
                   = firstn (length reaching) (sort_desc raw)).
  { rewrite <- Hm. apply (reaching_is_prefix threshold _ Hsorted). }
  repeat split.
  - rewrite Hout, <- firstn_map.
    assert (H : NoDup (map label (sort_desc raw))).
    { eapply Permutation_NoDup; [|exact Hnd].
      apply Permutation_map, Permutation_sym, Hperm. }
    rewrite <- (firstn_skipn (Nat.max (length reaching) (Nat.min topK (length raw)))
                             (map label (sort_desc raw))) in H.
    apply NoDup_app_remove_r in H. exact H.
  - intros e He. rewrite Hout in He. apply firstn_incl_all in He.
    eapply Permutation_in; eassumption.
  - intros e He. unfold reaching in He. apply filter_In in He as [He Hp].
    rewrite Hout.
    apply (firstn_incl_le (length reaching)); [lia|].
    rewrite <- Hreach. apply filter_In. split; [|exact Hp].
    eapply Permutation_in; [apply Permutation_sym|]; eassumption.
  - intros HK e He. rewrite Hout in He.
    replace (Nat.max (length reaching) (Nat.min topK (length raw)))
      with (length reaching) in He by lia.
    rewrite <- Hreach in He. apply filter_In in He as [He Hp].
    apply filter_In. split; [|exact Hp]. eapply Permutation_in; eassumption.
  - rewrite Hout, length_firstn, Hn. lia.
  - intros e e' He He' Hnot. rewrite Hout in He, Hnot.
    apply (sorted_prefix_before_rest _ Hsorted
             (Nat.max (length reaching) (Nat.min topK (length raw))) e e' He).
    assert (H' : In e' (sort_desc raw))
      by (eapply Permutation_in; [apply Permutation_sym|]; eassumption).
    rewrite <- (firstn_skipn (Nat.max (length reaching) (Nat.min topK (length raw)))
                             (sort_desc raw)) in H'.
    apply in_app_or in H' as [H'|H']; [contradiction | exact H'].
Qed.

Lemma example_scores_distinct : NoDup (map label example_scores).
Proof.
  vm_compute.
  repeat (constructor; [simpl; intuition discriminate|]). constructor.
Qed.

Lemma pick_threshold_then_top_k_witness :
  let out := pick example_scores threshold_030 3 in
  let reaching :=
    filter (fun e => Qle_bool threshold_030 (score e)) example_scores in
  NoDup (map label out)
  /\ incl out example_scores
  /\ incl reaching out
  /\ ((3 <= length reaching)%nat -> incl out reaching)
  /\ ((length reaching < 3)%nat ->
      length out = Nat.min 3 (length example_scores)
      /\ forall e e', In e out -> In e' example_scores -> ~ In e' out ->
                      (score e' <= score e)%Q).
Proof.
  exact (pick_threshold_then_top_k example_scores threshold_030 3
                                   example_scores_distinct).
Defined.

(** How the selection is reached: with the pipeline loaded, a text that is
    not blank is classified by one call of the model, and the answer is the
    selection made from the scores it returns, with [topK] = 3. *)
Lemma classifyEmotions_returns_pick
      (w : world) (text : js_string) (threshold : Q) (s : state)
      (pipe : pipeline) (raw : list Emotion) :
  blank text = false ->
  pipePromise s = Some pipe ->
  pipe text = Returned raw ->
  classifyEmotions w text threshold s
  = (Returned (pick raw threshold 3), s, [Invoke text]).
Proof.
  intros Hb Hp Hr. unfold classifyEmotions, classifyGoEmotions, initGoEmotions.
  rewrite Hb, Hp, Hr. reflexivity.
Qed.

(** The claim as stated fails on two counts.  With three labels above the
    threshold, a fourth whose score equals the threshold is returned too,
    though its score does not exceed it; and a score list that names a label
    twice gets it back twice. *)
Lemma pick_takes_score_at_threshold_and_repeated_label :
  (map label (pick (example_scores ++ [{| label := str "fear"; score := threshold_030 |}])
                   threshold_030 3)
   = [str "joy"; str "love"; str "pride"; str "fear"]
   /\ ~ (threshold_030 < threshold_030)%Q)
  /\ map label (pick [{| label := str "joy"; score := 0.9 |};
                      {| label := str "joy"; score := 0.8 |}] threshold_030 3)
     = [str "joy"; str "joy"].
Proof.
  split; [split|]; [vm_compute; reflexivity | apply Qlt_irrefl
                   | vm_compute; reflexivity].
Qed.

End Selection.

(** ** Teardown *)

Section TeardownProofs.
Import JS Teardown.












Lemma triple_bind (P R Q : machine -> Prop) (a b : M unit) :
  triple P a R -> triple R b Q -> triple P (a ;; b) Q.
Proof.
  intros Ha Hb m Hm. specialize (Ha m Hm). unfold bind.
  destruct (a m) as [[[]|e] m']; [exact (Hb m' Ha) | exact I].
Qed.


Lemma triple_any (P : machine -> Prop) (c : M unit) :
  triple P c (fun _ => True).
Proof. intros m _. destruct (c m) as [[[]|e] m']; exact I. Qed.

Lemma triple_when (P Q : machine -> Prop) (test : handles -> bool) (c : M unit) :
  triple (fun m => P m /\ test (vars m) = true) c Q ->
  (forall m, P m -> test (vars m) = false -> Q m) ->
  triple P (when test c) Q.
Proof.
  intros Hc Hf m Hm. unfold when.
  destruct (test (vars m)) eqn:E; [exact (Hc m (conj Hm E)) | exact (Hf m Hm E)].
Qed.

Lemma triple_assign (P Q : machine -> Prop) (f : handles -> handles) :
  (forall h p k, P {| vars := h; performed := p; console := k |} ->
                 Q {| vars := f h; performed := p; console := k |}) ->
  triple P (assign f) Q.
Proof. intros H [h p k] Hm. exact (H h p k Hm). Qed.

Lemma triple_external (P Q : machine -> Prop) (env : environment) (c : call) :
  (forall h p k, P {| vars := h; performed := p; console := k |} ->
                 Q {| vars := h; performed := p ++ [c]; console := k |}) ->
  triple P (external env c) Q.
Proof.
  intros H [h p k] Hm. unfold external. simpl.
  destruct (env c); [exact I | exact (H h p k Hm)].
Qed.

Lemma triple_console (P Q : machine -> Prop) (l : console_line) :
  (forall h p k, P {| vars := h; performed := p; console := k |} ->
                 Q {| vars := h; performed := p; console := k ++ [l] |}) ->
  triple P (write_console l) Q.
Proof. intros H [h p k] Hm. exact (H h p k Hm). Qed.

Lemma triple_try (P Q : machine -> Prop) (c handler : M unit) :
  triple P c Q ->
  (forall m, P m ->
     match c m with
     | (Thrown _, m') => match handler m' with
                         | (Returned _, m'') => Q m''
                         | (Thrown _, _) => True
                         end
     | _ => True
     end) ->
  triple P (try_catch c handler) Q.
Proof.
  intros Hc Hh m Hm. unfold try_catch. specialize (Hc m Hm). specialize (Hh m Hm).
  destruct (c m) as [[[]|e] m']; assumption.
Qed.

Lemma triple_read (P Q : machine -> Prop) (c : handles -> M unit) :
  (forall h, triple P (c h) Q) -> triple P (fun m => c (vars m) m) Q.
Proof. intros H m Hm. exact (H (vars m) m Hm). Qed.

Lemma triple_for_each {A} (Q : machine -> Prop) (l : list A) (body : A -> M unit) :
  (forall a, triple Q (body a) Q) -> triple Q (for_each l body) Q.
Proof.
  intros H. induction l as [|a l IH]; simpl.
  - intros m Hm. exact Hm.
  - eapply triple_bind; [apply H | exact IH].
Qed.


Lemma triple_conj (P Q1 Q2 : machine -> Prop) (c : M unit) :
  triple P c Q1 -> triple P c Q2 -> triple P c (fun m => Q1 m /\ Q2 m).
Proof.
  intros H1 H2 m Hm. specialize (H1 m Hm). specialize (H2 m Hm).
  destruct (c m) as [[[]|e] m']; [split; assumption | exact I].
Qed.

Lemma keeps_bind (Q : machine -> Prop) (a b : M unit) :
  triple Q a Q -> triple Q b Q -> triple Q (a ;; b) Q.
Proof. apply triple_bind. Qed.

Lemma keeps_when (Q : machine -> Prop) (test : handles -> bool) (c : M unit) :
  triple Q c Q -> triple Q (when test c) Q.
Proof.
  intros H. apply triple_when; [|tauto]. intros m [Hm _]. exact (H m Hm).
Qed.

Lemma keeps_try (Q : machine -> Prop) (env : environment) (c : call)
      (l : console_line) :
  (forall h p k, Q {| vars := h; performed := p; console := k |} ->
                 Q {| vars := h; performed := p ++ [c]; console := k |}) ->
  (forall h p k, Q {| vars := h; performed := p; console := k |} ->
                 Q {| vars := h; performed := p; console := k ++ [l] |}) ->
  triple Q (try_catch (external env c) (write_console l)) Q.
Proof.
  intros H1 H2 [h p k] Hm. unfold try_catch, external. simpl.
  destruct (env c); simpl; auto.
Qed.

(** A step of the form [if (x) { call(x); x = null }] leaves [x] cleared. *)
Lemma release_step (env : environment) (V : handles -> Prop)
      (test : handles -> bool) (c : call) (f : handles -> handles) :
  (forall h, test h = false -> V h) ->
  (forall h, V (f h)) ->
  triple (fun _ => True) (when test (external env c ;; assign f))
         (fun m => V (vars m)).
Proof.
  intros Hf Hc. apply triple_when.
  - eapply triple_bind; [apply triple_any|].
    apply triple_assign. intros h p k _. apply Hc.
  - intros m _ E. apply Hf, E.
Qed.

Ltac side :=
  intros ? ? ?; simpl; try tauto; auto;
  try (intro; apply in_or_app; left; assumption).

Ltac keeps :=
  repeat first
    [ apply keeps_bind
    | apply keeps_when
    | apply keeps_try; side
    | apply triple_assign; side
    | apply triple_external; side
    | apply triple_console; side
    | match goal with
      | |- triple ?P (fun m => for_each (tracks (vars m)) ?b m) ?Q =>
          apply (triple_read P Q (fun h => for_each (tracks h) b)); intros ?
      end
    | apply triple_for_each; intros ? ].

Ltac skip := eapply triple_bind; [apply triple_any|].

Lemma teardown_isRunning (env : environment) (now : Z) :
  triple (fun _ => True) (teardown env now) (fun m => isRunning (vars m) = false).
Proof.
  unfold teardown, asrService_stop.
  eapply (triple_bind _ (fun m => isRunning (vars m) = false)).
  - apply triple_assign. side.
  - keeps.
Qed.

Lemma teardown_metricsIntervalId (env : environment) (now : Z) :
  triple (fun _ => True) (teardown env now)
         (fun m => metricsIntervalId (vars m) = None).
Proof.
  unfold teardown, asrService_stop. do 2 skip.
  eapply (triple_bind _ (fun m => metricsIntervalId (vars m) = None)); [|keeps].
  apply (release_step env (fun h => metricsIntervalId h = None));
    [intros h; destruct (metricsIntervalId h); simpl; congruence | reflexivity].
Qed.

Lemma teardown_asr (env : environment) (now : Z) :
  triple (fun _ => True) (teardown env now)
         (fun m => asrInstance (asr (vars m)) && recognition (asr (vars m))
                   && asrRunning (asr (vars m)) = false).
Proof.
  unfold teardown, asrService_stop. do 3 skip.
  eapply (triple_bind _ (fun m => asrInstance (asr (vars m))
                                  && recognition (asr (vars m))
                                  && asrRunning (asr (vars m)) = false));
    [|keeps].
  apply triple_when.
  - apply triple_when.
    + eapply (triple_bind _ (fun m => asrInstance (asr (vars m))
                                      && recognition (asr (vars m))
                                      && asrRunning (asr (vars m)) = false));
        [|keeps].
      apply triple_assign. intros h p k _. simpl. apply andb_false_r.
    + intros m _ E. rewrite <- andb_assoc, E. apply andb_false_r.
  - intros m _ E. rewrite E. reflexivity.
Qed.

Lemma teardown_faceLoopId (env : environment) (now : Z) :
  triple (fun _ => True) (teardown env now) (fun m => faceLoopId (vars m) = None).
Proof.
  unfold teardown, asrService_stop. do 4 skip.
  eapply (triple_bind _ (fun m => faceLoopId (vars m) = None)); [|keeps].
  apply (release_step env (fun h => faceLoopId h = None));
    [intros h; destruct (faceLoopId h); simpl; congruence | reflexivity].
Qed.

Lemma teardown_faceWorker (env : environment) (now : Z) :
  triple (fun _ => True) (teardown env now) (fun m => faceWorker (vars m) = false).
Proof.
  unfold teardown, asrService_stop. do 5 skip.
  eapply (triple_bind _ (fun m => faceWorker (vars m) = false)); [|keeps].
  apply (release_step env (fun h => faceWorker h = false)); auto.
Qed.

Lemma teardown_audioWorkletNode (env : environment) (now : Z) :
  triple (fun _ => True) (teardown env now)
         (fun m => audioWorkletNode (vars m) = false).
Proof.
  unfold teardown, asrService_stop. do 6 skip.
  eapply (triple_bind _ (fun m => audioWorkletNode (vars m) = false)); [|keeps].
  apply (release_step env (fun h => audioWorkletNode h = false)); auto.
Qed.

Lemma teardown_audioContext (env : environment) (now : Z) :
  triple (fun _ => True) (teardown env now) (fun m => audioContext (vars m) = false).
Proof.
  unfold teardown, asrService_stop. do 7 skip.
  eapply (triple_bind _ (fun m => audioContext (vars m) = false)); [|keeps].
  apply (release_step env (fun h => audioContext h = false)); auto.
Qed.

Lemma teardown_recording (env : environment) (now : Z) :
  triple (fun _ => True) (teardown env now) (fun m => recording (vars m) = false).
Proof.
  unfold teardown, asrService_stop. do 8 skip.
  eapply (triple_bind _ (fun m => recording (vars m) = false)); [|keeps].
  apply (release_step env (fun h => recording h = false)); [auto|].
  intros h. unfold recording. simpl. destruct (mediaRecorder h); reflexivity.
Qed.

Lemma teardown_stream (env : environment) (now : Z) :
  triple (fun _ => True) (teardown env now) (fun m => stream (vars m) = None).
Proof.
  unfold teardown, asrService_stop. do 9 skip.
  eapply (triple_bind _ (fun m => stream (vars m) = None)); [|keeps].
  apply triple_when.
  - eapply triple_bind; [apply triple_any|]. apply triple_assign. reflexivity.
  - intros m _ E. destruct (stream (vars m)); simpl in E; congruence.
Qed.

Lemma teardown_videoElement (env : environment) (now : Z) :
  triple (fun _ => True) (teardown env now)
         (fun m => videoElement (vars m) <> Some true).
Proof.
  unfold teardown, asrService_stop. do 10 skip.
  eapply (triple_bind _ (fun m => videoElement (vars m) <> Some true)); [|keeps].
  apply (release_step env (fun h => videoElement h <> Some true)).
  - intros h. destruct (videoElement h); simpl; congruence.
  - intros h. simpl. destruct (videoElement h); simpl; congruence.
Qed.

Lemma teardown_released (env : environment) (now : Z) :
  triple (fun _ => True) (teardown env now) (fun m => released (vars m)).
Proof.
  unfold released.
  repeat (apply triple_conj;
          [ first [ apply teardown_isRunning | apply teardown_metricsIntervalId
                  | apply teardown_asr | apply teardown_faceLoopId
                  | apply teardown_faceWorker | apply teardown_audioWorkletNode
                  | apply teardown_audioContext | apply teardown_recording
                  | apply teardown_stream ] | ]).
  apply teardown_videoElement.
Qed.







End TeardownProofs.

(** ** Order on binary64 numbers and the clamps *)

Section FloatOrder.
Import JS FaceWorker Ranges.
#[local] Open Scope float_scope.

Lemma SFcompare_refl (f : spec_float) :
  SFcompare f f = match f with S754_nan => None | _ => Some Eq end.
Proof.
  destruct f as [s|s| |s m e]; simpl; try destruct s; try reflexivity;
    rewrite Z.compare_refl, Pos.compare_cont_refl; reflexivity.
Qed.

Lemma SFcompare_None (f1 f2 : spec_float) :
  SFcompare f1 f2 = None -> f1 = S754_nan \/ f2 = S754_nan.
Proof.
  destruct f1 as [s1|s1| |s1 m1 e1], f2 as [s2|s2| |s2 m2 e2]; simpl;
    try discriminate; auto.
Qed.

Lemma is_nan_spec (x : float) :
  PrimFloat.is_nan x = true <-> Prim2SF x = S754_nan.
Proof.
  unfold PrimFloat.is_nan. rewrite eqb_spec. unfold SFeqb.
  rewrite SFcompare_refl. destruct (Prim2SF x); simpl; split; congruence.
Qed.

Lemma compare_not_nan (x y : float) :
  PrimFloat.is_nan x = false -> PrimFloat.is_nan y = false ->
  SFcompare (Prim2SF x) (Prim2SF y) <> None.
Proof.
  intros Hx Hy H. apply SFcompare_None in H as [H|H];
    apply is_nan_spec in H; congruence.
Qed.

Lemma ltb_leb (x y : float) : (x <? y) = true -> (x <=? y) = true.
Proof.
  rewrite ltb_spec, leb_spec. unfold SFltb, SFleb.
  destruct (SFcompare (Prim2SF x) (Prim2SF y)) as [[ | | ]|]; congruence.
Qed.

(** Neither below nor above, and comparable: equal as numbers. *)
Lemma not_ltb_leb (x y : float) :
  PrimFloat.is_nan x = false -> PrimFloat.is_nan y = false ->
  (y <? x) = false -> (x <=? y) = true.
Proof.
  intros Hx Hy. pose proof (compare_not_nan x y Hx Hy) as Hc.
  rewrite ltb_spec, leb_spec. unfold SFltb, SFleb.
  rewrite (SFcompare_antisym (Prim2SF x) (Prim2SF y)).
  destruct (SFcompare (Prim2SF x) (Prim2SF y)) as [[ | | ]|]; simpl; congruence.
Qed.

Lemma leb_refl (x : float) : PrimFloat.is_nan x = false -> (x <=? x) = true.
Proof.
  intros Hx. apply not_ltb_leb; try assumption.
  rewrite ltb_spec. unfold SFltb. rewrite SFcompare_refl.
  destruct (Prim2SF x); reflexivity.
Qed.

Lemma is_nan_nan : PrimFloat.is_nan PrimFloat.nan = true.
Proof. reflexivity. Qed.

(** [Math.max] answers [NaN] exactly on a [NaN] argument, and otherwise one
    of its arguments, which is at least both. *)
Lemma max_spec (a b : float) :
  (PrimFloat.is_nan a || PrimFloat.is_nan b = true /\ max a b = PrimFloat.nan)
  \/ (PrimFloat.is_nan a = false /\ PrimFloat.is_nan b = false
      /\ (max a b = a \/ max a b = b)
      /\ (a <=? max a b) = true /\ (b <=? max a b) = true).
Proof.
  unfold max. destruct (PrimFloat.is_nan a) eqn:Ha; [left; auto|].
  destruct (PrimFloat.is_nan b) eqn:Hb; [left; auto|]. right. simpl.
  repeat split.
  - destruct (a <? b); [auto|]. destruct (b <? a); [auto|].
    destruct (PrimFloat.get_sign a); auto.
  - destruct (a <? b) eqn:E1; [apply ltb_leb, E1|].
    destruct (b <? a) eqn:E2; [apply leb_refl, Ha|].
    destruct (PrimFloat.get_sign a); [apply not_ltb_leb | apply leb_refl]; auto.
  - destruct (a <? b) eqn:E1; [apply leb_refl, Hb|].
    destruct (b <? a) eqn:E2; [apply ltb_leb, E2|].
    destruct (PrimFloat.get_sign a); [apply leb_refl | apply not_ltb_leb]; auto.
Qed.

Lemma min_spec (a b : float) :
  (PrimFloat.is_nan a || PrimFloat.is_nan b = true /\ min a b = PrimFloat.nan)
  \/ (PrimFloat.is_nan a = false /\ PrimFloat.is_nan b = false
      /\ (min a b = a \/ min a b = b)
      /\ (min a b <=? a) = true /\ (min a b <=? b) = true).
Proof.
  unfold min. destruct (PrimFloat.is_nan a) eqn:Ha; [left; auto|].
  destruct (PrimFloat.is_nan b) eqn:Hb; [left; auto|]. right. simpl.
  repeat split.
  - destruct (a <? b); [auto|]. destruct (b <? a); [auto|].
    destruct (PrimFloat.get_sign a); auto.
  - destruct (a <? b) eqn:E1; [apply leb_refl, Ha|].
    destruct (b <? a) eqn:E2; [apply ltb_leb, E2|].
    destruct (PrimFloat.get_sign a); [apply leb_refl | apply not_ltb_leb]; auto.
  - destruct (a <? b) eqn:E1; [apply ltb_leb, E1|].
    destruct (b <? a) eqn:E2; [apply leb_refl, Hb|].
    destruct (PrimFloat.get_sign a); [apply not_ltb_leb | apply leb_refl]; auto.
Qed.


Lemma clamp_max_min (lo hi x : float) :
  PrimFloat.is_nan lo = false -> PrimFloat.is_nan hi = false ->
  (lo <=? hi) = true ->
  in_range lo hi (max lo (min hi x)).
Proof.
  intros Hlo Hhi Hle. unfold in_range.
  destruct (min_spec hi x) as [[_ ->]|(_ & Hx & Hy & Hyhi & _)].
  - destruct (max_spec lo PrimFloat.nan) as [[_ ->]|(_ & H & _)];
      [left; reflexivity | discriminate].
  - assert (Hn : PrimFloat.is_nan (min hi x) = false)
      by (destruct Hy as [-> | ->]; assumption).
    destruct (max_spec lo (min hi x)) as [[H _]|(_ & _ & Hr & Hlor & _)].
    + rewrite Hlo, Hn in H. discriminate.
    + right. rewrite Hlor. simpl. destruct Hr as [-> | ->]; assumption.
Qed.

Lemma clamp_min_max (lo hi x : float) :
  PrimFloat.is_nan lo = false -> PrimFloat.is_nan hi = false ->
  (lo <=? hi) = true ->
  in_range lo hi (min hi (max lo x)).
Proof.
  intros Hlo Hhi Hle. unfold in_range.
  destruct (max_spec lo x) as [[_ ->]|(_ & Hx & Hy & Hloy & _)].
  - destruct (min_spec hi PrimFloat.nan) as [[_ ->]|(_ & H & _)];
      [left; reflexivity | discriminate].
  - assert (Hn : PrimFloat.is_nan (max lo x) = false)
      by (destruct Hy as [-> | ->]; assumption).
    destruct (min_spec hi (max lo x)) as [[H _]|(_ & _ & Hr & Hrhi & _)].
    + rewrite Hhi, Hn in H. discriminate.
    + right. rewrite Hrhi, andb_true_r. destruct Hr as [-> | ->]; assumption.
Qed.

Lemma calculateHeadPose_range (lm : landmarks) :
  in_range (-90) 90 (fst (calculateHeadPose lm))
  /\ in_range (-45) 45 (snd (calculateHeadPose lm)).
Proof.
  unfold calculateHeadPose.
  destruct (length lm <? 10)%nat; [split; right; reflexivity|].
  destruct (nth_error lm NOSE_TIP), (nth_error lm NOSE_BRIDGE),
    (nth_error lm 33), (nth_error lm 362);
    try (split; right; reflexivity).
  split; apply clamp_max_min; reflexivity.
Qed.

(** X1.  Every result that [analyzeFrame] posts has a yaw within -90..90,
    a pitch within -45..45 and a smile within 0..1, or [NaN] in their place:
    the clamps bound every number but let [NaN] through. *)
Theorem face_result_within_ranges
        (d : detection) (t : Z) (s s' : state) (m : FaceAnalysisMessage) :
  analyzeFrame d t s = (Returned m, s') ->
  in_range (-90) 90 (yaw m) /\ in_range (-45) 45 (pitch m)
  /\ in_range 0 1 (smile m).
Proof.
  unfold analyzeFrame.
  destruct (negb (isInitialized s) || negb (faceMesh s)); [discriminate|].
  assert (N : in_range (-90) 90 (yaw neutral) /\ in_range (-45) 45 (pitch neutral)
              /\ in_range 0 1 (smile neutral))
    by (repeat split; right; reflexivity).
  destruct d as [| |[|lm faces]]; try (intros [= <- _]; exact N).
  pose proof (calculateHeadPose_range lm) as [Hy Hp].
  destruct (calculateHeadPose lm) as [y p].
  destruct (updateBlinkRate _ t s) as [b s1].
  destruct (calculateGazeJitter lm t s1) as [g s2].
  intros [= <- _]. simpl.
  repeat split; [exact Hy | exact Hp |].
  apply clamp_min_max; reflexivity.
Qed.

Lemma face_result_within_ranges_witness :
  match fst (analyzeFrame (DetectFaces [example_face true]) 1000 initialized) with
  | Returned m =>
      in_range (-90) 90 (yaw m) /\ in_range (-45) 45 (pitch m)
      /\ in_range 0 1 (smile m)
  | Thrown _ => False
  end.
Proof.
  pose proof (face_result_within_ranges (DetectFaces [example_face true]) 1000
                                        initialized) as H.
  destruct (analyzeFrame (DetectFaces [example_face true]) 1000 initialized)
    as [[m|e] s'] eqn:E; simpl.
  - apply (H s' m). reflexivity.
  - vm_compute in E. discriminate.
Defined.

End FloatOrder.

(** ** Rolling windows *)

Section RollingWindow.
Import JS FaceWorker BlinkWindow.

Lemma sorted_app {A} (R : A -> A -> Prop) (l1 l2 : list A) :
  StronglySorted R (l1 ++ l2)
  <-> StronglySorted R l1 /\ StronglySorted R l2
      /\ (forall x y, In x l1 -> In y l2 -> R x y).
Proof.
  induction l1 as [|a l1 IH]; simpl.
  - split; [intros H; repeat split; [constructor | exact H | tauto] | tauto].
  - split.
    + intros H. inversion H as [|? ? Hs Ha]; subst.
      apply IH in Hs as (H1 & H2 & H12). rewrite Forall_app in Ha.
      destruct Ha as [Ha1 Ha2]. rewrite Forall_forall in Ha2.
      repeat split; [constructor; assumption | assumption |].
      intros x y [<- | Hx] Hy; auto.
    + intros (H1 & H2 & H12). inversion H1 as [|? ? Hs Ha]; subst.
      constructor.
      * apply IH. repeat split; auto.
      * apply Forall_app. split; [assumption|].
        apply Forall_forall. intros y Hy. apply H12; auto.
Qed.

(** The eviction loop on a sorted buffer is a filter. *)
Lemma evict_sorted {A} (stamp : A -> Z) (cutoff : Z) (a : list A) :
  StronglySorted (fun x y => stamp x <= stamp y) a ->
  evict stamp cutoff a = filter (fun x => cutoff <=? stamp x) a.
Proof.
  induction 1 as [|h rest Hs IH Hh]; simpl; [reflexivity|].
  destruct (Z.ltb_spec (stamp h) cutoff) as [Hlt|Hge].
  - destruct (Z.leb_spec cutoff (stamp h)); [lia | exact IH].
  - destruct (Z.leb_spec cutoff (stamp h)); [|lia]. f_equal.
    symmetry. apply forallb_filter_id. apply forallb_forall.
    rewrite Forall_forall in Hh. intros x Hx. specialize (Hh x Hx).
    apply Z.leb_le. lia.
Qed.

(** X2.  On a buffer whose time stamps never decrease, the eviction loop
    ([while (a.length > 0 && a[0].t < cutoff) a.shift()]) leaves exactly the
    entries that are not older than the cutoff, in their order: nothing
    inside the window is lost and nothing older survives. *)
Theorem evict_keeps_window {A} (stamp : A -> Z) (cutoff : Z) (a : list A) :
  StronglySorted (fun x y => stamp x <= stamp y) a ->
  evict stamp cutoff a = filter (fun x => cutoff <=? stamp x) a
  /\ Forall (fun x => cutoff <= stamp x) (evict stamp cutoff a)
  /\ (forall x, In x a -> cutoff <= stamp x -> In x (evict stamp cutoff a)).
Proof.
  intros Hs. rewrite (evict_sorted stamp cutoff a Hs).
  split; [reflexivity|]. split.
  - apply Forall_forall. intros x Hx. apply filter_In in Hx as [_ Hx].
    apply Z.leb_le, Hx.
  - intros x Hx Hc. apply filter_In. split; [exact Hx | apply Z.leb_le, Hc].
Qed.

Lemma evict_keeps_window_witness :
  let a := [{| gx := 0; gy := 0; gt := 500 |}; {| gx := 0; gy := 0; gt := 5999 |};
            {| gx := 0; gy := 0; gt := 6000 |}; {| gx := 0; gy := 0; gt := 11000 |}] in
  evict gt 6000 a = filter (fun x => 6000 <=? gt x) a
  /\ Forall (fun x => 6000 <= gt x) (evict gt 6000 a)
  /\ (forall x, In x a -> 6000 <= gt x -> In x (evict gt 6000 a)).
Proof.
  intros a. apply (evict_keeps_window gt 6000 a).
  repeat constructor; simpl; lia.
Defined.


Lemma sorted_filter {A} (R : A -> A -> Prop) (p : A -> bool) (l : list A) :
  StronglySorted R l -> StronglySorted R (filter p l).
Proof.
  induction 1 as [|a l Hs IH Ha]; simpl; [constructor|].
  destruct (p a); [|exact IH]. constructor; [exact IH|].
  rewrite Forall_forall in *. intros x Hx. apply Ha.
  apply filter_In in Hx. tauto.
Qed.

Lemma updateBlinkRate_stamps (ear : float) (t : Z) (s : state) :
  StronglySorted Z.le (blinkTimestamps s ++ [t]) ->
  blinkTimestamps (snd (updateBlinkRate ear t s))
  = filter (fun b => t - 60000 <=? b)
           (blinkTimestamps s ++ blink_times (lastEyeAspectRatio s) [(ear, t)])
  /\ fst (updateBlinkRate ear t s)
     = length (blinkTimestamps (snd (updateBlinkRate ear t s)))
  /\ lastEyeAspectRatio (snd (updateBlinkRate ear t s)) = ear.
Proof.
  intros Hs. unfold updateBlinkRate. cbn [fst snd blinkTimestamps lastEyeAspectRatio].
  split; [|split; reflexivity].
  change (down_crossing (lastEyeAspectRatio s) ear)
    with (above (lastEyeAspectRatio s) && at_or_below ear).
  cbn [blink_times]. rewrite app_nil_r.
  destruct (above (lastEyeAspectRatio s) && at_or_below ear).
  - apply (evict_sorted (fun t => t)). exact Hs.
  - rewrite app_nil_r. apply (evict_sorted (fun t => t)).
    apply sorted_app in Hs. tauto.
Qed.

Lemma blink_run_rate (frames : list (float * Z)) :
  forall (s : state) (ear : float) (t : Z),
    StronglySorted Z.le (blinkTimestamps s ++ map snd frames ++ [t]) ->
    fst (updateBlinkRate ear t (blink_run frames s))
    = length (filter (fun b => t - 60000 <=? b)
                     (blinkTimestamps s
                      ++ blink_times (lastEyeAspectRatio s) (frames ++ [(ear, t)]))).
Proof.
  induction frames as [|[e t1] rest IH]; intros s ear t Hs.
  - simpl in Hs. destruct (updateBlinkRate_stamps ear t s Hs) as (H1 & H2 & _).
    cbn [blink_run app]. rewrite H2, H1. reflexivity.
  - cbn [blink_run map app] in *.
    assert (Hs1 : StronglySorted Z.le (blinkTimestamps s ++ [t1])).
    { apply sorted_app in Hs as (A & B & C). apply sorted_app.
      repeat split; [exact A | repeat constructor |].
      intros x y Hx [<- | []]. apply C; [exact Hx | left; reflexivity]. }
    destruct (updateBlinkRate_stamps e t1 s Hs1) as (H1 & _ & H3).
    rewrite IH.
    + assert (W : forall b, (t - 60000 <=? b) = true -> (t1 - 60000 <=? b) = true).
      { intros b Hb. apply Z.leb_le in Hb. apply Z.leb_le.
        apply sorted_app in Hs as (_ & B & _). inversion B as [|? ? _ F]; subst.
        rewrite Forall_app in F. destruct F as [_ F]. inversion F; subst.
        simpl in *. lia. }
      rewrite H1, H3. cbn [blink_times]. rewrite app_nil_r.
      rewrite (app_assoc (blinkTimestamps s)), !filter_app.
      rewrite !(filter_filter_weaker _ _ _ W). reflexivity.
    + rewrite H1. apply sorted_app in Hs as (A & B & C).
      inversion B as [|? ? B' F]; subst. apply sorted_app.
      split; [|split; [exact B'|]].
      * apply sorted_filter. cbn [blink_times]. rewrite app_nil_r.
        destruct (above (lastEyeAspectRatio s) && at_or_below e);
          [exact Hs1 | rewrite app_nil_r; exact A].
      * intros x y Hx Hy. apply filter_In in Hx as [Hx _].
        cbn [blink_times] in Hx. rewrite app_nil_r in Hx.
        rewrite Forall_forall in F.
        apply in_app_or in Hx as [Hx|Hx].
        -- apply Z.le_trans with t1; [apply C; [exact Hx | left; reflexivity]|].
           apply F, Hy.
        -- destruct (above (lastEyeAspectRatio s) && at_or_below e);
             [destruct Hx as [<- | []]; apply F, Hy | destruct Hx].
Qed.

(** X3.  With a clock that never runs backwards and no blink on record at
    the start, the blinks-per-minute value that [updateBlinkRate] returns is
    the number of blinks, among all frames so far, detected no more than 60
    seconds before the current frame. *)
Theorem blink_rate_counts_last_minute
        (frames : list (float * Z)) (ear : float) (t : Z) (s : state) :
  blinkTimestamps s = [] ->
  StronglySorted Z.le (map snd frames ++ [t]) ->
  fst (updateBlinkRate ear t (blink_run frames s))
  = length (filter (fun b => t - 60000 <=? b)
                   (blink_times (lastEyeAspectRatio s) (frames ++ [(ear, t)]))).
Proof.
  intros E Hs. rewrite blink_run_rate; rewrite E; [reflexivity | exact Hs].
Qed.

Lemma blink_rate_counts_last_minute_witness :
  fst (updateBlinkRate 0.1 61000
         (blink_run [(0.2%float, 0); (0.6%float, 500); (0.1%float, 1000);
                     (0.7%float, 30000); (0.25%float, 30500);
                     (0.5%float, 60000)] initialized))
  = 3%nat.
Proof.
  apply (blink_rate_counts_last_minute
           [(0.2%float, 0); (0.6%float, 500); (0.1%float, 1000);
            (0.7%float, 30000); (0.25%float, 30500); (0.5%float, 60000)]
           0.1 61000 initialized);
    [reflexivity | repeat constructor; simpl; lia].
Defined.

End RollingWindow.

(** ** Faces with too few landmarks *)

Section SparseFace.
Import JS FaceWorker.
#[local] Open Scope float_scope.

Lemma nth_error_beyond {A} (l : list A) (n i : nat) :
  (length l <= n)%nat -> (n <= i)%nat -> nth_error l i = None.
Proof. intros H1 H2. apply nth_error_None. lia. Qed.

Lemma sparse_eyes_open (lm : landmarks) :
  (length lm <= 160)%nat ->
  calculateEAR (pick lm LEFT_EYE_INDICES) = 1
  /\ calculateEAR (pick lm RIGHT_EYE_INDICES) = 1.
Proof.
  intros H. unfold pick, LEFT_EYE_INDICES, RIGHT_EYE_INDICES. cbn [flat_map].
  rewrite (nth_error_beyond lm 160 160), (nth_error_beyond lm 160 362),
    (nth_error_beyond lm 160 385), (nth_error_beyond lm 160 387),
    (nth_error_beyond lm 160 263), (nth_error_beyond lm 160 373),
    (nth_error_beyond lm 160 380) by (assumption || lia).
  split; [|reflexivity].
  destruct (nth_error lm 33), (nth_error lm 158), (nth_error lm 133),
    (nth_error lm 153), (nth_error lm 144); reflexivity.
Qed.

Lemma sparse_mouth_flat (lm : landmarks) :
  (length lm <= 160)%nat -> calculateMAR (pick lm MOUTH_INDICES) = 0.
Proof.
  intros H. unfold pick, MOUTH_INDICES. cbn [flat_map].
  rewrite (nth_error_beyond lm 160 291) by (assumption || lia).
  destruct (nth_error lm 61), (nth_error lm 0), (nth_error lm 17); reflexivity.
Qed.

Lemma sparse_head_straight (lm : landmarks) :
  (length lm <= 160)%nat -> calculateHeadPose lm = (0, 0).
Proof.
  intros H. unfold calculateHeadPose.
  rewrite (nth_error_beyond lm 160 362) by (assumption || lia).
  destruct (length lm <? 10)%nat; [reflexivity|].
  destruct (nth_error lm NOSE_TIP), (nth_error lm NOSE_BRIDGE), (nth_error lm 33);
    reflexivity.
Qed.

(** X4.  A detected face with at most 160 landmarks, too few to hold both
    eyes, the mouth and the second eye corner, is analysed as a neutral
    face: yaw, pitch, smile and gaze jitter are 0, the eyes count as open
    (aspect ratio 1), so no blink is counted, and no gaze position is
    recorded; the blinks-per-minute value is the number of blinks still
    inside the window. *)
Theorem sparse_face_is_neutral
        (lm : landmarks) (faces : list landmarks) (t : Z) (s : state) :
  isInitialized s = true -> faceMesh s = true ->
  (length lm <= 160)%nat ->
  let '(r, s') := analyzeFrame (DetectFaces (lm :: faces)) t s in
  r = Returned {| yaw := 0; pitch := 0;
                  blinkPerMin := length (blinkTimestamps s');
                  smile := 0; gazeJitter := 0 |}
  /\ blinkCount s' = blinkCount s
  /\ lastEyeAspectRatio s' = 1
  /\ gazePositions s' = gazePositions s
  /\ blinkTimestamps s'
     = evict (fun b => b) (t - 60000) (blinkTimestamps s).
Proof.
  intros Hi Hm Hl. unfold analyzeFrame. rewrite Hi, Hm. simpl negb. simpl orb.
  cbv iota.
  rewrite (sparse_head_straight lm Hl).
  destruct (sparse_eyes_open lm Hl) as [-> ->].
  rewrite (sparse_mouth_flat lm Hl).
  unfold calculateGazeJitter.
  replace (length lm <? 400)%nat with true
    by (symmetry; apply Nat.ltb_lt; lia).
  unfold updateBlinkRate.
  replace (down_crossing (lastEyeAspectRatio s) ((1 + 1) / 2)) with false
    by (unfold down_crossing; rewrite andb_comm; reflexivity).
  repeat split.
Qed.

Lemma sparse_face_is_neutral_witness :
  let '(r, s') :=
    analyzeFrame (DetectFaces [firstn 100 (example_face false)]) 70000
                 (snd (analyzeFrame (DetectFaces [example_face false]) 1000
                                    initialized)) in
  r = Returned {| yaw := 0; pitch := 0;
                  blinkPerMin := length (blinkTimestamps s');
                  smile := 0; gazeJitter := 0 |}
  /\ blinkCount s'
     = blinkCount (snd (analyzeFrame (DetectFaces [example_face false]) 1000
                                     initialized))
  /\ lastEyeAspectRatio s' = 1
  /\ gazePositions s'
     = gazePositions (snd (analyzeFrame (DetectFaces [example_face false]) 1000
                                        initialized))
  /\ blinkTimestamps s'
     = evict (fun b => b) (70000 - 60000)
             (blinkTimestamps
                (snd (analyzeFrame (DetectFaces [example_face false]) 1000
                                   initialized))).
Proof.
  apply (sparse_face_is_neutral
           (firstn 100 (example_face false)) [] 70000
           (snd (analyzeFrame (DetectFaces [example_face false]) 1000
                              initialized)));
    [reflexivity | reflexivity | vm_compute; lia].
Defined.

End SparseFace.

(** ** The worklet's pitch band and frame buffer *)

Section WorkletMore.
Import JS Worklet.
#[local] Open Scope float_scope.

Lemma pitch_loop_best (samples : list float) (periods : list nat) :
  forall acc : float * nat,
    snd (fold_left (pitch_step samples) periods acc) = snd acc
    \/ In (snd (fold_left (pitch_step samples) periods acc)) periods.
Proof.
  induction periods as [|p ps IH]; intros acc; simpl; [left; reflexivity|].
  destruct (IH (pitch_step samples acc p)) as [H|H]; [|right; right; exact H].
  rewrite H. unfold pitch_step.
  destruct (fst acc <? autocorr samples p); [right; left | left]; reflexivity.
Qed.

(** X5.  [computePitch] answers 0, or the sample rate divided by a lag
    that lies in the searched band, from [sampleRate / 400] to
    [sampleRate / 75] samples: it never reports a period outside the band. *)
Theorem pitch_zero_or_in_band (samples : list float) (sampleRate : Z) :
  computePitch samples sampleRate = 0
  \/ exists period : nat,
       (Z.to_nat (sampleRate / 400) <= period <= Z.to_nat (sampleRate / 75))%nat
       /\ period <> 0%nat
       /\ computePitch samples sampleRate
          = float_of_Z sampleRate / float_of_nat period.
Proof.
  unfold computePitch, MAX_PITCH_HZ, MIN_PITCH_HZ.
  generalize (Z.to_nat (sampleRate / 400)) as lo.
  generalize (Z.to_nat (sampleRate / 75)) as hi. intros hi lo.
  pose proof (pitch_loop_best samples (seq lo (S hi - lo)) (0, 0%nat)) as H.
  destruct (fold_left (pitch_step samples) (seq lo (S hi - lo)) (0, 0%nat))
    as [maxCorr best].
  cbn [snd] in H.
  destruct (maxCorr <? _); [left; reflexivity|]. cbn [orb].
  destruct (Nat.eqb_spec best 0) as [E|E]; [left; reflexivity|].
  right. exists best. destruct H as [H|H]; [congruence|].
  apply in_seq in H. repeat split; [lia | lia | exact E].
Qed.

Lemma write_length (l : list float) (i : nat) (v : float) :
  length (write l i v) = length l.
Proof.
  revert i. induction l as [|h l IH]; intros [|i]; simpl; auto.
Qed.

(** X6.  However a stream of samples is cut into [process] calls, the
    processor ends in the same state and posts the same messages. *)
Theorem process_chunking (xs ys : list float) (sampleRate : Z) (p : processor) :
  process (xs ++ ys) sampleRate p
  = (fst (process ys sampleRate (fst (process xs sampleRate p))),
     snd (process xs sampleRate p)
     ++ snd (process ys sampleRate (fst (process xs sampleRate p)))).
Proof.
  revert p. induction xs as [|x xs IH]; intros p.
  - simpl. destruct (process ys sampleRate p); reflexivity.
  - cbn [app process].
    destruct (bufferSize <=? S (bufferIndex p))%nat.
    + rewrite IH.
      destruct (process xs sampleRate _) as [p1 o1]. reflexivity.
    + apply IH.
Qed.

(** X7.  A processor whose write index is inside the frame keeps it
    inside, keeps the frame length, and posts one message for each time the
    samples received fill the 2400-sample frame. *)
Theorem process_posts_one_message_per_frame
        (xs : list float) (sampleRate : Z) (p : processor) :
  (bufferIndex p < bufferSize)%nat ->
  let '(p', out) := process xs sampleRate p in
  bufferIndex p' = ((bufferIndex p + length xs) mod bufferSize)%nat
  /\ length out = ((bufferIndex p + length xs) / bufferSize)%nat
  /\ length (buffer p') = length (buffer p).
Proof.
  assert (Hpos : bufferSize <> 0%nat) by discriminate.
  revert p. induction xs as [|x xs IH]; intros p Hp.
  - cbn [process length].
    rewrite Nat.add_0_r, Nat.mod_small, Nat.div_small by exact Hp. auto.
  - cbn [process length].
    destruct (Nat.leb_spec bufferSize (S (bufferIndex p))) as [Hfull|Hroom].
    + specialize (IH {| buffer := write (buffer p) (bufferIndex p) x;
                        bufferIndex := 0 |}).
      cbn [bufferIndex buffer] in IH.
      destruct (process xs sampleRate _) as [p' out].
      destruct IH as (I1 & I2 & I3); [lia|].
      rewrite write_length in I3. cbn [length].
      assert (E : (bufferIndex p + S (length xs) = length xs + 1 * bufferSize)%nat)
        by lia.
      rewrite E, Nat.Div0.mod_add, Nat.div_add by exact Hpos.
      rewrite Nat.add_0_l in I1, I2. repeat split; [exact I1 | lia | exact I3].
    + specialize (IH {| buffer := write (buffer p) (bufferIndex p) x;
                        bufferIndex := S (bufferIndex p) |}).
      cbn [bufferIndex buffer] in IH.
      destruct (process xs sampleRate _) as [p' out].
      destruct IH as (I1 & I2 & I3); [exact Hroom|].
      rewrite write_length in I3.
      replace (bufferIndex p + S (length xs))%nat
        with (S (bufferIndex p) + length xs)%nat by lia.
      auto.
Qed.

Lemma process_posts_one_message_per_frame_witness :
  let '(p', out) := process (repeat 0.5%float 5000%nat) 48000 new_processor in
  bufferIndex p' = ((bufferIndex new_processor + length (repeat 0.5%float 5000%nat))
                    mod bufferSize)%nat
  /\ length out = ((bufferIndex new_processor + length (repeat 0.5%float 5000%nat))
                   / bufferSize)%nat
  /\ length (buffer p') = length (buffer new_processor).
Proof.
  apply (process_posts_one_message_per_frame (repeat 0.5%float 5000%nat) 48000 new_processor).
  unfold new_processor, bufferSize. cbn [bufferIndex]. lia.
Defined.

End WorkletMore.

(** ** The pipeline cache *)

Section PipelineCache.
Import JS GoEmotions ClassifierSessions.

Lemma classifyEmotions_cached
      (w : world) (text : js_string) (threshold : Q) (s : state) (pipe : pipeline) :
  pipePromise s = Some pipe ->
  snd (fst (classifyEmotions w text threshold s)) = s
  /\ loads (snd (classifyEmotions w text threshold s)) = 0%nat.
Proof.
  intros H. unfold classifyEmotions, classifyGoEmotions, initGoEmotions.
  destruct (blank text); [split; reflexivity|]. rewrite H.
  destruct (pipe text); split; reflexivity.
Qed.

(** X8.  Once a pipeline is cached, no later call loads the model again or
    changes the cache, whatever the texts, whatever the world, and whether
    or not the model then fails on a text. *)
Theorem cached_pipeline_never_reloaded
        (calls : list (world * js_string)) (threshold : Q) (s : state)
        (pipe : pipeline) :
  pipePromise s = Some pipe ->
  fst (classify_all calls threshold s) = s
  /\ loads (snd (classify_all calls threshold s)) = 0%nat.
Proof.
  intros H. induction calls as [|[w text] rest IH]; [split; reflexivity|].
  cbn [classify_all].
  destruct (classifyEmotions_cached w text threshold s pipe H) as [E1 E2].
  destruct (classifyEmotions w text threshold s) as [[r s1] fx].
  cbn [fst snd] in E1, E2. subst s1.
  destruct (classify_all rest threshold s) as [s2 fx'].
  cbn [fst snd] in *. unfold loads in *.
  rewrite filter_app, length_app. destruct IH as [-> ->]. split; [reflexivity|lia].
Qed.

Lemma cached_pipeline_never_reloaded_witness :
  let pipe : pipeline :=
    fun text => match text with
                | 33%N :: _ => Thrown "model error"
                | _ => Returned example_scores
                end in
  let s := {| pipePromise := Some pipe; pipeReady := true |} in
  let calls :=
    [({| has_window := true; load := Thrown "offline" |}, str "well done");
     ({| has_window := false; load := Thrown "offline" |}, str "!?");
     ({| has_window := true; load := Returned pipe |}, str "thanks")] in
  fst (classify_all calls threshold_030 s) = s
  /\ loads (snd (classify_all calls threshold_030 s)) = 0%nat.
Proof.
  intros pipe s calls.
  apply (cached_pipeline_never_reloaded calls threshold_030 s pipe).
  reflexivity.
Defined.


Lemma classifyEmotions_ready
      (w : world) (text : js_string) (threshold : Q) (s : state) :
  pipeReady s = cached s ->
  pipeReady (snd (fst (classifyEmotions w text threshold s)))
  = cached (snd (fst (classifyEmotions w text threshold s))).
Proof.
  intros H. unfold classifyEmotions, classifyGoEmotions, initGoEmotions.
  destruct (blank text); [exact H|].
  destruct (pipePromise s) as [pipe|] eqn:E.
  - destruct (pipe text); exact H.
  - destruct (has_window w); simpl; [|exact H].
    destruct (load w) as [pipe|e]; simpl; [|reflexivity].
    destruct (pipe (str "ok")); simpl; [|reflexivity].
    destruct (pipe text); reflexivity.
Qed.

(** X10.  After any calls from the uninitialised module, in any worlds,
    the ready flag ([isGoEmotionsReady()]) is set exactly when a pipeline is
    cached. *)
Theorem ready_flag_tells_cached
        (calls : list (world * js_string)) (threshold : Q) :
  pipeReady (fst (classify_all calls threshold uninitialized))
  = cached (fst (classify_all calls threshold uninitialized)).
Proof.
  assert (G : forall s, pipeReady s = cached s ->
                        pipeReady (fst (classify_all calls threshold s))
                        = cached (fst (classify_all calls threshold s))).
  { induction calls as [|[w text] rest IH]; intros s H; [exact H|].
    cbn [classify_all].
    pose proof (classifyEmotions_ready w text threshold s H) as H1.
    destruct (classifyEmotions w text threshold s) as [[r s1] fx].
    cbn [fst snd] in H1. specialize (IH s1 H1).
    destruct (classify_all rest threshold s1) as [s2 fx']. exact IH. }
  apply G. reflexivity.
Qed.

End PipelineCache.

(** ** The order of the classification output *)

Section PickOrder.
Import JS GoEmotions.

(** X11.  For a score list with pairwise distinct labels, the output of
    the selection is in decreasing order of score, and its first entry, if
    any, has the highest score of the whole list. *)
Theorem pick_by_decreasing_score
        (raw : list Emotion) (threshold : Q) (topK : nat) :
  NoDup (map label raw) ->
  StronglySorted no_lower (pick raw threshold topK)
  /\ forall top rest,
       pick raw threshold topK = top :: rest ->
       forall e, In e raw -> (score e <= score top)%Q.
Proof.
  intros Hnd. rewrite (pick_is_prefix raw threshold topK Hnd). cbv zeta.
  set (n := Nat.max _ _). clearbody n.
  pose proof (sort_desc_sorted raw) as Hs.
  pose proof (sort_desc_perm raw) as Hp.
  split.
  - rewrite <- (firstn_skipn n (sort_desc raw)) in Hs.
    apply sorted_app in Hs. tauto.
  - intros top rest E e He.
    assert (He' : In e (sort_desc raw))
      by (eapply Permutation_in; [apply Permutation_sym|]; eassumption).
    destruct (sort_desc raw) as [|x l]; [destruct He'|].
    destruct n as [|n]; [discriminate|]. cbn [firstn] in E.
    injection E as <- _. inversion Hs as [|? ? _ F]; subst.
    destruct He' as [<- | He']; [apply Qle_refl|].
    rewrite Forall_forall in F. exact (F e He').
Qed.

Lemma pick_by_decreasing_score_witness :
  StronglySorted no_lower (pick example_scores threshold_030 3)
  /\ forall top rest,
       pick example_scores threshold_030 3 = top :: rest ->
       forall e, In e example_scores -> (score e <= score top)%Q.
Proof.
  exact (pick_by_decreasing_score example_scores threshold_030 3
                                  example_scores_distinct).
Defined.

End PickOrder.

(** ** Stopping twice, and stopping again after a failed stop *)

Section StopAgain.
Import JS Teardown StopInvariants.

Lemma always_bind (P : handles -> Prop) (a b : M unit) :
  always P a -> always P b -> always P (a ;; b).
Proof.
  intros Ha Hb m Hm. unfold bind. specialize (Ha m Hm).
  destruct (a m) as [[[]|e] m1]; simpl in *; [apply Hb|]; assumption.
Qed.

Lemma always_when (P : handles -> Prop) (test : handles -> bool) (c : M unit) :
  always P c -> always P (when test c).
Proof.
  intros Hc m Hm. unfold when. destruct (test (vars m)); [apply Hc|]; assumption.
Qed.

Lemma always_external (P : handles -> Prop) (env : environment) (c : call) :
  always P (external env c).
Proof. intros m Hm. unfold external. destruct (env c); assumption. Qed.

Lemma always_console (P : handles -> Prop) (l : console_line) :
  always P (write_console l).
Proof. intros m Hm. assumption. Qed.

Lemma always_assign (P : handles -> Prop) (f : handles -> handles) :
  (forall h, P h -> P (f h)) -> always P (assign f).
Proof. intros Hf m Hm. apply Hf, Hm. Qed.

Lemma always_try (P : handles -> Prop) (c handler : M unit) :
  always P c -> always P handler -> always P (try_catch c handler).
Proof.
  intros Hc Hh m Hm. unfold try_catch. specialize (Hc m Hm).
  destruct (c m) as [[[]|e] m1]; simpl in *; [|apply Hh]; assumption.
Qed.




(** X12.  [stop()] is idempotent: after a [stop()] that returned, the next
    one returns at its guard without a single call, console line or change
    of a variable. *)
Theorem stop_after_stop_does_nothing
        (env env' : environment) (now now' : Z) (m : machine) :
  fst (stop env now m) = Returned tt ->
  stop env' now' (snd (stop env now m)) = (Returned tt, snd (stop env now m)).
Proof.
  unfold stop.
  destruct (negb (isRunning (vars m)) && negb (is_some (stream (vars m)))) eqn:G.
  - simpl. rewrite G. reflexivity.
  - intros R. pose proof (teardown_released env now m I) as Hrel.
    destruct (teardown env now m) as [[[]|e] m1]; [|discriminate].
    destruct Hrel as (Hr & _ & _ & _ & _ & _ & _ & _ & Hs & _).
    simpl. rewrite Hr, Hs. reflexivity.
Qed.

Lemma stop_after_stop_does_nothing_witness :
  stop no_errors 9000 (snd (stop no_errors 5000 running_session))
  = (Returned tt, snd (stop no_errors 5000 running_session)).
Proof.
  apply (stop_after_stop_does_nothing no_errors no_errors 5000 9000
                                      running_session).
  reflexivity.
Defined.



(** When detaching the video sink raises, the stream is gone and the flag
    is cleared, so the sink stays attached through every later [stop()]. *)
Example video_sink_stays_attached :
  let m1 := snd (stop (call_eqb VideoDetach) 5000 running_session) in
  fst (stop (call_eqb VideoDetach) 5000 running_session)
  = Thrown "error raised by the call"
  /\ videoElement (vars m1) = Some true
  /\ stop no_errors 9000 m1 = (Returned tt, m1).
Proof. vm_compute. repeat split. Qed.

End StopAgain.

(** ** Words: what [onFinal] records and what the summary counts *)

Section WordsProofs.
Import JS Session Words.

Lemma nonempty_rev (cur : js_string) :
  filter nonempty [rev cur] = emit cur.
Proof.
  destruct cur as [|c cur]; [reflexivity|].
  unfold emit. simpl. unfold nonempty. rewrite length_app. simpl.
  destruct (Nat.ltb_spec 0 (length (rev cur) + 1)); [reflexivity | lia].
Qed.

(** The non-empty pieces of a split are the runs. *)
Lemma split_spaces_runs (s : js_string) :
  forall (cur : js_string) (in_run : bool),
    (in_run = true -> cur = []) ->
    filter nonempty (split_spaces s cur in_run) = runs s cur.
Proof.
  induction s as [|c rest IH]; intros cur in_run H.
  - apply nonempty_rev.
  - cbn [split_spaces runs]. destruct (is_space c).
    + destruct in_run.
      * rewrite (H eq_refl). apply IH. reflexivity.
      * change (rev cur :: split_spaces rest [] true)
          with ([rev cur] ++ split_spaces rest [] true).
        rewrite filter_app, nonempty_rev. f_equal. apply IH. reflexivity.
    + apply IH. discriminate.
Qed.

Lemma runs_at_space (a b : js_string) (c : code_unit) :
  is_space c = true ->
  forall cur, runs (a ++ c :: b) cur = runs a cur ++ runs b [].
Proof.
  intros Hc. induction a as [|x a IH]; intros cur.
  - simpl. rewrite Hc. reflexivity.
  - simpl. destruct (is_space x).
    + rewrite IH, app_assoc. reflexivity.
    + apply IH.
Qed.

Lemma runs_trailing_space (a : js_string) (c : code_unit) (cur : js_string) :
  is_space c = true -> runs (a ++ [c]) cur = runs a cur.
Proof. intros Hc. rewrite (runs_at_space a [] c Hc). apply app_nil_r. Qed.

Lemma runs_drop_spaces (s : js_string) : runs (drop_spaces s) [] = runs s [].
Proof.
  induction s as [|c rest IH]; [reflexivity|]. simpl.
  destruct (is_space c) eqn:E; [exact IH|]. simpl. rewrite E. reflexivity.
Qed.

Lemma runs_drop_trailing (l : js_string) (cur : js_string) :
  runs (rev (drop_spaces l)) cur = runs (rev l) cur.
Proof.
  induction l as [|c rest IH]; [reflexivity|]. simpl.
  destruct (is_space c) eqn:E; [|reflexivity].
  rewrite IH. symmetry. apply runs_trailing_space, E.
Qed.

Lemma runs_trim (s : js_string) : runs (trim s) [] = runs s [].
Proof.
  unfold trim. rewrite runs_drop_trailing, rev_involutive.
  apply runs_drop_spaces.
Qed.

(** The non-empty words that [onFinal] records are the runs of the text. *)
Lemma words_of_runs (text : js_string) :
  filter nonempty (words_of text) = runs text [].
Proof.
  unfold words_of, split_ws. rewrite split_spaces_runs by discriminate.
  apply runs_trim.
Qed.

Lemma onFinal_runs (text : js_string) (now : Z) (s : state) :
  runs (transcriptFinal (onFinal text now s)) []
  = runs (transcriptFinal s) [] ++ runs text [].
Proof.
  cbn [onFinal transcriptFinal].
  destruct (transcriptFinal s) as [|c old]; [reflexivity|].
  change (str " ") with [32%N]. cbn [app].
  change (c :: old ++ 32%N :: text) with ((c :: old) ++ 32%N :: text).
  apply runs_at_space. reflexivity.
Qed.

Lemma step_transcript_runs (asr : bool) (i : input) (s : state) :
  runs (transcriptFinal (snd (step asr i s))) []
  = runs (transcriptFinal s) []
    ++ filter nonempty (map fst (recorded_words [i])).
Proof.
  destruct i as [m|m|text|text now|es|now]; cbn [step snd recorded_words];
    try (cbn [onAudioMessage onFaceMessage onInterim onEmotions transcriptFinal
              map filter];
         rewrite app_nil_r; reflexivity).
  - rewrite onFinal_runs, app_nil_r, map_map. cbn [fst].
    rewrite map_id, words_of_runs. reflexivity.
  - unfold publishMetrics.
    destruct (if asr then calculateWPM now (wordTimestamps s)
              else (0, wordTimestamps s)) as [w ws].
    cbn [snd transcriptFinal map filter]. rewrite app_nil_r. reflexivity.
Qed.

Lemma recorded_words_cons (i : input) (rest : list input) :
  recorded_words (i :: rest) = recorded_words [i] ++ recorded_words rest.
Proof. destruct i; simpl; try reflexivity. rewrite app_nil_r. reflexivity. Qed.

Lemma run_transcript_runs (asr : bool) (inputs : list input) :
  forall s : state,
    runs (transcriptFinal (snd (run asr inputs s))) []
    = runs (transcriptFinal s) []
      ++ filter nonempty (map fst (recorded_words inputs)).
Proof.
  induction inputs as [|i rest IH]; intros s.
  - simpl. rewrite app_nil_r. reflexivity.
  - rewrite run_cons. cbn [snd]. rewrite IH, step_transcript_runs.
    rewrite (recorded_words_cons i rest), map_app, filter_app, app_assoc.
    reflexivity.
Qed.

(** X14.  The word count of the session summary, taken by splitting the
    whole transcript, is the number of non-empty words that the [onFinal]
    callbacks recorded one text at a time, whatever the ticks in between
    removed from the word list; the words are the same, in the same order. *)
Theorem summary_counts_recorded_words
        (asr : bool) (inputs : list input) (now0 : Z) :
  let s := snd (run asr inputs (started now0)) in
  filter nonempty (split_ws (transcriptFinal s))
  = filter nonempty (map fst (recorded_words inputs))
  /\ word_count (summary_transcript s)
     = length (filter (fun w => nonempty (fst w)) (recorded_words inputs)).
Proof.
  intros s.
  assert (H : filter nonempty (split_ws (transcriptFinal s))
              = filter nonempty (map fst (recorded_words inputs))).
  { unfold split_ws. rewrite split_spaces_runs by discriminate.
    unfold s. rewrite run_transcript_runs. reflexivity. }
  split; [exact H|].
  cbn [summary_transcript word_count]. rewrite H.
  generalize (recorded_words inputs). intros l.
  induction l as [|w l IH]; [reflexivity|]. simpl.
  destruct (nonempty (fst w)); simpl; rewrite IH; reflexivity.
Qed.

(** *** The shape of the recorded words *)

Lemma drop_spaces_head (s : js_string) :
  match drop_spaces s with
  | c :: _ => is_space c = false
  | [] => True
  end.
Proof.
  induction s as [|c rest IH]; [exact I|]. simpl.
  destruct (is_space c) eqn:E; [exact IH | exact E].
Qed.

Lemma drop_spaces_snoc (l : js_string) (x : code_unit) :
  is_space x = false -> drop_spaces (l ++ [x]) = drop_spaces l ++ [x].
Proof.
  intros Hx. induction l as [|c l IH]; simpl.
  - rewrite Hx. reflexivity.
  - destruct (is_space c); [exact IH | reflexivity].
Qed.

(** A trimmed text is empty or begins and ends with a unit that is not
    white space. *)
Lemma trim_ends (s : js_string) :
  match trim s with
  | c :: _ => is_space c = false
  | [] => True
  end
  /\ match rev (trim s) with
     | c :: _ => is_space c = false
     | [] => True
     end.
Proof.
  unfold trim. split.
  - pose proof (drop_spaces_head s) as H.
    destruct (drop_spaces s) as [|x d]; [exact I|].
    simpl. rewrite (drop_spaces_snoc _ _ H), rev_app_distr. exact H.
  - rewrite rev_involutive. apply drop_spaces_head.
Qed.

Lemma split_spaces_nonempty (s : js_string) :
  forall (cur : js_string) (in_run : bool),
    match rev s with c :: _ => is_space c = false | [] => True end ->
    cur <> [] \/ (in_run = true /\ s <> []) ->
    Forall (fun w => w <> []) (split_spaces s cur in_run).
Proof.
  induction s as [|c rest IH]; intros cur in_run He Hc.
  - destruct Hc as [Hc|[_ Hc]]; [|congruence].
    constructor; [|constructor]. intros E. apply Hc.
    rewrite <- (rev_involutive cur), E. reflexivity.
  - assert (Hrest : rest <> [] ->
                    match rev rest with c0 :: _ => is_space c0 = false | [] => True end).
    { intros Hn. simpl in He. destruct (rev rest) as [|y r] eqn:E.
      - apply (f_equal (@rev _)) in E. rewrite rev_involutive in E.
        simpl in E. congruence.
      - exact He. }
    cbn [split_spaces]. destruct (is_space c) eqn:Ec.
    + assert (Hn : rest <> []).
      { intros ->. simpl in He. congruence. }
      destruct in_run.
      * apply IH; [apply Hrest, Hn | right; split; [reflexivity | exact Hn]].
      * destruct Hc as [Hc|[Hc _]]; [|discriminate].
        constructor.
        -- intros E. apply Hc. rewrite <- (rev_involutive cur), E. reflexivity.
        -- apply IH; [apply Hrest, Hn | right; split; [reflexivity | exact Hn]].
    + apply IH; [|left; discriminate].
      destruct rest as [|y rest']; [exact I | apply Hrest; discriminate].
Qed.

Lemma split_spaces_space_free (s : js_string) :
  forall (cur : js_string) (in_run : bool),
    space_free cur = true ->
    Forall (fun w => space_free w = true) (split_spaces s cur in_run).
Proof.
  assert (R : forall cur, space_free cur = true -> space_free (rev cur) = true).
  { intros cur H. unfold space_free in *. rewrite forallb_forall in *.
    intros x Hx. apply H, in_rev, Hx. }
  induction s as [|c rest IH]; intros cur in_run Hcur.
  - constructor; [apply R, Hcur | constructor].
  - cbn [split_spaces]. destruct (is_space c) eqn:Ec.
    + destruct in_run; [apply IH, Hcur|].
      constructor; [apply R, Hcur | apply IH; reflexivity].
    + apply IH. unfold space_free. simpl. rewrite Ec. exact Hcur.
Qed.

Lemma split_spaces_some (s cur : js_string) (in_run : bool) :
  split_spaces s cur in_run <> [].
Proof.
  revert cur in_run. induction s as [|c rest IH]; intros cur in_run;
    cbn [split_spaces]; [discriminate|].
  destruct (is_space c); [destruct in_run|]; try apply IH. discriminate.
Qed.

Lemma words_of_blank (text : js_string) :
  blank text = true -> words_of text = [[]].
Proof.
  unfold blank, words_of, split_ws.
  destruct (trim text); [reflexivity | discriminate].
Qed.

(** X15.  The words that [onFinal] records for a text.  A text that is
    empty or all white space still yields one word, the empty string; any
    other text yields at least one word, and each of its words is non-empty
    and free of white space. *)
Theorem recorded_words_shape (text : js_string) :
  (blank text = true -> words_of text = [[]])
  /\ (blank text = false ->
      words_of text <> []
      /\ Forall (fun w => w <> [] /\ space_free w = true) (words_of text)).
Proof.
  unfold blank, words_of, split_ws.
  pose proof (trim_ends text) as [Hh Ht].
  destruct (trim text) as [|c t] eqn:E.
  - split; [reflexivity | discriminate].
  - split; [discriminate|]. intros _.
    cbn [split_spaces]. rewrite Hh.
    assert (Ht' : match rev t with c0 :: _ => is_space c0 = false | [] => True end).
    { simpl in Ht. destruct (rev t) as [|y r]; [exact I | exact Ht]. }
    assert (H1 : Forall (fun w => w <> []) (split_spaces t [c] false))
      by (apply split_spaces_nonempty; [exact Ht' | left; discriminate]).
    assert (Hc : space_free [c] = true)
      by (unfold space_free; simpl; rewrite Hh; reflexivity).
    pose proof (split_spaces_space_free t [c] false Hc) as H2.
    split.
    + apply split_spaces_some.
    + rewrite Forall_forall in *. intros w Hw. split; [apply H1 | apply H2]; exact Hw.
Qed.

(** *** The code's record against the finalised words *)

Lemma words_of_nonblank (text : js_string) :
  blank text = false -> Forall (fun w => nonempty w = true) (words_of text).
Proof.
  unfold blank, words_of, split_ws.
  pose proof (trim_ends text) as [Hh Ht].
  destruct (trim text) as [|c t] eqn:E; [discriminate|]. intros _.
  cbn [split_spaces]. rewrite Hh.
  assert (Ht' : match rev t with c0 :: _ => is_space c0 = false | [] => True end).
  { simpl in Ht. destruct (rev t) as [|y r]; [exact I | exact Ht]. }
  assert (H1 : Forall (fun w => w <> []) (split_spaces t [c] false))
    by (apply split_spaces_nonempty; [exact Ht' | left; discriminate]).
  rewrite Forall_forall in *. intros w Hw. specialize (H1 w Hw).
  destruct w; [congruence | reflexivity].
Qed.

(** The pieces recorded for a text are its words, but for a text without
    a word, for which the empty string is recorded. *)
Lemma words_of_cases (text : js_string) :
  words_of text = if blank text then [[]] else runs text [].
Proof.
  destruct (blank text) eqn:B; [apply words_of_blank, B|].
  rewrite <- words_of_runs. symmetry.
  apply forallb_filter_id, forallb_forall.
  pose proof (words_of_nonblank text B) as H. rewrite Forall_forall in H. exact H.
Qed.

Lemma runs_blank (text : js_string) : blank text = true -> runs text [] = [].
Proof.
  intros B. rewrite <- words_of_runs, (words_of_blank text B). reflexivity.
Qed.

(** The entries recorded are the finalised words and one entry for each
    final transcript without a word. *)
Lemma recorded_entries_count (p : js_string * Z -> bool) (inputs : list input) :
  length (filter p (recorded_words inputs))
  = (length (filter p (finalized_words inputs))
     + length (filter p (blank_finals inputs)))%nat.
Proof.
  induction inputs as [|i rest IH]; [reflexivity|].
  destruct i as [m|m|text|text now|es|now];
    cbn [recorded_words finalized_words blank_finals]; try exact IH.
  rewrite !filter_app, !length_app, IH, (words_of_cases text).
  destruct (blank text) eqn:B.
  - rewrite (runs_blank text B). simpl. set (b := p ([], now)).
    repeat match goal with
           | |- context [if ?c then _ else _] =>
               lazymatch c with b => fail | _ => change c with b end
           end.
    destruct b; simpl; unfold js_string in *; lia.
  - simpl. unfold js_string in *. lia.
Qed.

(** The speaking rate published exceeds the claimed one by 2 for each
    final transcript without a word in the window. *)
Lemma wpm_exceeds_rate_by_two_per_blank_final (before : list input) (now now0 : Z) :
  Forall (fun r => r <= now) (clock_readings before) ->
  wpm (fst (publishMetrics true now (snd (run true before (started now0)))))
  = Some (speaking_rate_trailing_window before now
          + 2 * Z.of_nat (length (filter (in_wpm_window now) (blank_finals before)))).
Proof.
  intros Hc. rewrite (wpm_twice_recorded_entries_in_window before now now0 Hc).
  rewrite (recorded_entries_count (in_wpm_window now) before).
  unfold speaking_rate_trailing_window.
  change (60 / CONFIG.WPM_WINDOW_SEC) with 2. change (60 / 30) with 2.
  f_equal. lia.
Qed.

End WordsProofs.

(** ** The filler-word pattern *)

Section Fillers.
Import JS CONFIG Session Words.

Lemma fold_case_word (c : code_unit) :
  is_word_char (fold_case c) = is_word_char c.
Proof.
  unfold fold_case.
  destruct ((97 <=? c) && (c <=? 122))%N eqn:E; [|reflexivity].
  apply andb_true_iff in E as [E1 E2].
  unfold is_word_char. rewrite E1, E2, orb_true_r.
  apply N.leb_le in E1, E2.
  assert (A : (65 <=? c - 32)%N = true) by (apply N.leb_le; lia).
  assert (B : (c - 32 <=? 90)%N = true) by (apply N.leb_le; lia).
  rewrite A, B. simpl. rewrite orb_true_r. reflexivity.
Qed.

Lemma same_fold_word (a b : code_unit) :
  fold_case a = fold_case b -> is_word_char a = is_word_char b.
Proof.
  intros E. rewrite <- (fold_case_word a), <- (fold_case_word b), E.
  reflexivity.
Qed.

Lemma boundary_fold (b b' a a' : option code_unit) :
  same_unit b b' -> same_unit a a' -> boundary b a = boundary b' a'.
Proof.
  unfold same_unit, boundary. intros Hb Ha.
  destruct b, b', a, a'; simpl in *; try discriminate;
    repeat match goal with
           | H : Some _ = Some _ |- _ => injection H as H; apply same_fold_word in H
           end;
    congruence.
Qed.

Lemma hd_error_fold (s s' : js_string) :
  same_text s s' -> same_unit (hd_error s) (hd_error s').
Proof.
  unfold same_text, same_unit.
  destruct s, s'; simpl; intros E; try discriminate; [reflexivity|].
  injection E as E _. rewrite E. reflexivity.
Qed.

Lemma match_literal_fold (pat : js_string) :
  forall (s s' : js_string) (last last' : option code_unit),
    same_text s s' -> same_unit last last' ->
    match match_literal pat s last, match_literal pat s' last' with
    | Some (l, a), Some (l', a') => same_unit l l' /\ same_text a a'
    | None, None => True
    | _, _ => False
    end.
Proof.
  induction pat as [|p pat IH]; intros s s' last last' Hs Hl.
  - simpl. split; assumption.
  - destruct s as [|c s], s' as [|c' s']; try discriminate Hs; [exact I|].
    unfold same_text in Hs. simpl in Hs. injection Hs as Hc Hs.
    cbn [match_literal]. rewrite Hc.
    destruct (fold_case p =? fold_case c')%N; [|exact I].
    apply IH; [exact Hs|]. unfold same_unit. simpl. rewrite Hc. reflexivity.
Qed.

Lemma match_at_fold (words : list js_string)
      (before before' : option code_unit) (s s' : js_string) :
  same_text s s' -> same_unit before before' ->
  match_at words before s = match_at words before' s'.
Proof.
  intros Hs Hb. induction words as [|w rest IH]; [reflexivity|].
  cbn [match_at]. pose proof (match_literal_fold w s s' before before' Hs Hb) as H.
  destruct (match_literal w s before) as [[l a]|],
           (match_literal w s' before') as [[l' a']|]; try contradiction.
  - destruct H as [Hl Ha].
    rewrite (boundary_fold before before' (hd_error s) (hd_error s') Hb
                           (hd_error_fold s s' Hs)).
    rewrite (boundary_fold l l' (hd_error a) (hd_error a') Hl
                           (hd_error_fold a a' Ha)).
    rewrite IH. reflexivity.
  - exact IH.
Qed.

Lemma count_matches_fold (words : list js_string) (s : js_string) :
  forall (s' : js_string) (before before' : option code_unit) (skip : nat),
    same_text s s' -> same_unit before before' ->
    count_matches words before s skip = count_matches words before' s' skip.
Proof.
  induction s as [|c s IH]; intros s' before before' skip Hs Hb.
  - destruct s'; [reflexivity | discriminate].
  - destruct s' as [|c' s']; [discriminate|].
    assert (Hc : same_unit (Some c) (Some c')).
    { unfold same_text in Hs. simpl in Hs. injection Hs as Hc _.
      unfold same_unit. simpl. rewrite Hc. reflexivity. }
    assert (Hr : same_text s s').
    { unfold same_text in Hs. simpl in Hs. injection Hs as _ Hs. exact Hs. }
    cbn [count_matches]. destruct skip as [|k].
    + rewrite (match_at_fold words before before' (c :: s) (c' :: s') Hs Hb).
      destruct (match_at words before' (c' :: s')).
      * f_equal. apply IH; assumption.
      * apply IH; assumption.
    + apply IH; assumption.
Qed.

(** X16.  Filler words are counted without regard to letter case: two texts
    that differ only in the case of ASCII letters have the same count. *)
Theorem fillers_counted_ignoring_case (a b : js_string) :
  map fold_case a = map fold_case b -> count_fillers a = count_fillers b.
Proof.
  intros H. unfold count_fillers.
  apply count_matches_fold; [exact H | reflexivity].
Qed.

Lemma fillers_counted_ignoring_case_witness :
  count_fillers (str "UM, I was Like, You Know, done")
  = count_fillers (str "um, i was like, you know, done").
Proof.
  apply (fillers_counted_ignoring_case
           (str "UM, I was Like, You Know, done")
           (str "um, i was like, you know, done")).
  reflexivity.
Defined.

(** *** White space holds no filler *)

Lemma space_not_word (c : code_unit) :
  is_space c = true -> is_word_char c = false.
Proof.
  intros S. apply not_true_iff_false. intros W.
  unfold is_space in S. unfold is_word_char in W.
  repeat first [ rewrite orb_true_iff in S | rewrite andb_true_iff in S
               | rewrite N.leb_le in S | rewrite N.eqb_eq in S ].
  repeat first [ rewrite orb_true_iff in W | rewrite andb_true_iff in W
               | rewrite N.leb_le in W | rewrite N.eqb_eq in W ].
  lia.
Qed.

Lemma blank_all_space (text : js_string) :
  blank text = true -> forallb is_space text = true.
Proof.
  assert (D : forall s, drop_spaces s = [] -> forallb is_space s = true).
  { induction s as [|c s IH]; simpl; [reflexivity|].
    destruct (is_space c); [exact IH | discriminate]. }
  unfold blank. intros H. apply D.
  pose proof (trim_ends text) as [Hh _]. unfold trim in *.
  pose proof (drop_spaces_head text) as Hd.
  destruct (drop_spaces text) as [|x d]; [reflexivity|].
  simpl in H. rewrite (drop_spaces_snoc _ _ Hd), rev_app_distr in H.
  discriminate.
Qed.

Lemma fillers_start_with_letter :
  Forall (fun w => match w with p :: _ => is_word_char p = true | [] => False end)
         FILLER_WORDS.
Proof. repeat constructor. Qed.

Lemma no_match_at_space (words : list js_string) (before : option code_unit)
      (c : code_unit) (s : js_string) :
  Forall (fun w => match w with p :: _ => is_word_char p = true | [] => False end)
         words ->
  is_space c = true -> match_at words before (c :: s) = None.
Proof.
  intros Hw Hc. induction Hw as [|w rest Hp _ IH]; [reflexivity|].
  cbn [match_at]. destruct w as [|p w]; [contradiction|].
  cbn [match_literal]. destruct (N.eqb_spec (fold_case p) (fold_case c)) as [E|_].
  - apply same_fold_word in E. rewrite Hp, (space_not_word c Hc) in E.
    discriminate.
  - exact IH.
Qed.

Lemma blank_no_fillers (text : js_string) :
  blank text = true -> count_fillers text = 0%nat.
Proof.
  intros H. apply blank_all_space in H. unfold count_fillers.
  generalize (@None code_unit). induction text as [|c s IH]; intros before;
    [reflexivity|].
  simpl in H. apply andb_true_iff in H as [Hc Hs].
  cbn [count_matches].
  rewrite (no_match_at_space _ before c s fillers_start_with_letter Hc).
  apply IH, Hs.
Qed.

End Fillers.

(** ** What every tick publishes *)

Section EveryTick.
Import JS CONFIG Session Words.

Lemma tick_samples_app (asr : bool) (xs ys : list input) (s : state) :
  tick_samples asr (xs ++ ys) s
  = tick_samples asr xs s ++ tick_samples asr ys (snd (run asr xs s)).
Proof.
  revert s. induction xs as [|i xs IH]; intros s; [reflexivity|].
  rewrite <- app_comm_cons, (tick_samples_cons asr i (xs ++ ys)),
    (tick_samples_cons asr i xs), run_cons, IH, app_assoc.
  reflexivity.
Qed.

Lemma keep_last_some {A} (n : nat) (l : list A) (e : A) :
  keep_last (S n) (l ++ [e]) <> [].
Proof.
  unfold keep_last. intros E.
  apply (f_equal (@length A)) in E.
  rewrite length_skipn, length_app in E. simpl in E. lia.
Qed.

(** X17.  The pause ratio is present in every published snapshot: the tick
    pushes its own loudness sample before the ratio is taken, so the
    history is never empty and the [undefined] branch is never taken.  The
    value is [calculatePauseRatio] of the samples of the last 30 ticks. *)
Theorem pause_ratio_published_at_every_tick
        (asr : bool) (before : list input) (now now0 : Z) :
  let s := snd (run asr before (started now0)) in
  let window :=
    keep_last 30 (map snd (tick_samples asr (before ++ [Tick now])
                                        (started now0))) in
  window <> []
  /\ pause_ratio (fst (publishMetrics asr now s))
     = Some (calculatePauseRatio window).
Proof.
  intros s window.
  assert (N : window <> []).
  { unfold window. rewrite tick_samples_app, map_app. cbn [tick_samples map].
    apply keep_last_some. }
  split; [exact N|].
  unfold s. rewrite (pause_ratio_over_last_30_ticks asr before now now0).
  fold window. destruct window as [|v w]; [congruence | reflexivity].
Qed.

(** X18.  A final transcript that is empty or all white space counts as
    one word and as no filler: the filler count is unchanged, and at a tick
    whose window reaches back to it the published speaking rate is higher by
    2 than it would be without that transcript. *)
Theorem blank_final_raises_wpm_by_two
        (text : js_string) (final tick : Z) (s : state) :
  blank text = true ->
  tick - 30000 <= final ->
  fillerCount (onFinal text final s) = fillerCount s
  /\ wpm (fst (publishMetrics true tick (onFinal text final s)))
     = option_map (Z.add 2) (wpm (fst (publishMetrics true tick s))).
Proof.
  intros Hb Hw. split.
  - cbn [onFinal fillerCount]. rewrite (blank_no_fillers text Hb). lia.
  - unfold publishMetrics. rewrite !calculateWPM_twice.
    cbn [fst wpm option_map onFinal wordTimestamps].
    rewrite (words_of_blank text Hb).
    cbn [map]. rewrite filter_app, length_app. cbn [filter snd].
    destruct (Z.leb_spec (tick - 30000) final); [|lia].
    cbn [length]. f_equal. lia.
Qed.

Lemma blank_final_raises_wpm_by_two_witness :
  let s := onFinal (str "so far") 1000 (started 0) in
  fillerCount (onFinal (str "  ") 1500 s) = fillerCount s
  /\ wpm (fst (publishMetrics true 2000 (onFinal (str "  ") 1500 s)))
     = option_map (Z.add 2) (wpm (fst (publishMetrics true 2000 s))).
Proof.
  apply (blank_final_raises_wpm_by_two (str "  ") 1500 2000
           (onFinal (str "so far") 1000 (started 0))).
  - reflexivity.
  - lia.
Defined.

End EveryTick.

(** ** The metrics hook *)

Section HookProofs.
Import JS Hook.

Lemma addPoint_stale (t cutoff : Z) (value : option float) :
  t < cutoff -> addPoint t cutoff [] value = [].
Proof.
  intros H. unfold addPoint. destruct value as [v|]; [|reflexivity].
  destruct (PrimFloat.is_nan v); [reflexivity|]. simpl.
  destruct (Z.ltb_spec t cutoff); [reflexivity | lia].
Qed.

Lemma onEvent_stale (now : Z) (rnd : float) (e : MetricsEvent) (s : state) :
  Session.t e < now - 30000 ->
  Forall (fun b => b = []) (charts s) ->
  Forall (fun b => b = []) (charts (onEvent now rnd e s))
  /\ updateTrigger (onEvent now rnd e s) = S (updateTrigger s).
Proof.
  intros Ht Hs. unfold charts in Hs.
  repeat match goal with
         | H : Forall _ (_ :: _) |- _ => inversion H; clear H; subst
         end.
  unfold onEvent. change (CHART_BUFFER_SEC * 1000) with 30000.
  repeat match goal with H : _ = [] |- _ => rewrite H; clear H end.
  rewrite !(addPoint_stale _ _ _ Ht).
  destruct (Session.head e) as [[yaw pitch]|];
    destruct (Session.rms e) as [r|];
    rewrite ?(addPoint_stale _ _ _ Ht);
    (split; [repeat constructor | reflexivity]).
Qed.

Lemma deliver_stale (ds : list delivery) :
  forall s : state,
    Forall (fun d => Session.t (event d) < clock d - 30000) ds ->
    Forall (fun b => b = []) (charts s) ->
    Forall (fun b => b = []) (charts (deliver ds s))
    /\ updateTrigger (deliver ds s) = (length ds + updateTrigger s)%nat.
Proof.
  induction ds as [|d rest IH]; intros s Hd Hs.
  - split; [exact Hs | reflexivity].
  - inversion Hd as [|? ? H1 H2]; subst.
    destruct (onEvent_stale (clock d) (random d) (event d) s H1 Hs) as [Hc Hu].
    destruct (IH _ H2 Hc) as [Hc' Hu'].
    split; [exact Hc'|]. cbn [deliver length]. rewrite Hu', Hu. lia.
Qed.

(** The stamp of a published snapshot is relative to the start reading. *)
Lemma published_stamp (asr : bool) (tick : Z) (s : Session.state) :
  Session.t (fst (Session.publishMetrics asr tick s))
  = tick - Session.startTime s.
Proof.
  unfold Session.publishMetrics.
  destruct (if asr then Session.calculateWPM tick (Session.wordTimestamps s)
            else (0, Session.wordTimestamps s)) as [w ws].
  reflexivity.
Qed.

(** X19.  The hook trims its chart buffers against a cutoff taken from the
    wall clock, while the points carry the event's stamp, which counts from
    the start of the session.  For a session started later than 30 seconds
    after the epoch, with every event delivered no earlier than its tick,
    each point is dropped by the very call that pushed it: from the mounted
    hook, all ten chart buffers are empty after every event, and every event
    triggers a re-render. *)
Theorem chart_buffers_empty_after_every_event
        (start : Z) (ds : list delivery) :
  30000 < start ->
  Forall (fun d => Session.t (event d) + start <= clock d) ds ->
  Forall (fun b => b = []) (charts (deliver ds mounted))
  /\ updateTrigger (deliver ds mounted) = length ds.
Proof.
  intros Hstart Hd.
  destruct (deliver_stale ds mounted) as [Hc Hu].
  - rewrite Forall_forall in *. intros d Hin. specialize (Hd d Hin). lia.
  - repeat constructor.
  - split; [exact Hc|]. rewrite Hu. simpl. lia.
Qed.

Lemma chart_buffers_empty_after_every_event_witness :
  let s0 := Session.started 1700000000000 in
  let s1 :=
    snd (Session.run true
           [Session.AudioMessage {| Worklet.rms := 0.5; Worklet.pitch := 220 |};
            Session.Tick 1700000000100] s0) in
  let ds := [delivered_from true 1700000000100 1700000000100 0.5 s0;
             delivered_from true 1700000000200 1700000000201 0.5 s1] in
  Forall (fun b => b = []) (charts (deliver ds mounted))
  /\ updateTrigger (deliver ds mounted) = length ds.
Proof.
  intros s0 s1 ds.
  apply (chart_buffers_empty_after_every_event 1700000000000 ds).
  - lia.
  - repeat constructor; unfold ds, delivered_from; cbn [event clock];
      rewrite published_stamp; vm_compute; discriminate.
Defined.

Lemma slice_last_push {A} (n : nat) (l : list A) (e : A) :
  slice_last n (slice_last n l ++ [e]) = slice_last n (l ++ [e]).
Proof. exact (keep_last_push n l e). Qed.

Lemma onEvent_rmsHistory (n : nat) (now : Z) (rnd : float) (e : MetricsEvent)
      (s : state) (taken : list float) :
  n = Z.to_nat (CONFIG.PAUSE_WINDOW_SEC * CONFIG.METRICS_HZ) ->
  rmsHistory s = slice_last n taken ->
  rmsHistory (onEvent now rnd e s)
  = slice_last n (taken ++ match Session.rms e with Some r => [r] | None => [] end).
Proof.
  intros Hn Hs. unfold onEvent.
  destruct (Session.head e) as [[yaw pitch]|];
    destruct (Session.rms e) as [r|]; cbn [rmsHistory];
    rewrite ?app_nil_r; try exact Hs.
  all: rewrite Hs, <- Hn, <- (slice_last_push n taken r).
  all: set (pushed := slice_last n taken ++ [r]).
  all: destruct (Z.ltb_spec (CONFIG.PAUSE_WINDOW_SEC * CONFIG.METRICS_HZ)
                            (Z.of_nat (length pushed))); [reflexivity|].
  all: symmetry; unfold slice_last.
  all: replace (length pushed - n)%nat with 0%nat by lia; reflexivity.
Qed.

Lemma deliver_rmsHistory (n : nat) (ds : list delivery) :
  n = Z.to_nat (CONFIG.PAUSE_WINDOW_SEC * CONFIG.METRICS_HZ) ->
  forall (s : state) (taken : list float),
    rmsHistory s = slice_last n taken ->
    rmsHistory (deliver ds s) = slice_last n (taken ++ loudness ds).
Proof.
  intros Hn. induction ds as [|d rest IH]; intros s taken Hs.
  - simpl. rewrite app_nil_r. exact Hs.
  - cbn [deliver loudness flat_map]. rewrite app_assoc.
    apply IH. apply onEvent_rmsHistory; assumption.
Qed.

(** X20.  The loudness history from which the hook takes its own pause
    ratio holds the last 100 loudness values delivered (10 seconds at
    10 Hz), in order; events without a loudness value leave it alone. *)
Theorem hook_history_last_100_values (ds : list delivery) :
  rmsHistory (deliver ds mounted) = slice_last 100 (loudness ds)
  /\ (length (rmsHistory (deliver ds mounted)) <= 100)%nat.
Proof.
  assert (H : rmsHistory (deliver ds mounted) = slice_last 100 (loudness ds)).
  { apply (deliver_rmsHistory 100 ds eq_refl mounted []). reflexivity. }
  split; [exact H|]. rewrite H. unfold slice_last. rewrite length_skipn. lia.
Qed.

End HookProofs.

(** ** The metrics bus *)

Section BusProofs.
Import JS MetricsBus.

Lemma skipn_nth_error {A} (l : list A) (i : nat) (x : A) :
  nth_error l i = Some x -> skipn i l = x :: skipn (S i) l.
Proof.
  revert i. induction l as [|y l IH]; intros [|i] H; try discriminate.
  - injection H as ->. reflexivity.
  - simpl in H. rewrite (skipn_cons i y l). exact (IH i H).
Qed.

Lemma forEach_passive (b : behaviour) (event : MetricsEvent) (steps : nat) :
  forall (position : nat) (st : store),
    Forall (passive b event) (values (skipn position (subscribers st))) ->
    (length (subscribers st) - position <= steps)%nat ->
    forEach steps position
            (fun cb => try_catch (call b cb event)
                                 (console_error "Metrics subscriber error:")) st
    = Some (Returned tt,
            delivered b event (values (skipn position (subscribers st))) st).
Proof.
  induction steps as [|steps IH]; intros position st Hp Hs.
  - assert (E : nth_error (subscribers st) position = None)
      by (apply nth_error_None; lia).
    cbn [forEach]. rewrite E.
    rewrite skipn_all2 by lia. unfold delivered. simpl.
    rewrite !app_nil_r. destruct st; reflexivity.
  - cbn [forEach]. destruct (nth_error (subscribers st) position) as [entry|] eqn:E.
    + rewrite (skipn_nth_error _ _ _ E) in Hp |- *.
      assert (Hl : (position < length (subscribers st))%nat)
        by (apply nth_error_Some; congruence).
      destruct entry as [cb|].
      * cbn [values flat_map app] in Hp |- *. inversion Hp as [|? ? Hcb Hrest]; subst.
        unfold bind at 1, try_catch, call, bind. simpl. rewrite Hcb. simpl.
        destruct (throws (b cb event)) eqn:T; simpl.
        -- rewrite IH; simpl; [|exact Hrest|lia].
           unfold delivered. simpl. rewrite T. simpl.
           rewrite <- !app_assoc. reflexivity.
        -- rewrite IH; simpl; [|exact Hrest|lia].
           unfold delivered. simpl. rewrite T.
           rewrite <- !app_assoc. reflexivity.
      * cbn [values flat_map app] in Hp |- *.
        unfold bind, ret. rewrite IH; [reflexivity | exact Hp | lia].
    + apply nth_error_None in E. rewrite skipn_all2 by lia.
      unfold delivered. simpl. rewrite !app_nil_r. destruct st; reflexivity.
Qed.

(** X21.  [publish] isolates its subscribers.  When no subscriber changes
    the subscriptions during the delivery, [publish] returns normally
    whichever subscribers throw; every subscriber receives the event exactly
    once, in the order of subscription, also those after one that threw;
    the console gets one error line for each subscriber that threw; the
    subscriptions are unchanged. *)
Theorem publish_reaches_every_subscriber
        (b : behaviour) (event : MetricsEvent) (steps : nat) (st : store) :
  Forall (passive b event) (subscribed st) ->
  (length (subscribers st) <= steps)%nat ->
  publish steps b event st
  = Some (Returned tt,
          {| subscribers := subscribers st;
             received := received st ++ map (fun cb => (cb, event)) (subscribed st);
             console :=
               console st
               ++ map (fun _ => "Metrics subscriber error:"%string)
                      (filter (fun cb => throws (b cb event)) (subscribed st)) |}).
Proof.
  intros Hp Hs. unfold publish.
  rewrite forEach_passive; [reflexivity | exact Hp | simpl; lia].
Qed.

Lemma publish_reaches_every_subscriber_witness :
  let b : behaviour :=
    fun cb _ => {| actions := []; throws := Nat.eqb cb 2%nat |} in
  let event := fst (Session.publishMetrics true 1100 (Session.started 1000)) in
  let st := {| subscribers := [Some 1; None; Some 2; Some 3]%nat;
               received := []; console := [] |} in
  publish 4 b event st
  = Some (Returned tt,
          {| subscribers := [Some 1; None; Some 2; Some 3]%nat;
             received := [(1, event); (2, event); (3, event)]%nat;
             console := ["Metrics subscriber error:"%string] |}).
Proof.
  intros b event st.
  apply (publish_reaches_every_subscriber b event 4 st).
  - repeat constructor.
  - simpl. lia.
Defined.

(** With a subscriber that changes the subscriptions the delivery differs:
    the first callback unsubscribes the second, which then does not receive
    the event, and subscribes a new one, which does. *)
Example delivery_follows_live_subscriptions :
  let b : behaviour :=
    fun cb _ =>
      {| actions := if Nat.eqb cb 1%nat then [Unsubscribe 2%nat; Subscribe 4%nat] else [];
         throws := false |} in
  let event := fst (Session.publishMetrics true 1100 (Session.started 1000)) in
  let st := {| subscribers := [Some 1; Some 2; Some 3]%nat;
               received := []; console := [] |} in
  option_map (fun r => map fst (received (snd r))) (publish 4 b event st)
  = Some [1; 3; 4]%nat.
Proof. reflexivity. Qed.

Lemma values_app (s s' : set) : values (s ++ s') = values s ++ values s'.
Proof. unfold values. apply flat_map_app. Qed.

Lemma values_delete (cb : subscriber) (s : set) :
  values (delete cb s) = filter (fun c => negb (Nat.eqb c cb)) (values s).
Proof.
  induction s as [|[c|] s IH]; simpl; [reflexivity | | exact IH].
  destruct (Nat.eqb c cb); simpl; rewrite IH; reflexivity.
Qed.

Lemma has_values (cb : subscriber) (s : set) :
  has cb s = existsb (fun c => Nat.eqb c cb) (values s).
Proof.
  induction s as [|[c|] s IH]; simpl; [reflexivity | | exact IH].
  rewrite IH. reflexivity.
Qed.

Lemma filter_absent (cb : subscriber) (l : list subscriber) :
  existsb (fun c => Nat.eqb c cb) l = false ->
  filter (fun c => negb (Nat.eqb c cb)) l = l.
Proof.
  induction l as [|c l IH]; simpl; [reflexivity|].
  destruct (Nat.eqb c cb); simpl; [discriminate|].
  intros H. rewrite (IH H). reflexivity.
Qed.

(** X22.  Subscriptions are a set of callbacks.  Subscribing a callback
    that is already subscribed changes nothing; a new callback is added
    after the others.  One call of the function that [subscribe] returned
    removes the callback however often it was subscribed, and leaves the
    other callbacks in their order; so for a callback that was new the
    subscribers, and their count, are restored. *)
Theorem subscribe_is_idempotent_unsubscribe_removes
        (cb : subscriber) (st : store) :
  bind (subscribe cb) (fun _ => subscribe cb) st = subscribe cb st
  /\ match subscribe cb st with
     | Some (Returned _, st1) =>
         subscribed st1
         = (if has cb (subscribers st) then subscribed st
            else subscribed st ++ [cb])
         /\ match unsubscribe cb st1 with
            | Some (Returned _, st2) =>
                subscribed st2
                = filter (fun c => negb (Nat.eqb c cb)) (subscribed st)
                /\ (has cb (subscribers st) = false ->
                    subscribed st2 = subscribed st /\ count st2 = count st)
            | _ => False
            end
     | _ => False
     end.
Proof.
  unfold subscribe, unsubscribe, update, bind, subscribed, count, size.
  cbn [subscribers].
  assert (A : has cb (add cb (subscribers st)) = true).
  { unfold add. destruct (has cb (subscribers st)) eqn:E; [exact E|].
    unfold has. rewrite existsb_app. simpl. rewrite Nat.eqb_refl.
    apply orb_true_iff. right. reflexivity. }
  assert (V : values (delete cb (add cb (subscribers st)))
              = filter (fun c => negb (Nat.eqb c cb)) (values (subscribers st))).
  { rewrite values_delete. unfold add.
    destruct (has cb (subscribers st)); [reflexivity|].
    rewrite values_app, filter_app. simpl. rewrite Nat.eqb_refl. simpl.
    apply app_nil_r. }
  split; [|split; [|split]].
  - f_equal. f_equal. f_equal. unfold add at 1. rewrite A. reflexivity.
  - unfold add. destruct (has cb (subscribers st)); [reflexivity|].
    rewrite values_app. reflexivity.
  - exact V.
  - intros H. rewrite V. rewrite has_values in H.
    rewrite (filter_absent cb _ H). split; reflexivity.
Qed.

End BusProofs.

(** ** Speech recognition *)

Section ASRProofs.
Import JS ASR.

Lemma invoke_self (given : bool) (c : callback_call) (w : world) :
  fst (invoke given c w) = Returned tt
  /\ self (snd (invoke given c w)) = self w
  /\ requests (snd (invoke given c w)) = requests w
  /\ console (snd (invoke given c w)) = console w.
Proof. unfold invoke. destruct given; simpl; auto. Qed.

Lemma onresult_quiet (cbs : callbacks) (i : nat) (results : list result) (w : world) :
  fst (onresult cbs i results w) = Returned tt
  /\ self (snd (onresult cbs i results w)) = self w
  /\ requests (snd (onresult cbs i results w)) = requests w
  /\ console (snd (onresult cbs i results w)) = console w.
Proof.
  unfold onresult. generalize (skipn i results). intros l. revert w.
  induction l as [|r l IH]; intros w; [simpl; auto|].
  cbn [for_each]. unfold bind.
  destruct (isFinal r).
  - destruct (invoke_self (onFinal cbs) (Final (transcript r)) w) as (A & B & C & D).
    destruct (invoke (onFinal cbs) (Final (transcript r)) w) as [[[]|e] w1];
      [|discriminate].
    simpl in B, C, D. rewrite <- B, <- C, <- D. apply IH.
  - destruct (invoke_self (onInterim cbs) (Interim (transcript r)) w) as (A & B & C & D).
    destruct (invoke (onInterim cbs) (Interim (transcript r)) w) as [[[]|e] w1];
      [|discriminate].
    simpl in B, C, D. rewrite <- B, <- C, <- D. apply IH.
Qed.

Lemma onerror_quiet (cbs : callbacks) (error : String.string) (w : world) :
  fst (onerror cbs error w) = Returned tt
  /\ self (snd (onerror cbs error w)) = self w
  /\ requests (snd (onerror cbs error w)) = requests w
  /\ console (snd (onerror cbs error w)) = console w.
Proof.
  unfold onerror. destruct (String.eqb error "no-speech"); [simpl; auto|].
  apply invoke_self.
Qed.

(** The [onend] handler: one attempt to start the recognizer while the
    service runs, none otherwise; the flag is left as it was. *)
Lemma onend_restarts (o : oracle) (w : world) :
  fst (onend o w) = Returned tt
  /\ self (snd (onend o w)) = self w
  /\ exists new,
       requests (snd (onend o w)) = requests w ++ new
       /\ map fst new = if isRunning (self w) then [RecognizerStart] else [].
Proof.
  unfold onend, when. destruct (isRunning (self w)).
  - unfold try_catch, request_of.
    destruct (o (length (requests w))); simpl;
      (split; [reflexivity|]; split; [reflexivity|]);
      eexists; (split; [reflexivity|]); reflexivity.
  - simpl. split; [reflexivity|]. split; [reflexivity|].
    exists []. rewrite app_nil_r. split; reflexivity.
Qed.

Lemma events_restart (o : oracle) (events : list op) :
  forall w : world,
    forallb is_event events = true ->
    handlers (self w) <> None ->
    fst (run o events w) = Returned tt
    /\ self (snd (run o events w)) = self w
    /\ exists new,
         requests (snd (run o events w)) = requests w ++ new
         /\ map fst new
            = if isRunning (self w)
              then repeat RecognizerStart (length (filter is_end events))
              else [].
Proof.
  induction events as [|x rest IH]; intros w He Hh.
  - simpl. split; [reflexivity|]. split; [reflexivity|].
    exists []. rewrite app_nil_r. split; [reflexivity|].
    destruct (isRunning (self w)); reflexivity.
  - simpl in He. apply andb_true_iff in He as [Hx Hrest].
    unfold run. cbn [for_each]. unfold bind. fold (run o rest).
    assert (S1 : fst (step o x w) = Returned tt
                 /\ self (snd (step o x w)) = self w
                 /\ exists new,
                      requests (snd (step o x w)) = requests w ++ new
                      /\ map fst new
                         = if isRunning (self w) && is_end x
                           then [RecognizerStart] else []).
    { destruct x as [cbs| |i results|error|]; try discriminate Hx;
        cbn [step]; unfold event;
        destruct (handlers (self w)) as [cbs|]; try congruence.
      - destruct (onresult_quiet cbs i results w) as (A & B & C & _).
        split; [exact A|]. split; [exact B|]. exists [].
        rewrite app_nil_r, andb_false_r. split; [exact C | reflexivity].
      - destruct (onerror_quiet cbs error w) as (A & B & C & _).
        split; [exact A|]. split; [exact B|]. exists [].
        rewrite app_nil_r, andb_false_r. split; [exact C | reflexivity].
      - rewrite andb_true_r. apply onend_restarts. }
    destruct S1 as (A & B & new1 & C & D).
    destruct (step o x w) as [[[]|e] w1]; [|discriminate]. simpl in B, C.
    assert (Hh1 : handlers (self w1) <> None) by (rewrite B; exact Hh).
    destruct (IH w1 Hrest Hh1) as (A2 & B2 & new2 & C2 & D2).
    split; [exact A2|]. split; [rewrite B2; exact B|].
    exists (new1 ++ new2). rewrite C2, C, <- app_assoc. split; [reflexivity|].
    rewrite map_app, D, D2, B. cbn [filter].
    destruct (isRunning (self w)); [|reflexivity].
    destruct (is_end x); reflexivity.
Qed.

(** X23.  Events of the recognizer never make a handler throw and never
    change the running flag.  While the service runs, every end event is
    answered by exactly one attempt to start the recognizer again, whether
    or not earlier attempts raised; when it does not run, no event leads to
    a call on the recognizer. *)
Theorem end_events_restart_only_while_running
        (o : oracle) (events : list op) (w : world) :
  forallb is_event events = true ->
  handlers (self w) <> None ->
  fst (run o events w) = Returned tt
  /\ isRunning (self (snd (run o events w))) = isRunning (self w)
  /\ exists new,
       requests (snd (run o events w)) = requests w ++ new
       /\ map fst new
          = if isRunning (self w)
            then repeat RecognizerStart (length (filter is_end events))
            else [].
Proof.
  intros He Hh.
  destruct (events_restart o events w He Hh) as (A & B & C).
  split; [exact A|]. split; [rewrite B; reflexivity | exact C].
Qed.

Lemma end_events_restart_only_while_running_witness :
  let o : oracle := fun n => if Nat.eqb n 1 then Some "busy"%string else None in
  let cbs := {| onInterim := true; onFinal := true; onError := true |} in
  let w := snd (start o cbs (new_service true)) in
  let events :=
    [EndEvent;
     ResultEvent 0 [{| transcript := str "so well"; isFinal := true |}];
     ErrorEvent "no-speech"; EndEvent] in
  fst (run o events w) = Returned tt
  /\ isRunning (self (snd (run o events w))) = isRunning (self w)
  /\ exists new,
       requests (snd (run o events w)) = requests w ++ new
       /\ map fst new
          = if isRunning (self w)
            then repeat RecognizerStart (length (filter is_end events))
            else [].
Proof.
  intros o cbs w events.
  apply (end_events_restart_only_while_running o events w).
  - reflexivity.
  - discriminate.
Defined.

(** X24.  [start(callbacks)] on a service with a recognizer never throws.
    It stops a running service first, installs the handlers, and calls the
    recognizer's [start()] once.  The service runs afterwards exactly when
    that call returned; when it raised, the error goes to [onError], if
    given, and the service is left stopped also if it ran before. *)
Theorem start_runs_iff_recognizer_started
        (o : oracle) (cbs : callbacks) (w : world) :
  available (self w) = true ->
  recognition (self w) = true ->
  let w' := snd (start o cbs w) in
  let n := (length (requests w) + (if isRunning (self w) then 1 else 0))%nat in
  fst (start o cbs w) = Returned tt
  /\ handlers (self w') = Some cbs
  /\ isRunning (self w') = (match o n with None => true | Some _ => false end)
  /\ (exists new,
        requests w' = requests w ++ new
        /\ map fst new
           = (if isRunning (self w) then [RecognizerStop] else [])
             ++ [RecognizerStart])
  /\ called w'
     = called w
       ++ match o n with
          | Some e =>
              if onError cbs then [Failure ("Failed to start ASR: " ++ e)] else []
          | None => []
          end.
Proof.
  intros Ha Hr. destruct w as [[r run a h] reqs cs k]. simpl in Ha, Hr. subst.
  unfold start. cbn [self available recognition negb orb isRunning requests].
  destruct run.
  - unfold bind, when, stop, try_catch, request_of, set_self, invoke, console_warn.
    cbn.
    destruct (o (length reqs)); cbn; rewrite length_app, Nat.add_comm; cbn;
      rewrite (Nat.add_comm (length reqs) 1); cbn;
      destruct (o (S (length reqs))); cbn;
      try destruct (onError cbs); cbn; rewrite ?app_nil_r;
      repeat split; try reflexivity;
      eexists; rewrite <- app_assoc; split; reflexivity.
  - unfold bind, when, try_catch, request_of, set_self, invoke.
    cbn. rewrite Nat.add_0_r.
    destruct (o (length reqs)); cbn;
      try destruct (onError cbs); cbn; rewrite ?app_nil_r;
      repeat split; try reflexivity;
      eexists; split; reflexivity.
Qed.

Lemma start_runs_iff_recognizer_started_witness :
  let o : oracle := fun n => if Nat.eqb n 2 then Some "busy"%string else None in
  let cbs := {| onInterim := true; onFinal := true; onError := true |} in
  let w := snd (start o cbs (new_service true)) in
  let w' := snd (start o cbs w) in
  let n := (length (requests w) + (if isRunning (self w) then 1 else 0))%nat in
  fst (start o cbs w) = Returned tt
  /\ handlers (self w') = Some cbs
  /\ isRunning (self w') = (match o n with None => true | Some _ => false end)
  /\ (exists new,
        requests w' = requests w ++ new
        /\ map fst new
           = (if isRunning (self w) then [RecognizerStop] else [])
             ++ [RecognizerStart])
  /\ called w'
     = called w
       ++ match o n with
          | Some e =>
              if onError cbs then [Failure ("Failed to start ASR: " ++ e)] else []
          | None => []
          end.
Proof.
  intros o cbs w.
  apply (start_runs_iff_recognizer_started o cbs w); reflexivity.
Defined.

Lemma events_quiet (o : oracle) (events : list op) :
  forall w : world,
    forallb is_event events = true ->
    isRunning (self w) = false ->
    run o events w = (Returned tt, snd (run o events w))
    /\ self (snd (run o events w)) = self w
    /\ requests (snd (run o events w)) = requests w
    /\ console (snd (run o events w)) = console w.
Proof.
  induction events as [|x rest IH]; intros w He Hs; [simpl; auto|].
  simpl in He. apply andb_true_iff in He as [Hx Hrest].
  unfold run. cbn [for_each]. unfold bind. fold (run o rest).
  assert (S1 : fst (step o x w) = Returned tt
               /\ self (snd (step o x w)) = self w
               /\ requests (snd (step o x w)) = requests w
               /\ console (snd (step o x w)) = console w).
  { destruct x as [cbs| |i results|error|]; try discriminate Hx;
      cbn [step]; unfold event;
      destruct (handlers (self w)) as [cbs|]; try (simpl; tauto).
    - apply onresult_quiet.
    - apply onerror_quiet.
    - unfold onend, when. rewrite Hs. simpl. tauto. }
  destruct S1 as (A & B & C & D).
  destruct (step o x w) as [[[]|e] w1]; [|discriminate]. simpl in B, C, D.
  assert (Hs1 : isRunning (self w1) = false) by (rewrite B; exact Hs).
  destruct (IH w1 Hrest Hs1) as (A2 & B2 & C2 & D2).
  rewrite B2, C2, D2, B, C, D. auto.
Qed.

(** X25.  [stop()] never throws, also when the recognizer's [stop()]
    raises, and leaves the service stopped.  From then on no event of the
    recognizer restarts it: through any sequence of result, error and end
    events the service makes no call on the recognizer and writes nothing to
    the console, and stays stopped. *)
Theorem stopped_service_is_not_restarted
        (o : oracle) (events : list op) (w : world) :
  forallb is_event events = true ->
  (isRunning (self w) = true -> recognition (self w) = true) ->
  let stopped := snd (stop o w) in
  let final := snd (run o events stopped) in
  fst (stop o w) = Returned tt
  /\ isRunning (self stopped) = false
  /\ fst (run o events stopped) = Returned tt
  /\ isRunning (self final) = false
  /\ requests final = requests stopped
  /\ console final = console stopped.
Proof.
  intros He Hr stopped final.
  assert (S0 : fst (stop o w) = Returned tt /\ isRunning (self stopped) = false).
  { unfold stopped, stop, when.
    destruct (isRunning (self w)) eqn:R.
    - rewrite (Hr eq_refl). simpl.
      unfold bind, set_self, try_catch, request_of, console_warn. simpl.
      destruct (o (length (requests w))); simpl; auto.
    - rewrite andb_false_r. simpl. auto. }
  destruct S0 as [A B]. destruct (events_quiet o events stopped He B) as (C & D & E & F).
  fold final in C, D, E, F.
  repeat split; try assumption.
  - rewrite C. reflexivity.
  - rewrite D. exact B.
Qed.

Lemma stopped_service_is_not_restarted_witness :
  let o : oracle := fun n => if Nat.eqb n 1 then Some "gone"%string else None in
  let cbs := {| onInterim := true; onFinal := true; onError := true |} in
  let w := snd (start o cbs (new_service true)) in
  let events := [EndEvent; ErrorEvent "aborted"; EndEvent] in
  let stopped := snd (stop o w) in
  let final := snd (run o events stopped) in
  fst (stop o w) = Returned tt
  /\ isRunning (self stopped) = false
  /\ fst (run o events stopped) = Returned tt
  /\ isRunning (self final) = false
  /\ requests final = requests stopped
  /\ console final = console stopped.
Proof.
  intros o cbs w events.
  apply (stopped_service_is_not_restarted o events w); reflexivity.
Defined.

End ASRProofs.

(** ** Scores *)

Section ScoringProofs.
Import JS Scoring.

Lemma max_zero_not_negative (x : float) : not_negative (max 0 x).
Proof.
  unfold not_negative, max.
  destruct (max_spec 0 x) as [[_ ->]|(_ & _ & _ & H & _)];
    [left; reflexivity | right; exact H].
Qed.

(** X26.  The scores for pause ratio, fillers, blink rate, gaze jitter and
    head pose are never negative, whatever the measurement: each is [NaN] or
    at least 0; so are the five of them in [scoreDelivery], for which the
    events of the controller always carry the filler rate. *)
Theorem clamped_scores_never_negative (m : MetricsEvent) :
  (forall x, not_negative (scorePause x))
  /\ (forall x, not_negative (scoreFillers x))
  /\ (forall x, not_negative (scoreBlink x))
  /\ (forall x, not_negative (scoreGaze x))
  /\ (forall yaw pitch, not_negative (scoreHeadPose yaw pitch))
  /\ not_negative (pause (scoreDelivery m))
  /\ not_negative (fillers (scoreDelivery m))
  /\ not_negative (blink (scoreDelivery m))
  /\ not_negative (gaze (scoreDelivery m))
  /\ not_negative (headPose (scoreDelivery m)).
Proof.
  assert (H : not_negative 0.5) by (right; reflexivity).
  unfold scoreDelivery. cbn [pause fillers blink gaze headPose].
  repeat split; intros;
    try apply max_zero_not_negative.
  - destruct (Session.pause_ratio m); [apply max_zero_not_negative | exact H].
  - destruct (Session.blink_per_min m); [apply max_zero_not_negative | exact H].
  - destruct (Session.gaze_jitter m); [apply max_zero_not_negative | exact H].
  - destruct (Session.head m) as [[yaw pitch]|];
      [apply max_zero_not_negative | exact H].
Qed.

(** The smile score is not clamped below 0.3: a negative measurement gives
    a negative score. *)
Example smile_score_can_be_negative :
  (scoreSmile (-0.3) <? 0)%float = true.
Proof. reflexivity. Qed.

End ScoringProofs.

(** ** Starting the controller *)

Section StartupProofs.
Import JS Teardown StopInvariants Startup.
#[local] Open Scope startup_scope.

(** *** Properties kept however a step ends *)

Lemma inv_bind (I : handles -> Session.state -> Prop) (a b : Startup.M unit) :
  inv I a -> inv I b -> inv I (a ;; b).
Proof.
  intros Ha Hb k Hk. unfold Startup.bind. specialize (Ha k Hk).
  destruct (a k) as [[[]|e] k1]; simpl in *; [apply Hb|]; assumption.
Qed.

Lemma inv_try (I : handles -> Session.state -> Prop) (c : Startup.M unit)
      (handler : String.string -> Startup.M unit) :
  inv I c -> (forall e, inv I (handler e)) -> inv I (Startup.try_catch c handler).
Proof.
  intros Hc Hh k Hk. unfold Startup.try_catch. specialize (Hc k Hk).
  destruct (c k) as [[[]|e] k1]; simpl in *; [|apply Hh]; assumption.
Qed.

Lemma inv_when (I : handles -> Session.state -> Prop) (test : handles -> bool)
      (c : Startup.M unit) :
  inv I c -> inv I (Startup.when test c).
Proof.
  intros Hc k Hk. unfold Startup.when.
  destruct (test (vars (lifecycle k))); [apply Hc|]; assumption.
Qed.

Lemma inv_if (I : handles -> Session.state -> Prop) (given : bool)
      (c : Startup.M unit) :
  inv I c -> inv I (if_option given c).
Proof. intros Hc. destruct given; [exact Hc|]. intros k Hk. exact Hk. Qed.

Lemma inv_acquire (I : handles -> Session.state -> Prop) (w : world)
      (a : acquisition) :
  inv I (acquire w a).
Proof. intros k Hk. unfold acquire. destruct (raises w a); exact Hk. Qed.

Lemma inv_write (I : handles -> Session.state -> Prop) (line : String.string) :
  inv I (write line).
Proof. intros k Hk. exact Hk. Qed.

Lemma inv_canvas (I : handles -> Session.state -> Prop) : inv I set_canvas.
Proof. intros k Hk. exact Hk. Qed.

Lemma inv_throw (I : handles -> Session.state -> Prop) (e : String.string) :
  inv I (throw e).
Proof. intros k Hk. exact Hk. Qed.

Lemma inv_set (I : handles -> Session.state -> Prop) (f : handles -> handles) :
  (forall h s, I h s -> I (f h) s) -> inv I (set f).
Proof. intros Hf k Hk. apply Hf, Hk. Qed.

Lemma inv_set_session (I : handles -> Session.state -> Prop)
      (g : Session.state -> Session.state) :
  (forall h s, I h s -> I h (g s)) -> inv I (set_session g).
Proof. intros Hg k Hk. apply Hg, Hk. Qed.

Lemma inv_lift (I : handles -> Session.state -> Prop) (c : Teardown.M unit) :
  (forall s, always (fun h => I h s) c) -> inv I (lift c).
Proof.
  intros Hc k Hk. unfold lift. specialize (Hc (session k) (lifecycle k) Hk).
  destruct (c (lifecycle k)) as [r m]. exact Hc.
Qed.

Lemma inv_branch (I : handles -> Session.state -> Prop) (test : handles -> bool)
      (yes no : Startup.M unit) :
  inv I yes -> inv I no -> inv I (branch test yes no).
Proof.
  intros Hy Hn k Hk. unfold branch.
  destruct (test (vars (lifecycle k))); [apply Hy | apply Hn]; assumption.
Qed.

Lemma asr_stop_always (P : handles -> Prop) (env : environment) :
  (forall h, P h -> P (clear_asrRunning h)) -> always P (asrService_stop env).
Proof.
  intros H. unfold asrService_stop.
  repeat first
    [ apply always_when | apply always_bind | apply always_try
    | apply always_external | apply always_console
    | apply always_assign; exact H ].
Qed.

Ltac stable := intros; simpl; try tauto; try assumption; auto.

Ltac invariant :=
  repeat first
    [ apply inv_bind
    | apply inv_try; [|intros ?]
    | apply inv_when
    | apply inv_branch
    | apply inv_if
    | apply inv_acquire
    | apply inv_write
    | apply inv_canvas
    | apply inv_throw
    | apply inv_set; stable
    | apply inv_set_session; stable
    | apply inv_lift; intros ?; apply asr_stop_always; stable ].


(** *** What holds when a step returns *)





Lemma startup_triple_inv (I : handles -> Session.state -> Prop) (c : Startup.M unit) :
  inv I c ->
  Startup.triple (fun k => I (vars (lifecycle k)) (session k)) c
                 (fun k => I (vars (lifecycle k)) (session k)).
Proof.
  intros Hc k Hk. specialize (Hc k Hk).
  destruct (c k) as [[[]|e] k1]; [exact Hc | constructor].
Qed.






(** Once established, a fact about a variable that the later assignments
    leave alone holds at the end. *)
Ltac kept I := apply (startup_triple_inv I); invariant.












(** *** Failure *)














(** A start that is refused, or that fails, has consequences for the data
    of the session before: the refusal leaves them, the failure has already
    reset them. *)
Example failed_start_has_reset_the_session :
  let previous :=
    {| lifecycle := lifecycle fresh;
       session := Session.onFinal (str "so far so good") 500 (Session.started 0);
       canvasElement := false; acquired := []; startup_console := [] |} in
  let w := browser (Some GetUserMedia) "NotAllowedError" in
  let k' := snd (start w no_errors default_options 1000 2000 previous) in
  fst (start w no_errors default_options 1000 2000 previous)
  = Thrown "NotAllowedError"
  /\ Session.transcriptFinal (session previous) = str "so far so good"
  /\ Session.transcriptFinal (session k') = []
  /\ Teardown.performed (lifecycle k') = [].
Proof. vm_compute. repeat split. Qed.

End StartupProofs.
